(** * pi-dashboard: telemetry and health-check engine

    A shallow embedding of the server side of pi-dashboard
    ([server/index.js], [server/stats.js], [server/services-config.js])
    and the properties of its specification that are established on it.

    Conventions of the embedding.
    - Text (command output, configuration strings) is a [string] of
      ASCII characters; JavaScript's Unicode white space outside ASCII
      does not occur in the outputs of [ss], [wg] and [pivpn].
    - [null]/[undefined] are [None]; a number that may be [NaN] is a
      [jsnum].
    - [Date.now()] is an explicit argument of the functions that read
      the clock.
    - A JavaScript [Map] is a [gmap], a [Set] is a [gset]; an object
      literal used as a table is the finite map of its own properties,
      and a lookup by a computed key also finds what the object
      inherits from [Object.prototype].
    - A double is represented by the rational it stands for.  In
      [calculateCpuPercent] every operation is followed by the rounding
      to the nearest double.  [parseBytes] is computed on the decimal
      as written: for the numerals with two decimals that [wg] prints,
      the doubles round to the same integer.
    - Callbacks of the Node runtime (timers, sockets, resolvers) are
      events delivered to a state machine, one machine per promise.
    - The members of a [Promise.all] perform their effects one after
      the other; what matters is how the whole settles.
    - Calls into Node and into [systeminformation] are answered by the
      outside world; what they do internally is not described, except
      that [resolver.setServers] throws for a server that is not an IP
      address. *)

From Stdlib Require Import ZArith QArith Qround Qpower Ascii String List Sorted
  Bool Lia Lqa.
From stdpp Require Import base option list gmap strings.
Import ListNotations.

Local Open Scope string_scope.
Local Open Scope Z_scope.

(** ** JavaScript strings *)

Module JsString.

Definition chars (s : string) : list ascii := list_ascii_of_string s.
Definition str (l : list ascii) : string := string_of_list_ascii l.

Definition code (c : ascii) : nat := nat_of_ascii c.

(** White space of [String.prototype.trim] and of the regex class [\s]
    (ASCII part): TAB, LF, VT, FF, CR and SPACE. *)
Definition isSpace (c : ascii) : bool :=
  let n := code c in ((9 <=? n) && (n <=? 13))%nat || (n =? 32)%nat.

Definition isDigit (c : ascii) : bool :=
  let n := code c in ((48 <=? n) && (n <=? 57))%nat.

Definition isUpper (c : ascii) : bool :=
  let n := code c in ((65 <=? n) && (n <=? 90))%nat.

Definition isLower (c : ascii) : bool :=
  let n := code c in ((97 <=? n) && (n <=? 122))%nat.

Definition lowerChar (c : ascii) : ascii :=
  if isUpper c then ascii_of_nat (code c + 32) else c.

(** [s.toLowerCase()] *)
Definition toLowerCase (s : string) : string := str (map lowerChar (chars s)).

Fixpoint dropSpaces (l : list ascii) : list ascii :=
  match l with
  | c :: t => if isSpace c then dropSpaces t else l
  | [] => []
  end.

Definition trimChars (l : list ascii) : list ascii :=
  rev (dropSpaces (rev (dropSpaces l))).

(** [s.trim()] *)
Definition trim (s : string) : string := str (trimChars (chars s)).

Fixpoint prefixChars (p l : list ascii) : bool :=
  match p, l with
  | [], _ => true
  | a :: p', b :: l' => Ascii.eqb a b && prefixChars p' l'
  | _ :: _, [] => false
  end.

(** [s.startsWith(p)] *)
Definition startsWith (s p : string) : bool := prefixChars (chars p) (chars s).

Fixpoint includesChars (p l : list ascii) : bool :=
  prefixChars p l ||
  match l with
  | [] => false
  | _ :: t => includesChars p t
  end.

(** [s.includes(p)] *)
Definition includes (s p : string) : bool := includesChars (chars p) (chars s).

(** [s.replace(p, '')] with a string pattern: the first occurrence only. *)
Fixpoint removeFirstChars (p l : list ascii) : list ascii :=
  if prefixChars p l then drop (length p) l
  else match l with
       | [] => []
       | c :: t => c :: removeFirstChars p t
       end.

Definition removeFirst (s p : string) : string :=
  str (removeFirstChars (chars p) (chars s)).

(** [s.split('\n')]: the pieces between line feeds; always at least one
    piece. *)
Fixpoint splitChars (sep : ascii) (cur : list ascii) (l : list ascii)
  : list (list ascii) :=
  match l with
  | [] => [rev cur]
  | c :: t =>
      if Ascii.eqb c sep then rev cur :: splitChars sep [] t
      else splitChars sep (c :: cur) t
  end.

Definition LF : ascii := ascii_of_nat 10.

Definition splitLines (s : string) : list string :=
  map str (splitChars LF [] (chars s)).

(** Value of a run of decimal digits, as [parseInt(d, 10)] reads it. *)
Definition digitVal (c : ascii) : Z := Z.of_nat (code c) - 48.

Definition digitsVal (l : list ascii) : Z :=
  fold_left (fun acc c => 10 * acc + digitVal c) l 0.

(** Decimal rendering of a natural number, for template strings. *)
Fixpoint showPos (fuel : nat) (n : Z) (acc : list ascii) : list ascii :=
  match fuel with
  | O => acc
  | S f =>
      let d := ascii_of_nat (Z.to_nat (n mod 10) + 48) in
      if n <? 10 then d :: acc else showPos f (n / 10) (d :: acc)
  end.

Definition showZ (n : Z) : string :=
  str (showPos (S (Z.to_nat (Z.log2 n))) n []).

End JsString.

Import JsString.

(** A JavaScript number that is an integer or [NaN]. *)
Inductive jsnum : Type :=
| NaN
| Num (z : Z).

(** ** Regular expressions

    A backtracking matcher for the fragment of JavaScript regular
    expressions that the server uses: character classes, sequence,
    ordered alternation, greedy bounded and unbounded repetition,
    numbered capture groups and the anchors [^] and [$] (without the
    [m] flag).  The flag [i] is expressed in the character classes. *)

Module Regex.

Inductive regex : Type :=
| RChar (p : ascii -> bool)
| RSeq (r1 r2 : regex)
| RAlt (r1 r2 : regex)
| RRep (lo : nat) (hi : option nat) (r : regex)
| RGroup (i : nat) (r : regex)
| REmpty
| RBol
| REol.

Record mstate : Type := MState {
  m_pos : nat;
  m_rest : list ascii;
  m_caps : list (nat * list ascii)
}.

Definition hiDone (hi : option nat) : bool :=
  match hi with Some O => true | _ => false end.

Definition hiPred (hi : option nat) : option nat :=
  match hi with Some n => Some (Nat.pred n) | None => None end.

(** [n] turns respect the upper bound [hi]. *)
Definition within (hi : option nat) (n : nat) : Prop :=
  match hi with Some h => (n <= h)%nat | None => True end.

(** Greedy repetition of [body], between [lo] and [hi] times, then [k].
    One more turn is tried first; a turn that consumes nothing is
    refused, so [fuel], the length of the remaining text, bounds the
    number of turns. *)
Fixpoint repeatGreedy {A : Type}
  (body : mstate -> (mstate -> option A) -> option A)
  (k : mstate -> option A) (fuel : nat) (lo : nat) (hi : option nat)
  (st : mstate) {struct fuel} : option A :=
  let stop := if (lo =? 0)%nat then k st else None in
  match fuel with
  | O => stop
  | S fuel' =>
      if hiDone hi then stop
      else
        match body st (fun st' =>
                if (m_pos st <? m_pos st')%nat
                then repeatGreedy body k fuel' (Nat.pred lo) (hiPred hi) st'
                else None) with
        | Some a => Some a
        | None => stop
        end
  end.

(** [rmatch r st k]: match [r] at [st], then continue with [k]; the
    first alternative whose continuation succeeds wins. *)
Fixpoint rmatch {A : Type} (r : regex) (st : mstate)
  (k : mstate -> option A) {struct r} : option A :=
  match r with
  | RChar p =>
      match m_rest st with
      | c :: t =>
          if p c then k (MState (S (m_pos st)) t (m_caps st)) else None
      | [] => None
      end
  | RSeq r1 r2 => rmatch r1 st (fun st1 => rmatch r2 st1 k)
  | RAlt r1 r2 =>
      match rmatch r1 st k with
      | Some a => Some a
      | None => rmatch r2 st k
      end
  | RRep lo hi r1 =>
      repeatGreedy (rmatch r1) k (length (m_rest st)) lo hi st
  | RGroup i r1 =>
      rmatch r1 st (fun st' =>
        k (MState (m_pos st') (m_rest st')
             ((i, take (m_pos st' - m_pos st) (m_rest st)) :: m_caps st')))
  | REmpty => k st
  | RBol => if (m_pos st =? 0)%nat then k st else None
  | REol => match m_rest st with [] => k st | _ :: _ => None end
  end.

(** The result of [exec]: where the match starts, the matched text and
    the captures. *)
Record rmatched : Type := RMatched {
  mt_index : nat;
  mt_text : list ascii;
  mt_caps : list (nat * list ascii)
}.

Definition matchAt (r : regex) (pos : nat) (rest : list ascii)
  : option rmatched :=
  rmatch r (MState pos rest [])
    (fun st' => Some (RMatched pos (take (m_pos st' - pos) rest) (m_caps st'))).

(** Leftmost match, searching the start positions from left to right. *)
Fixpoint searchFrom (r : regex) (pos : nat) (rest : list ascii)
  : option rmatched :=
  match matchAt r pos rest with
  | Some m => Some m
  | None =>
      match rest with
      | [] => None
      | _ :: t => searchFrom r (S pos) t
      end
  end.

(** [s.match(r)] / [r.exec(s)] without the [g] flag. *)
Definition exec (r : regex) (s : string) : option rmatched :=
  searchFrom r 0 (chars s).

(** [r.test(s)] *)
Definition test (r : regex) (s : string) : bool :=
  match exec r s with Some _ => true | None => false end.

(** Capture group [i] of a match ([m[i]], [i >= 1]). *)
Fixpoint lookupCap (i : nat) (caps : list (nat * list ascii))
  : option (list ascii) :=
  match caps with
  | [] => None
  | (j, v) :: t => if (i =? j)%nat then Some v else lookupCap i t
  end.

Definition group (m : rmatched) (i : nat) : list ascii :=
  match lookupCap i (mt_caps m) with Some v => v | None => [] end.

(** [s.match(r)] with the [g] flag: the texts of all successive
    matches; after a match the search resumes at its end (one character
    further after an empty match). *)
Fixpoint matchAllFrom (fuel : nat) (r : regex) (pos : nat)
  (rest : list ascii) : list (list ascii) :=
  match fuel with
  | O => []
  | S fuel' =>
      match searchFrom r pos rest with
      | None => []
      | Some m =>
          let skip := (mt_index m - pos)%nat in
          let len := length (mt_text m) in
          let adv := if (len =? 0)%nat then S skip else (skip + len)%nat in
          mt_text m ::
            (if (length rest <? adv)%nat then []
             else matchAllFrom fuel' r (pos + adv)%nat (drop adv rest))
      end
  end.

Definition matchAll (r : regex) (s : string) : list (list ascii) :=
  matchAllFrom (S (String.length s)) r 0 (chars s).

(** *** Building blocks *)

Definition lit1 (c : ascii) : regex := RChar (Ascii.eqb c).

(** A character compared without regard to case (flag [i]). *)
Definition lit1i (c : ascii) : regex :=
  RChar (fun x => Ascii.eqb (lowerChar x) (lowerChar c)).

Definition lit (s : string) : regex :=
  fold_right (fun c r => RSeq (lit1 c) r) REmpty (chars s).

Definition liti (s : string) : regex :=
  fold_right (fun c r => RSeq (lit1i c) r) REmpty (chars s).

Definition star (r : regex) : regex := RRep 0 None r.
Definition plus (r : regex) : regex := RRep 1 None r.
Definition opt (r : regex) : regex := RRep 0 (Some 1%nat) r.

Definition digit : regex := RChar isDigit.
Definition space : regex := RChar isSpace.
Definition nonSpace : regex := RChar (fun c => negb (isSpace c)).

Fixpoint alts (rs : list regex) : regex :=
  match rs with
  | [] => RChar (fun _ => false)
  | [r] => r
  | r :: t => RAlt r (alts t)
  end.

Fixpoint seqs (rs : list regex) : regex :=
  match rs with
  | [] => REmpty
  | [r] => r
  | r :: t => RSeq r (seqs t)
  end.

End Regex.

Import Regex.

(** ** Service descriptors and the known-service tables
    ([server/services-config.js]) *)

Record Service : Type := mkService {
  sv_name : string;
  sv_host : option string;
  sv_port : Z;
  sv_path : option string;
  sv_checkType : option string;
  sv_interface : option string;
  sv_enabled : bool               (* [enabled !== false] *)
}.

(** An entry of [KNOWN_SERVICES], [KNOWN_PROCESSES] or
    [KNOWN_UDP_SERVICES]. *)
Record Known : Type := mkKnown {
  kn_name : string;
  kn_icon : string;
  kn_checkType : string;
  kn_path : option string;
  kn_interface : option string
}.

Definition kn (name icon checkType : string) : Known :=
  mkKnown name icon checkType None None.
Definition knp (name icon checkType path : string) : Known :=
  mkKnown name icon checkType (Some path) None.
Definition kni (name icon checkType iface : string) : Known :=
  mkKnown name icon checkType None (Some iface).

Definition KNOWN_SERVICES_list : list (Z * Known) := [
  (21, kn "FTP" "folder" "tcp");
  (22, kn "SSH" "terminal" "tcp");
  (25, kn "SMTP" "mail" "tcp");
  (53, kn "DNS" "globe" "dns");
  (80, knp "HTTP" "globe" "http" "/");
  (81, knp "Nginx Proxy Manager" "server" "http" "/");
  (110, kn "POP3" "mail" "tcp");
  (111, kn "RPC" "cpu" "tcp");
  (143, kn "IMAP" "mail" "tcp");
  (443, knp "HTTPS" "lock" "http" "/");
  (500, kni "IKEv2/IPSec" "shield" "interface" "ipsec0");
  (631, knp "CUPS" "printer" "http" "/");
  (1194, kni "OpenVPN" "shield" "interface" "tun0");
  (1723, kn "PPTP" "shield" "tcp");
  (1883, kn "MQTT" "radio" "tcp");
  (2049, kn "NFS" "hard-drive" "tcp");
  (3000, knp "Grafana" "bar-chart" "http" "/api/health");
  (3001, knp "Pi Dashboard" "activity" "http" "/api/health");
  (3306, kn "MySQL" "database" "tcp");
  (4500, kni "IPSec NAT-T" "shield" "interface" "ipsec0");
  (5432, kn "PostgreSQL" "database" "tcp");
  (5900, kn "VNC" "monitor" "tcp");
  (5984, kn "CouchDB" "database" "http");
  (6379, kn "Redis" "database" "redis");
  (6881, kn "BitTorrent" "download" "tcp");
  (7474, kn "Neo4j" "database" "http");
  (7681, knp "ttyd" "terminal" "http" "/");
  (8080, knp "HTTP Proxy" "globe" "http" "/");
  (8086, kn "InfluxDB" "database" "http");
  (8096, knp "Jellyfin" "film" "http" "/");
  (8112, knp "Deluge" "download" "http" "/");
  (8123, knp "Home Assistant" "home" "http" "/");
  (8384, knp "Syncthing" "refresh-cw" "http" "/");
  (8443, knp "HTTPS Alt" "lock" "http" "/");
  (8686, knp "Lidarr" "music" "http" "/");
  (8787, knp "Readarr" "book" "http" "/");
  (8989, knp "Sonarr" "tv" "http" "/");
  (9000, knp "Portainer" "box" "http" "/");
  (9042, kn "Cassandra" "database" "tcp");
  (9090, knp "Prometheus" "bar-chart" "http" "/-/healthy");
  (9091, knp "Transmission" "download" "http" "/");
  (9117, knp "Jackett" "search" "http" "/");
  (9200, kn "Elasticsearch" "database" "http");
  (9696, knp "Prowlarr" "search" "http" "/");
  (10000, knp "Webmin" "settings" "http" "/");
  (11434, knp "Ollama" "cpu" "http" "/");
  (19999, knp "Netdata" "activity" "http" "/");
  (26257, kn "CockroachDB" "database" "tcp");
  (27017, kn "MongoDB" "database" "tcp");
  (28015, kn "RethinkDB" "database" "tcp");
  (32400, knp "Plex" "play-circle" "http" "/web");
  (51413, kn "Transmission P2P" "download" "tcp");
  (51820, kni "WireGuard" "shield" "interface" "wg0");
  (58846, kn "Deluge Daemon" "download" "tcp")
].

Definition KNOWN_SERVICES : gmap Z Known := list_to_map KNOWN_SERVICES_list.

(** Own properties of the object literal [KNOWN_PROCESSES]; process
    names are looked up among these. *)
Definition KNOWN_PROCESSES_list : list (string * Known) := [
  ("nginx", knp "Nginx" "server" "http" "/");
  ("apache2", knp "Apache" "server" "http" "/");
  ("httpd", knp "Apache" "server" "http" "/");
  ("pihole-FTL", knp "Pi-hole" "shield" "http" "/admin/");
  ("grafana", knp "Grafana" "bar-chart" "http" "/api/health");
  ("prometheus", knp "Prometheus" "bar-chart" "http" "/-/healthy");
  ("node", knp "Node.js" "hexagon" "http" "/");
  ("java", knp "Java App" "coffee" "http" "/");
  ("python", knp "Python App" "code" "http" "/");
  ("deluged", knp "Deluge" "download" "http" "/");
  ("transmission", knp "Transmission" "download" "http" "/");
  ("jellyfin", knp "Jellyfin" "film" "http" "/");
  ("plex", knp "Plex" "play-circle" "http" "/web");
  ("homeassistant", knp "Home Assistant" "home" "http" "/");
  ("ollama", knp "Ollama" "cpu" "http" "/");
  ("redis-server", kn "Redis" "database" "redis");
  ("mariadbd", kn "MariaDB" "database" "tcp");
  ("mysqld", kn "MySQL" "database" "tcp");
  ("postgres", kn "PostgreSQL" "database" "tcp");
  ("mongod", kn "MongoDB" "database" "tcp");
  ("sshd", kn "SSH" "terminal" "tcp");
  ("unbound", kn "Unbound DNS" "globe" "dns")
].

Definition KNOWN_PROCESSES : gmap string Known :=
  list_to_map KNOWN_PROCESSES_list.

Definition VALID_CHECK_TYPES : list string :=
  ["http"; "tcp"; "redis"; "dns"; "interface"].

Definition inList (x : string) (l : list string) : bool :=
  existsb (String.eqb x) l.

(** [a || b] on a string that may be absent: the empty string is falsy. *)
Definition orElse (a : option string) (b : string) : string :=
  match a with
  | Some s => if String.eqb s "" then b else s
  | None => b
  end.

Definition truthy (a : option string) : bool :=
  match a with
  | Some s => negb (String.eqb s "")
  | None => false
  end.

(** [inferCheckType(port, explicitCheckType)] *)
Definition inferCheckType (port : Z) (explicitCheckType : option string)
  : string :=
  match explicitCheckType with
  | Some t =>
      if negb (String.eqb t "") && inList t VALID_CHECK_TYPES then t
      else match KNOWN_SERVICES !! port with
           | Some k => kn_checkType k
           | None => "tcp"
           end
  | None =>
      match KNOWN_SERVICES !! port with
      | Some k => kn_checkType k
      | None => "tcp"
      end
  end.

(** ** Service health checks ([server/index.js])

    Every check builds one promise.  The promise, its 3000 ms timer and
    the requests it issued are the state of a small machine; the
    callbacks registered by the check are its transitions. *)

Module Probe.

Inductive Status : Type := Online | Offline | Error.

(** [{ ...service, status, latency, statusCode }] *)
Record HealthResult : Type := mkResult {
  hr_service : Service;
  hr_status : Status;
  hr_latency : option Z;
  hr_statusCode : option Z
}.

(** What a check asks of the runtime. *)
Inductive Action : Type :=
| ASetTimeout (ms : Z)
| AClearTimeout
| AHttpRequest (hostname : string) (port : Z) (path method : string)
    (timeout : Z)
| AConnect (port : Z) (host : string)
| AWrite (data : string)
| ADestroy
| ADnsSetServers (server : string)
| ADnsResolve (domain : string)
| AFsAccess (path : string).

(** The callbacks the runtime may invoke, each with the reading of
    [Date.now()] at that moment; and [EvThrow], by which the library
    call that the executor makes with the data of the descriptor
    ([http.request], [socket.connect], [resolver.setServers],
    [fs.access]) throws instead of returning, for a reason that is the
    runtime's to tell.  That [resolver.setServers] throws for a server
    given by name is part of the executor ([dnsStart]). *)
Inductive Event : Type :=
| EvTimer (now : Z)                        (* the [setTimeout] callback *)
| EvHttpResponse (now : Z) (statusCode : Z)
| EvHttpError (now : Z)                    (* [req.on('error')] *)
| EvHttpTimeout (now : Z)                  (* [req.on('timeout')] *)
| EvConnect (now : Z)                      (* [socket.connect] callback *)
| EvSocketError (now : Z)                  (* [socket.on('error')] *)
| EvData (now : Z) (data : string)         (* [socket.on('data')] *)
| EvDnsAnswer (now : Z) (err : bool)       (* [resolver.resolve] callback *)
| EvFsAccess (now : Z) (err : bool)        (* [fs.access] callback *)
| EvThrow (now : Z) (message : string).    (* the executor's call throws *)

(** The promise of a check: fulfilled with a result, rejected with the
    message of an error, or neither yet. *)
Record PState : Type := mkPState {
  p_resolved : option HealthResult;
  p_rejected : option string;
  p_timer : bool;               (* a timer is pending *)
  p_actions : list Action       (* issued so far, oldest first *)
}.

Definition pending : PState := mkPState None None false [].

(** [resolve(r)]: only the first settlement of the promise counts. *)
Definition resolve (r : HealthResult) (st : PState) : PState :=
  match p_resolved st with
  | Some _ => st
  | None =>
      match p_rejected st with
      | Some _ => st
      | None => mkPState (Some r) None (p_timer st) (p_actions st)
      end
  end.

(** An exception that leaves the executor rejects the promise. *)
Definition reject (message : string) (st : PState) : PState :=
  match p_resolved st with
  | Some _ => st
  | None =>
      match p_rejected st with
      | Some _ => st
      | None => mkPState None (Some message) (p_timer st) (p_actions st)
      end
  end.

Definition act (a : Action) (st : PState) : PState :=
  mkPState (p_resolved st) (p_rejected st) (p_timer st) (p_actions st ++ [a]).

Definition setTimeout (ms : Z) (st : PState) : PState :=
  mkPState (p_resolved st) (p_rejected st) true
    (p_actions st ++ [ASetTimeout ms]).

Definition clearTimeout (st : PState) : PState :=
  mkPState (p_resolved st) (p_rejected st) false
    (p_actions st ++ [AClearTimeout]).

(** The timer callback runs only while the timer is pending, and once. *)
Definition fire (st : PState) : PState :=
  mkPState (p_resolved st) (p_rejected st) false (p_actions st).

Definition offlineResult (service : Service) : HealthResult :=
  mkResult service Offline None None.

(** A check: the executor when its library call returns ([h_start]),
    the executor when that call throws ([h_failed]), and the
    callbacks ([h_on]). *)
Record Handler : Type := mkHandler {
  h_start : Service -> Z -> PState;
  h_failed : Service -> Z -> string -> PState;
  h_on : Service -> Z -> PState -> Event -> PState
}.

(** *** [checkHttpService] *)
Definition httpStart (service : Service) (start : Z) : PState :=
  act (AHttpRequest (orElse (sv_host service) "localhost") (sv_port service)
         (orElse (sv_path service) "/") "HEAD" 3000)
    (setTimeout 3000 pending).

Definition httpOn (service : Service) (start : Z) (st : PState) (ev : Event)
  : PState :=
  match ev with
  | EvTimer _ =>
      if p_timer st then resolve (offlineResult service) (fire st) else st
  | EvHttpResponse now statusCode =>
      let st := clearTimeout st in
      let latency := now - start in
      resolve (mkResult service
                 (if statusCode <? 500 then Online else Error)
                 (Some latency) (Some statusCode)) st
  | EvHttpError _ =>
      resolve (offlineResult service) (clearTimeout st)
  | EvHttpTimeout _ =>
      resolve (offlineResult service) (clearTimeout (act ADestroy st))
  | _ => st
  end.

(** [http.request] throws: the timer has been set, nothing listens. *)
Definition httpFailed (service : Service) (start : Z) (message : string)
  : PState :=
  reject message (httpStart service start).

Definition checkHttpService : Handler :=
  mkHandler httpStart httpFailed httpOn.

(** *** [checkTcpService] *)
Definition tcpStart (service : Service) (start : Z) : PState :=
  act (AConnect (sv_port service) (orElse (sv_host service) "localhost"))
    (setTimeout 3000 pending).

Definition tcpOn (service : Service) (start : Z) (st : PState) (ev : Event)
  : PState :=
  match ev with
  | EvTimer _ =>
      if p_timer st
      then resolve (offlineResult service) (act ADestroy (fire st))
      else st
  | EvConnect now =>
      let st := clearTimeout st in
      let latency := now - start in
      resolve (mkResult service Online (Some latency) None) (act ADestroy st)
  | EvSocketError _ =>
      resolve (offlineResult service) (act ADestroy (clearTimeout st))
  | _ => st
  end.

(** [socket.connect] throws: the timer has been set. *)
Definition tcpFailed (service : Service) (start : Z) (message : string)
  : PState :=
  reject message (tcpStart service start).

Definition checkTcpService : Handler := mkHandler tcpStart tcpFailed tcpOn.

(** *** [checkRedisService] *)
Definition CRLF : string :=
  String (ascii_of_nat 13) (String (ascii_of_nat 10) EmptyString).

Definition redisStart (service : Service) (start : Z) : PState :=
  act (AConnect (sv_port service) (orElse (sv_host service) "localhost"))
    (setTimeout 3000 pending).

Definition redisOn (service : Service) (start : Z) (st : PState) (ev : Event)
  : PState :=
  match ev with
  | EvTimer _ =>
      if p_timer st
      then resolve (offlineResult service) (act ADestroy (fire st))
      else st
  | EvConnect _ => act (AWrite ("PING" ++ CRLF)) st
  | EvData now data =>
      let st := clearTimeout st in
      let latency := now - start in
      let response := trim data in
      resolve (mkResult service
                 (if includes response "PONG" then Online else Error)
                 (Some latency) None) (act ADestroy st)
  | EvSocketError _ =>
      resolve (offlineResult service) (act ADestroy (clearTimeout st))
  | _ => st
  end.

Definition redisFailed (service : Service) (start : Z) (message : string)
  : PState :=
  reject message (redisStart service start).

Definition checkRedisService : Handler :=
  mkHandler redisStart redisFailed redisOn.

(** *** [checkDnsService] *)
Definition dnsHost (service : Service) : string :=
  let host := orElse (sv_host service) "127.0.0.1" in
  if String.eqb host "localhost" then "127.0.0.1" else host.

Definition dnsServer (service : Service) : string :=
  let port := if sv_port service =? 0 then 53 else sv_port service in
  dnsHost service ++ ":" ++ showZ port.

(** The pattern by which Node tells a dotted quad ([net.isIPv4]):
    four numbers from 0 to 255 without leading zeros. *)
Definition classBetween (lo hi : nat) : regex :=
  RChar (fun c => ((lo <=? code c) && (code c <=? hi))%nat).

Definition v4Seg : regex :=
  alts [seqs [lit "25"; classBetween 48 53];
        seqs [lit "2"; classBetween 48 52; digit];
        seqs [lit "1"; digit; digit];
        seqs [classBetween 49 57; digit];
        digit].

Definition IPv4Reg : regex :=
  seqs [RBol; RRep 3 (Some 3%nat) (RSeq v4Seg (lit ".")); v4Seg; REol].

(** The server is given by a name: the host holds no colon and no
    bracket, as the notations of IPv6 addresses do, and is no dotted
    quad.  [resolver.setServers] of Node throws [ERR_INVALID_IP_ADDRESS]
    for such a server. *)
Definition namedServer (service : Service) : bool :=
  let ip := dnsHost service in
  negb (includes ip ":") && negb (includes ip "[")
  && negb (test IPv4Reg ip).

(** [resolver.setServers] throws: the executor ends before the timer
    is set and before the query is made. *)
Definition dnsFailed (service : Service) (start : Z) (message : string)
  : PState :=
  reject message (act (ADnsSetServers (dnsServer service)) pending).

(** The executor: [setServers], which throws for a server given by
    name, then the timer and the query. *)
Definition dnsStart (service : Service) (start : Z) : PState :=
  if namedServer service
  then dnsFailed service start ("Invalid IP address: " ++ dnsServer service)
  else
    act (ADnsResolve "google.com")
      (setTimeout 3000 (act (ADnsSetServers (dnsServer service)) pending)).

Definition dnsOn (service : Service) (start : Z) (st : PState) (ev : Event)
  : PState :=
  match ev with
  | EvTimer _ =>
      if p_timer st then resolve (offlineResult service) (fire st) else st
  | EvDnsAnswer now err =>
      let st := clearTimeout st in
      let latency := now - start in
      resolve (mkResult service
                 (if err then Offline else Online)
                 (if err then None else Some latency) None) st
  | _ => st
  end.

Definition checkDnsService : Handler := mkHandler dnsStart dnsFailed dnsOn.

(** *** [checkInterfaceService]: no timer is set. *)
Definition interfaceStart (service : Service) (start : Z) : PState :=
  let iface :=
    orElse (sv_interface service) (orElse (sv_path service) "wg0") in
  act (AFsAccess ("/sys/class/net/" ++ iface)) pending.

Definition interfaceOn (service : Service) (start : Z) (st : PState)
  (ev : Event) : PState :=
  match ev with
  | EvFsAccess now err =>
      let latency := now - start in
      resolve (mkResult service
                 (if err then Offline else Online)
                 (if err then None else Some latency) None) st
  | _ => st
  end.

Definition interfaceFailed (service : Service) (start : Z)
  (message : string) : PState :=
  reject message (interfaceStart service start).

Definition checkInterfaceService : Handler :=
  mkHandler interfaceStart interfaceFailed interfaceOn.

(** *** [checkService]: the dispatcher.  [case 'http'] and [default]
    share one branch. *)
Definition checkService (service : Service) : Handler :=
  match sv_checkType service with
  | Some t =>
      if String.eqb t "tcp" then checkTcpService
      else if String.eqb t "redis" then checkRedisService
      else if String.eqb t "dns" then checkDnsService
      else if String.eqb t "interface" then checkInterfaceService
      else checkHttpService
  | None => checkHttpService
  end.

(** The executor runs first.  When its library call throws, which the
    course of events tells by starting with [EvThrow], the promise is
    rejected; the callbacks that follow find it settled. *)
Definition boot (h : Handler) (service : Service) (start : Z)
  (tr : list Event) : PState * list Event :=
  match tr with
  | EvThrow _ message :: rest => (h_failed h service start message, rest)
  | _ => (h_start h service start, tr)
  end.

(** The state of the promise of handler [h] for [service], dispatched at
    clock reading [start], after the events [tr]. *)
Definition run (h : Handler) (service : Service) (start : Z)
  (tr : list Event) : PState :=
  fold_left (h_on h service start) (snd (boot h service start tr))
    (fst (boot h service start tr)).

Definition probe (service : Service) (start : Z) (tr : list Event) : PState :=
  run (checkService service) service start tr.

Definition isTimer (ev : Event) : bool :=
  match ev with EvTimer _ => true | _ => false end.

(** Events that tell of an established connection or an answer. *)
Definition isAnswer (ev : Event) : bool :=
  match ev with
  | EvHttpResponse _ _ | EvConnect _ | EvData _ _ => true
  | EvDnsAnswer _ err | EvFsAccess _ err => negb err
  | _ => false
  end.

Definition isThrow (ev : Event) : bool :=
  match ev with EvThrow _ _ => true | _ => false end.

(** The executor of the check returns: its library call does not
    throw. *)
Definition executorReturns (tr : list Event) : Prop :=
  match tr with
  | EvThrow _ _ :: _ => False
  | _ => True
  end.

(** Every result with which the promise may be settled satisfies [Q]. *)
Definition settledBy (Q : HealthResult -> Prop) (st : PState) : Prop :=
  forall r, p_resolved st = Some r -> Q r.

(** The results a handler can produce: those of its own callbacks. *)
Inductive produces (service : Service) (start : Z) : HealthResult -> Prop :=
| produces_offline : produces service start (offlineResult service)
| produces_online now code :
    produces service start (mkResult service Online (Some (now - start)) code)
| produces_error now code :
    produces service start (mkResult service Error (Some (now - start)) code).

(** The tag of a descriptor is one of the five of [VALID_CHECK_TYPES]. *)
Definition knownTag (service : Service) : bool :=
  match sv_checkType service with
  | Some t => inList t VALID_CHECK_TYPES
  | None => false
  end.

(** An unsettled promise still has its timer pending. *)
Definition guarded (st : PState) : Prop :=
  p_resolved st = None -> p_timer st = true.

Definition settled (st : PState) : Prop :=
  exists r, p_resolved st = Some r.

Definition rejected (st : PState) : Prop :=
  exists message, p_rejected st = Some message.

Definition unrejected (st : PState) : Prop := p_rejected st = None.

(** The descriptor does not make the executor throw: a DNS server is
    not given by name. *)
Definition addressed (service : Service) : Prop :=
  sv_checkType service = Some "dns" -> namedServer service = false.

(** The state of a DNS check whose executor was left by an exception of
    [resolver.setServers]. *)
Definition dnsAborted (service : Service) (message : string) (st : PState)
  : Prop :=
  p_rejected st = Some message
  /\ p_resolved st = None
  /\ p_timer st = false
  /\ ~ In (ASetTimeout 3000) (p_actions st)
  /\ In (ADnsSetServers (dnsServer service)) (p_actions st).

(** Example descriptors. *)
Definition exampleService (checkType : string) : Service :=
  mkService "svc" None 8080 None (Some checkType) None true.

(** A DNS resolver that is configured by name. *)
Definition exampleResolver : Service :=
  mkService "resolver" (Some "example.com") 53 None (Some "dns") None true.

End Probe.

(** ** Numbers

    [Math.round], the rounding of an exact result to the nearest
    double, and the decimal numerals read by [parseFloat].  A double is
    represented by the rational it stands for. *)

Module JsNumber.

(** [Math.round(x)]: the nearest integer, halves upwards. *)
Definition jsRound (x : Q) : Z := Qfloor (x + (1 # 2))%Q.

(** The binary exponent of a positive [x]: the [e] with
    [2^e <= x < 2^(e+1)]. *)
Definition exponent (x : Q) : Z :=
  let e := Z.log2 (Qnum x) - Z.log2 (Zpos (Qden x)) in
  if Qle_bool (2 ^ e) x then e else e - 1.

(** The integer nearest to [m]; of two that are equally near, the even
    one. *)
Definition roundEven (m : Q) : Z :=
  let f := Qfloor m in
  match (m - inject_Z f ?= 1 # 2)%Q with
  | Lt => f
  | Gt => f + 1
  | Eq => if Z.even f then f else f + 1
  end.

(** The double nearest to [x], which is what an arithmetic operation
    of JavaScript returns for the exact result [x]: 53 significant
    bits, ties to the even significand.  The exponent is not bounded:
    this is the rounding of IEEE 754 for the normal numbers, with
    absolute values from [2^-1022] to below [2^1024]. *)
Definition double (x : Q) : Q :=
  match (x ?= 0)%Q with
  | Eq => 0%Q
  | Gt =>
      let ulp := (2 ^ (exponent x - 52))%Q in
      Qred (inject_Z (roundEven (x / ulp)) * ulp)
  | Lt =>
      let ulp := (2 ^ (exponent (- x) - 52))%Q in
      Qred (- (inject_Z (roundEven (- x / ulp)) * ulp))
  end.

Definition pow10 (n : nat) : positive := Pos.pow 10 (Pos.of_nat n).

(** [parseFloat(s)] on a run of digits and dots: the longest prefix of
    the shape [d*], [d*.d*] with at least one digit; [None] is [NaN]. *)
Fixpoint takeDigits (l : list ascii) : list ascii * list ascii :=
  match l with
  | c :: t =>
      if isDigit c then let '(d, r) := takeDigits t in (c :: d, r)
      else ([], l)
  | [] => ([], [])
  end.

Definition parseFloat (l : list ascii) : option Q :=
  let '(ip, rest) := takeDigits l in
  let fp :=
    match rest with
    | c :: t => if Ascii.eqb c "." then fst (takeDigits t) else []
    | [] => []
    end in
  match ip, fp with
  | [], [] => None
  | _, [] => Some (inject_Z (digitsVal ip))
  | _, _ => Some (Qmake (digitsVal (ip ++ fp)) (pow10 (length fp)))
  end.

(** [parseInt(s, 10)]: leading white space, an optional sign, then
    digits; [NaN] without a digit. *)
Definition parseInt (s : string) : jsnum :=
  let l := dropSpaces (chars s) in
  let '(neg, l) :=
    match l with
    | c :: t =>
        if Ascii.eqb c "-" then (true, t)
        else if Ascii.eqb c "+" then (false, t) else (false, l)
    | [] => (false, l)
    end in
  match fst (takeDigits l) with
  | [] => NaN
  | d => Num (if neg : bool then - digitsVal d else digitsVal d)
  end.

End JsNumber.

Import JsNumber.

(** ** The CPU delta cache ([server/stats.js]) *)

Module CpuCache.

(** [{ usageUsec, timeUsec }] *)
Record Sample : Type := mkSample {
  usageUsec : Z;
  timeUsec : Z
}.

(** The cache access of [calculateCpuPercent]: [cpuCache.get] followed
    by [cpuCache.set]; the previous entry is handed back. *)
Definition record (sourceId : string) (value nowMicros : Z)
  (cpuCache : gmap string Sample) : option Sample * gmap string Sample :=
  let cached := cpuCache !! sourceId in
  (cached, <[sourceId := mkSample value nowMicros]> cpuCache).

(** [calculateCpuPercent(containerId, currentUsageUsec)] on [numCpus]
    cores, with [Date.now()] reading [nowMs].  The usage counters and
    the clock are integers that a double holds exactly (below [2^53]
    microseconds), so their differences are exact; the quotient, the
    two scalings and the division by the number of cores are each
    rounded to a double, and so are the product handed to [Math.round]
    and the final division by 10. *)
Definition calculateCpuPercent (numCpus : Z) (nowMs : Z)
  (containerId : string) (currentUsageUsec : option Z)
  (cpuCache : gmap string Sample) : Q * gmap string Sample :=
  match currentUsageUsec with
  | None => (0%Q, cpuCache)
  | Some usage =>
      let now := nowMs * 1000 in
      let '(cached, cpuCache) := record containerId usage now cpuCache in
      match cached with
      | None => (0%Q, cpuCache)
      | Some c =>
          let deltaUsage := usage - usageUsec c in
          let deltaTime := now - timeUsec c in
          if (deltaTime <=? 0) || (deltaUsage <? 0) then (0%Q, cpuCache)
          else
            let cpuPercent :=
              double
                (double (double (inject_Z deltaUsage / inject_Z deltaTime)
                         * 100)
                 / inject_Z numCpus)%Q in
            (double (inject_Z (jsRound (double (cpuPercent * 10))) / 10)%Q,
             cpuCache)
      end
  end.

Definition staleThreshold : Z := 120000000.

(** The body of the [setInterval] sweep. *)
Definition sweep (nowMs : Z) (cpuCache : gmap string Sample)
  : gmap string Sample :=
  let now := nowMs * 1000 in
  filter (fun kv => negb (staleThreshold <? now - timeUsec (snd kv)) = true)
    cpuCache.

End CpuCache.

(** ** WireGuard status ([server/index.js]) *)

Module WireGuard.

(** [/(\d+)\s*(second|minute|hour|day)s?/gi] *)
Definition timeUnit : regex :=
  alts [liti "second"; liti "minute"; liti "hour"; liti "day"].

Definition HANDSHAKE_PARTS : regex :=
  seqs [RGroup 1 (plus digit); star space; RGroup 2 timeUnit;
        opt (lit1i "s")].

(** [/(\d+)\s*(second|minute|hour|day)/i] *)
Definition HANDSHAKE_PART : regex :=
  seqs [RGroup 1 (plus digit); star space; RGroup 2 timeUnit].

Definition addPart (totalSeconds : Z) (part : list ascii) : Z :=
  match exec HANDSHAKE_PART (str part) with
  | Some m =>
      let value := digitsVal (group m 1) in
      let unit := toLowerCase (str (group m 2)) in
      if startsWith unit "second" then totalSeconds + value
      else if startsWith unit "minute" then totalSeconds + value * 60
      else if startsWith unit "hour" then totalSeconds + value * 3600
      else if startsWith unit "day" then totalSeconds + value * 86400
      else totalSeconds
  | None => totalSeconds
  end.

(** [parseHandshakeTime(str)] *)
Definition parseHandshakeTime (s : string) : option Z :=
  if String.eqb s "" then None
  else
    match matchAll HANDSHAKE_PARTS s with
    | [] => None
    | parts => Some (fold_left addPart parts 0)
    end.

(** [formatTimeAgo(seconds)] *)
Definition formatTimeAgo (seconds : option Z) : string :=
  match seconds with
  | None => "never"
  | Some s =>
      if s <? 60 then showZ s ++ " sec ago"
      else if s <? 3600 then showZ (s / 60) ++ " min ago"
      else if s <? 86400 then showZ (s / 3600) ++ " hr ago"
      else showZ (s / 86400) ++ " day ago"
  end.

(** [/([\d.]+)\s*(B|KiB|MiB|GiB)\s*received/i] and the same for [sent] *)
Definition digitOrDot (c : ascii) : bool := isDigit c || Ascii.eqb c ".".

Definition byteUnit : regex :=
  alts [liti "B"; liti "KiB"; liti "MiB"; liti "GiB"].

Definition transferClause (word : string) : regex :=
  seqs [RGroup 1 (plus (RChar digitOrDot)); star space; RGroup 2 byteUnit;
        star space; liti word].

Definition RX_REGEX : regex := transferClause "received".
Definition TX_REGEX : regex := transferClause "sent".

(** [parseBytes(value, unit)] *)
Definition parseBytes (value unit : list ascii) : jsnum :=
  match parseFloat value with
  | None => NaN
  | Some v =>
      let u := toLowerCase (str unit) in
      if String.eqb u "b" then Num (jsRound v)
      else if String.eqb u "kib" then Num (jsRound (v * 1024))
      else if String.eqb u "mib" then Num (jsRound (v * 1024 * 1024))
      else if String.eqb u "gib" then Num (jsRound (v * 1024 * 1024 * 1024))
      else Num (jsRound v)
  end.


Record Peer : Type := mkPeer {
  publicKey : string;
  endpoint : option string;
  lastHandshake : option Z;
  lastHandshakeSeconds : option Z;
  received : jsnum;
  sent : jsnum
}.

Record Interface : Type := mkInterface {
  if_name : string;
  if_publicKey : option string;
  if_listenPort : option jsnum
}.

Record WgShow : Type := mkWgShow {
  interface : Interface;
  peers : list Peer
}.

(** The state of the loop of [parseWgShow]: [result] and [currentPeer]. *)
Record Parser : Type := mkParser {
  result : WgShow;
  currentPeer : option Peer
}.

Definition field (trimmed key : string) : string :=
  trim (removeFirst trimmed key).

(** The object a [peer:] line creates. *)
Definition newPeer (trimmed : string) : Peer :=
  mkPeer (field trimmed "peer:") None None None (Num 0) (Num 0).

(** The branch "Peer details" of the loop, on the current peer. *)
Definition peerDetail (nowMs : Z) (p : Peer) (trimmed : string) : Peer :=
  if startsWith trimmed "endpoint:" then
    mkPeer (publicKey p) (Some (field trimmed "endpoint:"))
      (lastHandshake p) (lastHandshakeSeconds p) (received p) (sent p)
  else if startsWith trimmed "latest handshake:" then
    let handshakeStr := field trimmed "latest handshake:" in
    let secs := parseHandshakeTime handshakeStr in
    mkPeer (publicKey p) (endpoint p)
      (match secs with
       | Some s => Some (nowMs / 1000 - s)
       | None => lastHandshake p
       end)
      secs (received p) (sent p)
  else if startsWith trimmed "transfer:" then
    let transferStr := field trimmed "transfer:" in
    let rxMatch := exec RX_REGEX transferStr in
    let txMatch := exec TX_REGEX transferStr in
    mkPeer (publicKey p) (endpoint p) (lastHandshake p)
      (lastHandshakeSeconds p)
      (match rxMatch with
       | Some m => parseBytes (group m 1) (group m 2)
       | None => received p
       end)
      (match txMatch with
       | Some m => parseBytes (group m 1) (group m 2)
       | None => sent p
       end)
  else p.

(** One turn of the loop over the lines. *)
Definition step (nowMs : Z) (st : Parser) (line : string) : Parser :=
  let trimmed := trim line in
  let r := result st in
  if startsWith trimmed "public key:" then
    match currentPeer st with
    | None =>
        mkParser
          (mkWgShow
             (mkInterface (if_name (interface r))
                (Some (field trimmed "public key:"))
                (if_listenPort (interface r)))
             (peers r))
          None
    | Some _ => st
    end
  else if startsWith trimmed "listening port:" then
    mkParser
      (mkWgShow
         (mkInterface (if_name (interface r)) (if_publicKey (interface r))
            (Some (parseInt (field trimmed "listening port:"))))
         (peers r))
      (currentPeer st)
  else if startsWith trimmed "peer:" then
    mkParser
      (mkWgShow (interface r)
         (match currentPeer st with
          | Some p => peers r ++ [p]
          | None => peers r
          end))
      (Some (newPeer trimmed))
  else
    match currentPeer st with
    | Some p => mkParser r (Some (peerDetail nowMs p trimmed))
    | None => st
    end.

(** [parseWgShow(output, interfaceName)] *)
Definition parseWgShow (nowMs : Z) (output interfaceName : string) : WgShow :=
  let init :=
    mkParser (mkWgShow (mkInterface interfaceName None None) []) None in
  let st := fold_left (step nowMs) (splitLines output) init in
  mkWgShow (interface (result st))
    (match currentPeer st with
     | Some p => peers (result st) ++ [p]
     | None => peers (result st)
     end).

(** *** The peer blocks of a status text

    A marker is a line that, trimmed, starts with [peer:]; a block is a
    marker with the lines up to the next marker. *)
Definition isMarker (line : string) : bool := startsWith (trim line) "peer:".

Fixpoint untilMarker (lines : list string) : list string :=
  match lines with
  | [] => []
  | l :: rest => if isMarker l then [] else l :: untilMarker rest
  end.

Fixpoint peerBlocks (lines : list string) : list (string * list string) :=
  match lines with
  | [] => []
  | l :: rest =>
      let bs := peerBlocks rest in
      if isMarker l then (l, untilMarker rest) :: bs else bs
  end.

(** A line inside a block that the loop hands to "Peer details". *)
Definition isDetail (line : string) : bool :=
  negb (startsWith (trim line) "public key:")
  && negb (startsWith (trim line) "listening port:").

(** The record of one block, read off its own lines only. *)
Definition blockPeer (nowMs : Z) (b : string * list string) : Peer :=
  fold_left (fun p l => peerDetail nowMs p (trim l))
    (filter (fun l => isDetail l = true) (snd b)) (newPeer (trim (fst b))).

(** What [parseWgShow] returns for a state of its loop. *)
Definition flush (st : Parser) : list Peer :=
  (peers (result st) ++ option_list (currentPeer st))%list.

End WireGuard.

(** ** The runtime seen by asynchronous code

    An [async] function is a computation over the outside world (what
    commands, files and library calls answer), a store (the module-level
    caches and the trace of effects) and the three fates of a promise. *)

Module Runtime.

(** How an awaited promise ends. *)
Inductive Res (A : Type) : Type :=
| Ok (a : A)
| Rejected (message : string)
| Pending.                      (* never settles *)

Arguments Ok {A} a.
Arguments Rejected {A} message.
Arguments Pending {A}.

(** A call that settles: its value, or the message of its error. *)
Inductive Outcome (A : Type) : Type :=
| Done (a : A)
| Failed (message : string).

Arguments Done {A} a.
Arguments Failed {A} message.

Inductive Effect : Type :=
| Exec (command : string)          (* [exec], [execSync] *)
| ReadFile (path : string)
| LibCall (name : string)          (* a call into [systeminformation] *)
| DockerGet (path : string).       (* a request on the Docker socket *)

Record StaticCache (P : Type) : Type := mkStaticCache {
  sc_osInfo : option P;
  sc_hostOsInfo : option P;
  sc_networkInterfaces : option P;
  sc_lastDiskCheck : Z;
  sc_disks : option P;
  sc_lastStaticRefresh : Z
}.

Arguments mkStaticCache {P}.
Arguments sc_osInfo {P}.
Arguments sc_hostOsInfo {P}.
Arguments sc_networkInterfaces {P}.
Arguments sc_lastDiskCheck {P}.
Arguments sc_disks {P}.
Arguments sc_lastStaticRefresh {P}.

(** The module-level state of the server and the effects performed. *)
Record Store (P : Type) : Type := mkStore {
  cpuCache : gmap string CpuCache.Sample;
  staticCache : StaticCache P;
  effects : list Effect
}.

Arguments mkStore {P}.
Arguments cpuCache {P}.
Arguments staticCache {P}.
Arguments effects {P}.

Definition Async (P A : Type) : Type := Store P -> Res A * Store P.

Definition ret {P A} (a : A) : Async P A := fun s => (Ok a, s).

Definition throw {P A} (message : string) : Async P A :=
  fun s => (Rejected message, s).

Definition bind {P A B} (m : Async P A) (f : A -> Async P B) : Async P B :=
  fun s =>
    match m s with
    | (Ok a, s') => f a s'
    | (Rejected e, s') => (Rejected e, s')
    | (Pending, s') => (Pending, s')
    end.

(** [try { m } catch (e) { h(e.message) }] *)
Definition tryCatch {P A} (m : Async P A) (h : string -> Async P A)
  : Async P A :=
  fun s =>
    match m s with
    | (Rejected e, s') => h e s'
    | r => r
    end.

(** [Promise.all([a, b])]: both computations are started; the result
    rejects as soon as one of them rejects, also while the other is
    pending, and is otherwise fulfilled when both are. *)
Definition both {P A B} (a : Async P A) (b : Async P B) : Async P (A * B) :=
  fun s =>
    let '(ra, s1) := a s in
    let '(rb, s2) := b s1 in
    (match ra, rb with
     | Rejected e, _ => Rejected e
     | _, Rejected e => Rejected e
     | Ok x, Ok y => Ok (x, y)
     | _, _ => Pending
     end, s2).

(** [Promise.all(l)] over a list. *)
Fixpoint all {P A} (l : list (Async P A)) : Async P (list A) :=
  match l with
  | [] => ret []
  | m :: rest =>
      fun s =>
        match both m (all rest) s with
        | (Ok (x, xs), s') => (Ok (x :: xs), s')
        | (Rejected e, s') => (Rejected e, s')
        | (Pending, s') => (Pending, s')
        end
  end.

Definition perform {P} (e : Effect) : Async P unit :=
  fun s => (Ok tt, mkStore (cpuCache s) (staticCache s) (effects s ++ [e])).

(** Awaiting a call that settles with [o]. *)
Definition settle {P A} (e : Effect) (o : Outcome A) : Async P A :=
  bind (perform e) (fun _ =>
    match o with
    | Done a => ret a
    | Failed msg => throw msg
    end).

Definition getStore {P} : Async P (Store P) := fun s => (Ok s, s).

Definition putCpuCache {P} (c : gmap string CpuCache.Sample) : Async P unit :=
  fun s => (Ok tt, mkStore c (staticCache s) (effects s)).

Definition putStaticCache {P} (c : StaticCache P) : Async P unit :=
  fun s => (Ok tt, mkStore (cpuCache s) c (effects s)).

(** The computation is fulfilled, with a value that satisfies [Q]. *)
Definition yields {P A} (m : Async P A) (Q : A -> Prop) : Prop :=
  forall s, exists a s', m s = (Ok a, s') /\ Q a.

(** The computation is fulfilled or rejects: it does not stay pending. *)
Definition settles {P A} (m : Async P A) : Prop :=
  forall s, exists s',
    (exists a, m s = (Ok a, s')) \/ (exists e, m s = (Rejected e, s')).

Definition rejects {P A} (m : Async P A) : Prop :=
  forall s, exists e s', m s = (Rejected e, s').

End Runtime.

Import Runtime.

Notation "'await' x ':=' m 'in' k" := (bind m (fun x => k))
  (at level 10, x name, m at level 100, k at level 200, only parsing).
Notation "'await' ' pat ':=' m 'in' k" :=
  (bind m (fun x => match x with pat => k end))
  (at level 10, pat pattern, m at level 100, k at level 200, only parsing).

(** [Array.prototype.sort(cmp)]: stable; [cmp a b <= 0] keeps [a]
    before [b]. *)
Fixpoint insertBy {A} (cmp : A -> A -> Z) (x : A) (l : list A) : list A :=
  match l with
  | [] => [x]
  | y :: t => if cmp x y <=? 0 then x :: y :: t else y :: insertBy cmp x t
  end.

Definition sortBy {A} (cmp : A -> A -> Z) (l : list A) : list A :=
  fold_right (insertBy cmp) [] l.

(** The operating system as the server reaches it. *)
Record Os : Type := mkOs {
  os_exec : string -> Outcome string;       (* stdout of a command *)
  os_readFile : string -> Outcome string;
  os_exists : string -> bool;               (* [fs.existsSync] *)
  os_localeCompare : string -> string -> Z
}.

(** ** [getWireGuardData] and the client list ([server/index.js]) *)

Module WireGuardData.

Import WireGuard.

Record WgConfig : Type := mkWgConfig {
  wg_enabled : bool;
  wg_interface : option string
}.

Record Client : Type := mkClient {
  cl_name : string;
  cl_publicKey : string;
  cl_online : bool;
  cl_endpoint : option string;
  cl_lastHandshake : option Z;
  cl_lastHandshakeAgo : string;
  cl_received : jsnum;
  cl_sent : jsnum
}.

(** [{ enabled: false }], [{ enabled: true, error }] and
    [{ enabled: true, interface, clients }] *)
Inductive WgData : Type :=
| WgDisabled
| WgError (error : string)
| WgStatus (iface : Interface) (clients : list Client).

(** [/^[a-zA-Z0-9_-]{1,15}$/] *)
Definition isIfaceChar (c : ascii) : bool :=
  isLower c || isUpper c || isDigit c || Ascii.eqb c "_" || Ascii.eqb c "-".

Definition VALID_IFACE_REGEX : regex :=
  seqs [RBol; RRep 1 (Some 15%nat) (RChar isIfaceChar); REol].

(** [/^(\S+)\s+([A-Za-z0-9+/=]{44})/] *)
Definition isBase64Char (c : ascii) : bool :=
  isUpper c || isLower c || isDigit c
  || Ascii.eqb c "+" || Ascii.eqb c "/" || Ascii.eqb c "=".

Definition PIVPN_LINE : regex :=
  seqs [RBol; RGroup 1 (plus nonSpace); plus space;
        RGroup 2 (RRep 44 (Some 44%nat) (RChar isBase64Char))].

(** [parsePivpnList(output)] *)
Definition pivpnLine (clients : gmap string string) (line : string)
  : gmap string string :=
  if includes line "Client" && includes line "Public key" then clients
  else if includes line ":::" then clients
  else if String.eqb (trim line) "" then clients
  else
    match exec PIVPN_LINE line with
    | Some m => <[str (group m 2) := str (group m 1)]> clients
    | None => clients
    end.

Definition parsePivpnList (output : string) : gmap string string :=
  fold_left pivpnLine (splitLines output) ∅.

(** [s.split(/\s+/)] on a trimmed line. *)
Fixpoint wordsChars (inSpace : bool) (cur : list ascii) (l : list ascii)
  : list (list ascii) :=
  match l with
  | [] => [rev cur]
  | c :: t =>
      if isSpace c then
        if inSpace then wordsChars true cur t
        else rev cur :: wordsChars true [] t
      else wordsChars false (c :: cur) t
  end.

Definition splitSpaces (s : string) : list string :=
  map str (wordsChars false [] (chars s)).

(** The fallback on [clients.txt]: one [pivpn -l] row per usable line. *)
Definition clientsTxtRow (pivpnOutput line : string) : string :=
  match splitSpaces (trim line) with
  | p0 :: p1 :: _ =>
      if (String.length p1 =? 44)%nat
      then pivpnOutput ++ p0 ++ "        " ++ p1 ++ "      date"
             ++ String LF EmptyString
      else pivpnOutput
  | _ => pivpnOutput
  end.

Definition ONLINE_THRESHOLD_SECONDS : Z := 180.

Definition toClient (clientNames : gmap string string) (peer : Peer)
  : Client :=
  let name := orElse (clientNames !! publicKey peer) "unknown" in
  let isOnline :=
    match lastHandshakeSeconds peer with
    | Some s => s <? ONLINE_THRESHOLD_SECONDS
    | None => false
    end in
  mkClient name (publicKey peer) isOnline
    (if truthy (endpoint peer) then endpoint peer else None)
    (lastHandshake peer) (formatTimeAgo (lastHandshakeSeconds peer))
    (received peer) (sent peer).

Definition compareClients (localeCompare : string -> string -> Z)
  (a b : Client) : Z :=
  if negb (Bool.eqb (cl_online a) (cl_online b))
  then (if cl_online a then -1 else 1)
  else localeCompare (cl_name a) (cl_name b).

Section Data.

Context {P : Type}.
Variable os : Os.
Variable nowMs : Z.

(** [execAsync(cmd, { timeout: 5000 })] *)
Definition execAsync (cmd : string) : Async P string :=
  settle (Exec cmd) (os_exec os cmd).

Definition readFile (path : string) : Async P string :=
  settle (ReadFile path) (os_readFile os path).

(** The interface name the operation works with. *)
Definition interfaceName (wgConfig : WgConfig) : string :=
  orElse (wg_interface wgConfig) "wg0".

(** [getWireGuardData(settings)]; [wireguard] is [settings?.wireguard]. *)
Definition getWireGuardData (wireguard : option WgConfig) : Async P WgData :=
  let wgConfig :=
    match wireguard with
    | Some c => c
    | None => mkWgConfig false (Some "wg0")
    end in
  if negb (wg_enabled wgConfig) then ret WgDisabled
  else
    let interfaceName := interfaceName wgConfig in
    if negb (test VALID_IFACE_REGEX interfaceName)
    then ret (WgError "Invalid WireGuard interface name")
    else
      tryCatch
        (await wgOutput :=
           tryCatch (execAsync ("wg show " ++ interfaceName))
             (fun _ => execAsync ("sudo wg show " ++ interfaceName)) in
         await pivpnOutput :=
           tryCatch (execAsync "pivpn -l")
             (fun _ =>
                tryCatch
                  (await clientsTxt :=
                     readFile "/etc/wireguard/configs/clients.txt" in
                   ret (fold_left clientsTxtRow (splitLines clientsTxt) ""))
                  (fun _ => ret "")) in
         let wgData := parseWgShow nowMs wgOutput interfaceName in
         let clientNames := parsePivpnList pivpnOutput in
         let clients := map (toClient clientNames) (peers wgData) in
         ret (WgStatus (interface wgData)
                (sortBy (compareClients (os_localeCompare os)) clients)))
        (fun message =>
           ret (WgError ("Failed to get WireGuard status: " ++ message))).

End Data.

End WireGuardData.

(** ** Service discovery ([server/stats.js]) *)

Module Discovery.

Definition KNOWN_UDP_SERVICES_list : list (Z * Known) := [
  (500, kni "IKEv2/IPSec" "shield" "interface" "ipsec0");
  (1194, kni "OpenVPN" "shield" "interface" "tun0");
  (1723, kn "PPTP" "shield" "tcp");
  (4500, kni "IPSec NAT-T" "shield" "interface" "ipsec0");
  (51820, kni "WireGuard" "shield" "interface" "wg0")
].

Definition KNOWN_UDP_SERVICES : gmap Z Known :=
  list_to_map KNOWN_UDP_SERVICES_list.

(** Names that every object literal inherits from [Object.prototype]:
    a lookup [table[name]] finds a member (a function, or the
    prototype itself), although the table does not list the name. *)
Definition OBJECT_PROTOTYPE_KEYS : list string :=
  ["constructor"; "__defineGetter__"; "__defineSetter__"; "hasOwnProperty";
   "__lookupGetter__"; "__lookupSetter__"; "isPrototypeOf";
   "propertyIsEnumerable"; "toString"; "valueOf"; "__proto__";
   "toLocaleString"].

(** The object [service] of the TCP loop: the properties it may have. *)
Record Entry : Type := mkEntry {
  en_name : option string;
  en_icon : option string;
  en_checkType : option string;
  en_path : option string
}.

(** [{ ...known, port }] for an entry of one of the tables. *)
Definition ofKnown (k : Known) : Entry :=
  mkEntry (Some (kn_name k)) (Some (kn_icon k)) (Some (kn_checkType k))
    (kn_path k).

(** [{ ...member, port }] for an inherited member: a function or the
    prototype has no enumerable property of its own to spread. *)
Definition inherited : Entry := mkEntry None None None None.

(** An element of [discovered]. *)
Record Discovered : Type := mkDiscovered {
  d_name : option string;         (* [undefined] for an inherited member *)
  d_port : Z;
  d_path : string;
  d_host : string;
  d_icon : string;
  d_checkType : string;
  d_enabled : bool;
  d_discovered : bool;
  d_process : option string;      (* set by the TCP scan *)
  d_protocol : option string      (* set by the UDP scan *)
}.

Definition DQUOTE : ascii := ascii_of_nat 34.

(** [/(?:0\.0\.0\.0|127\.0\.0\.1|\*|::):(\d+)/] *)
Definition TCP_ADDR : regex :=
  seqs [alts [lit "0.0.0.0"; lit "127.0.0.1"; lit "*"; lit "::"];
        lit ":"; RGroup 1 (plus digit)].

(** [/(?:0\.0\.0\.0|\*|::):(\d+)/] *)
Definition UDP_ADDR : regex :=
  seqs [alts [lit "0.0.0.0"; lit "*"; lit "::"];
        lit ":"; RGroup 1 (plus digit)].

(** [/users:\(\(Q([^Q]+)Q/], with Q standing for the double quote *)
Definition PROCESS : regex :=
  seqs [lit "users:(("; lit1 DQUOTE;
        RGroup 1 (plus (RChar (fun c => negb (Ascii.eqb c DQUOTE))));
        lit1 DQUOTE].

(** The port of the address of a line ([addrMatch] and [parseInt]). *)
Definition linePort (addr : regex) (line : string) : option Z :=
  match exec addr line with
  | Some m => Some (digitsVal (group m 1))
  | None => None
  end.

Definition lineProcess (line : string) : option string :=
  match exec PROCESS line with
  | Some m => Some (str (group m 1))
  | None => None
  end.

(** The choice of [service] for a TCP line.
    [processName && KNOWN_PROCESSES[processName]]: the lookup goes
    through the prototype chain. *)
Definition knownProcess (processName : option string) : option Entry :=
  match processName with
  | Some p =>
      if String.eqb p "" then None
      else
        match KNOWN_PROCESSES !! p with
        | Some k => Some (ofKnown k)
        | None =>
            if inList p OBJECT_PROTOTYPE_KEYS then Some inherited else None
        end
  | None => None
  end.

Definition identify (processName : option string) (port : Z) : option Entry :=
  match knownProcess processName with
  | Some e => Some e
  | None =>
      match KNOWN_SERVICES !! port with
      | Some k => Some (ofKnown k)
      | None =>
          if port <? 10000 then
            Some (mkEntry (Some (orElse processName ("Port " ++ showZ port)))
                    (Some "server") (Some "tcp") (Some "/"))
          else None
      end
  end.

Definition tcpEntry (service : Entry) (port : Z)
  (processName : option string) : Discovered :=
  mkDiscovered (en_name service) port (orElse (en_path service) "/")
    "localhost" (orElse (en_icon service) "server")
    (orElse (en_checkType service) "tcp") true true
    (if truthy processName then processName else None) None.

Definition Scan : Type := (list Discovered * gset Z)%type.

(** One turn of the loop over [tcpLines]. *)
Definition tcpLine (st : Scan) (line : string) : Scan :=
  let '(discovered, seen) := st in
  match linePort TCP_ADDR line with
  | None => st
  | Some port =>
      if (32767 <? port) || bool_decide (port ∈ seen) then st
      else
        let seen := {[port]} ∪ seen in
        let isLocalhost := includes line "127.0.0.1" in
        if isLocalhost then (discovered, seen)
        else
          let processName := lineProcess line in
          match identify processName port with
          | Some service =>
              ((discovered ++ [tcpEntry service port processName])%list, seen)
          | None => (discovered, seen)
          end
  end.

Definition udpEntry (service : Known) (port : Z) : Discovered :=
  mkDiscovered (Some (kn_name service)) port
    (orElse (kn_interface service) "")
    "localhost" (kn_icon service) (kn_checkType service) true true
    None (Some "udp").

(** One turn of the loop over [udpLines]. *)
Definition udpLine (st : Scan) (line : string) : Scan :=
  let '(discovered, seen) := st in
  match linePort UDP_ADDR line with
  | None => st
  | Some port =>
      if bool_decide (port ∈ seen) then st
      else
        match KNOWN_UDP_SERVICES !! port with
        | Some service =>
            ((discovered ++ [udpEntry service port])%list, {[port]} ∪ seen)
        | None => st
        end
  end.

Definition tcpLines (tcpOutput : string) : list string :=
  filter (fun l => includes l "LISTEN" = true) (splitLines tcpOutput).

Definition udpLines (udpOutput : string) : list string :=
  filter (fun l => (includes l "UNCONN" || includes l "udp") = true)
    (splitLines udpOutput).

Definition comparePorts (a b : Discovered) : Z := d_port a - d_port b.

(** The scan proper: the body of the [try] block after the two
    listings have been obtained. *)
Definition discover (tcpOutput udpOutput : string) : list Discovered :=
  let st := fold_left tcpLine (tcpLines tcpOutput) ([], ∅) in
  let st := fold_left udpLine (udpLines udpOutput) st in
  sortBy comparePorts (fst st).

Definition TCP_COMMAND : string :=
  "ss -tlnp 2>/dev/null || netstat -tlnp 2>/dev/null".
Definition UDP_COMMAND : string :=
  "ss -ulnp 2>/dev/null || netstat -ulnp 2>/dev/null".

(** [discoverServices()] *)
Definition discoverServices {P} (os : Os) : Async P (list Discovered) :=
  tryCatch
    (await tcpOutput := settle (Exec TCP_COMMAND) (os_exec os TCP_COMMAND) in
     await udpOutput :=
       tryCatch (settle (Exec UDP_COMMAND) (os_exec os UDP_COMMAND))
         (fun _ => ret "") in
     ret (discover tcpOutput udpOutput))
    (fun _ => ret []).

(** The ports of the services found so far. *)
Definition ports (st : Scan) : list Z := map d_port (fst st).

(** Shadowed: the port is in the seen-set and not among the services. *)
Definition shadowed (p : Z) (st : Scan) : Prop :=
  (p ∈ snd st) /\ ~ In p (ports st).

(** Untouched: neither seen nor among the services. *)
Definition untouched (p : Z) (st : Scan) : Prop :=
  (p ∉ snd st) /\ ~ In p (ports st).

End Discovery.

(** ** Container statistics and the system snapshot
    ([server/stats.js], [server/index.js]) *)

Module Aggregator.

Import WireGuardData.

(** An element of [si.dockerContainers()]. *)
Record Container : Type := mkContainer {
  c_id : string;
  c_name : string;
  c_image : string;
  c_state : string
}.

(** A value of [statsMap]. *)
Record ContainerStats : Type := mkContainerStats {
  cs_cpuPercent : Q;
  cs_memPercent : Q;
  cs_memUsage : Z;
  cs_memLimit : Z
}.

(** An element of [containers] in the statistics. *)
Record ContainerRecord : Type := mkContainerRecord {
  cr_id : string;
  cr_name : string;
  cr_image : string;
  cr_state : string;
  cr_cpuPercent : Q;
  cr_memPercent : Q;
  cr_memUsage : Z;
  cr_memLimit : Z
}.

(** The library [systeminformation], the Docker socket and the
    collectors that answer with a default when they fail.  [P] is the
    type of the objects they hand over, which the server passes on. *)
Record Host (P : Type) : Type := mkHost {
  si_osInfo : Outcome P;
  si_networkInterfaces : Outcome P;
  si_currentLoad : Outcome P;
  si_mem : Outcome P;
  si_cpuTemperature : Outcome P;
  si_time : Outcome P;
  si_networkStats : Outcome P;
  si_cpuCurrentSpeed : Outcome P;
  si_dockerContainers : Outcome (list Container);
  si_cpu : Outcome P;
  si_system : Outcome P;
  si_baseboard : Outcome P;
  emptyArray : P;                       (* [[]] *)
  noSpeed : P;                          (* [{ avg: 0, cores: [] }] *)
  dockerList : Outcome (list string);   (* ids of [/containers/json] *)
  dockerInspect : string -> Outcome (option Z);   (* [State.Pid] *)
  getHostOsInfo : option P;
  getHostDisks : P;
  getOverclockStatus : P;
  getThrottleStatus : P;
  getHostNetworkInfo : P;
  getTopProcesses : P;
  (** the callbacks delivered to the health check of a service *)
  callbacks : Service -> list Probe.Event
}.

Arguments si_osInfo {P}.
Arguments si_networkInterfaces {P}.
Arguments si_currentLoad {P}.
Arguments si_mem {P}.
Arguments si_cpuTemperature {P}.
Arguments si_time {P}.
Arguments si_networkStats {P}.
Arguments si_cpuCurrentSpeed {P}.
Arguments si_dockerContainers {P}.
Arguments si_cpu {P}.
Arguments si_system {P}.
Arguments si_baseboard {P}.
Arguments emptyArray {P}.
Arguments noSpeed {P}.
Arguments dockerList {P}.
Arguments dockerInspect {P}.
Arguments getHostOsInfo {P}.
Arguments getHostDisks {P}.
Arguments getOverclockStatus {P}.
Arguments getThrottleStatus {P}.
Arguments getHostNetworkInfo {P}.
Arguments getTopProcesses {P}.
Arguments callbacks {P}.

(** The result of [getSystemStats()], by the sources of each part. *)
Record Stats (P : Type) : Type := mkStats {
  st_cpu : P * P * P;               (* load, speed, overclock *)
  st_memory : P;
  st_temperature : P * P;           (* temperature, throttle *)
  st_load : P;
  st_os : option P * option P;      (* os info, host os info *)
  st_disks : option P;
  st_containers : list ContainerRecord;
  st_network : P;
  st_processes : P
}.

Arguments mkStats {P}.
Arguments st_containers {P}.

(** The result of [getSystemInfo()]. *)
Record Info (P : Type) : Type := mkInfo {
  in_cpu : P;
  in_system : P;
  in_memory : P;
  in_os : P * option P;
  in_baseboard : P
}.

Arguments mkInfo {P}.

(** The body of the answer of [/api/v1/system]. *)
Record Snapshot (P : Type) : Type := mkSnapshot {
  sn_timestamp : Z;
  sn_stats : Stats P;
  sn_info : Info P;
  sn_services : list Probe.HealthResult;
  sn_wireguard : option WgData
}.

Arguments mkSnapshot {P}.
Arguments sn_stats {P}.
Arguments sn_services {P}.
Arguments sn_wireguard {P}.

Inductive Response (P : Type) : Type :=
| Json200 (body : Snapshot P)
| Json500 (error : string).

Arguments Json200 {P} body.
Arguments Json500 {P} error.

Record Settings : Type := mkSettings {
  set_wireguard : option WgConfig;
  set_services : list Service
}.

(** [/MemTotal:\s+(\d+)/], [/VmRSS:\s+(\d+)/], [/usage_usec\s+(\d+)/] *)
Definition counter (label : string) : regex :=
  seqs [lit label; plus space; RGroup 1 (plus digit)].

Definition readCounter (label content : string) : option Z :=
  match exec (counter label) content with
  | Some m => Some (digitsVal (group m 1))
  | None => None
  end.

Definition STATIC_CACHE_TTL : Z := 60000.
Definition DISK_CACHE_TTL : Z := 30000.

Section Poll.

Context {P : Type}.
Variable os : Os.
Variable host : Host P.
Variable numCpus : Z.            (* [NUM_CPUS] *)
Variable nowMs : Z.              (* [Date.now()] during this poll *)

Definition readFileSync (path : string) : Async P string :=
  settle (ReadFile path) (os_readFile os path).

Definition lib {A} (name : string) (o : Outcome A) : Async P A :=
  settle (LibCall name) o.

(** [dockerApiGet(path)] *)
Definition dockerApiGet {A} (path : string) (o : Outcome A) : Async P A :=
  settle (DockerGet path) o.

(** [readCgroupCpuUsage(containerId)] *)
Definition readCgroupCpuUsage (containerId : string) : Async P (option Z) :=
  let cgroupBase :=
    if os_exists os "/host/sys/fs/cgroup" then "/host/sys/fs/cgroup"
    else "/sys/fs/cgroup" in
  let cgroupPath :=
    cgroupBase ++ "/system.slice/docker-" ++ containerId
      ++ ".scope/cpu.stat" in
  tryCatch
    (await content := readFileSync cgroupPath in
     ret (readCounter "usage_usec" content))
    (fun _ => ret None).

(** [calculateCpuPercent] on the cache of the store. *)
Definition cpuPercentOf (containerId : string) (usage : option Z)
  : Async P Q :=
  await s := getStore in
  let '(pct, cache) :=
    CpuCache.calculateCpuPercent numCpus nowMs containerId usage
      (cpuCache s) in
  await _ := putCpuCache cache in
  ret pct.

(** One turn of the loop of [getDockerContainerStats]. *)
Definition containerStats (memTotalKB : Z)
  (statsMap : gmap string ContainerStats) (fullId : string)
  : Async P (gmap string ContainerStats) :=
  let shortId := substring 0 12 fullId in
  tryCatch
    (await pid :=
       dockerApiGet ("/containers/" ++ fullId ++ "/json")
         (dockerInspect host fullId) in
     await memUsageKB :=
       match pid with
       | Some n =>
           if 0 <? n then
             let procStatusPath :=
               if os_exists os "/host/proc"
               then "/host/proc/" ++ showZ n ++ "/status"
               else "/proc/" ++ showZ n ++ "/status" in
             tryCatch
               (await status := readFileSync procStatusPath in
                ret (default 0 (readCounter "VmRSS:" status)))
               (fun _ => ret 0)
           else ret 0
       | None => ret 0
       end in
     await cpuUsageUsec := readCgroupCpuUsage fullId in
     await cpuPercent := cpuPercentOf fullId cpuUsageUsec in
     let memPercent :=
       (inject_Z memUsageKB / inject_Z memTotalKB * 100)%Q in
     ret (<[shortId :=
              mkContainerStats cpuPercent
                (inject_Z (jsRound (memPercent * 10)) / 10)%Q
                (memUsageKB * 1024) (memTotalKB * 1024)]> statsMap))
    (fun _ => ret statsMap).

Fixpoint forEach {A S} (f : S -> A -> Async P S) (l : list A) (s : S)
  : Async P S :=
  match l with
  | [] => ret s
  | x :: rest => await s' := f s x in forEach f rest s'
  end.

(** [getDockerContainerStats()] *)
Definition getDockerContainerStats : Async P (gmap string ContainerStats) :=
  tryCatch
    (await containers := dockerApiGet "/containers/json" (dockerList host) in
     match containers with
     | [] => ret ∅
     | _ =>
         let procPath :=
           if os_exists os "/host/proc/meminfo" then "/host/proc/meminfo"
           else "/proc/meminfo" in
         await memInfo := readFileSync procPath in
         let memTotalKB := default 1 (readCounter "MemTotal:" memInfo) in
         forEach (containerStats memTotalKB) containers ∅
     end)
    (fun _ => ret ∅).

Definition containerRecord (statsMap : gmap string ContainerStats)
  (container : Container) : ContainerRecord :=
  let shortId := substring 0 12 (c_id container) in
  match statsMap !! shortId with
  | Some stats =>
      mkContainerRecord (c_id container) (c_name container)
        (c_image container) (c_state container)
        (cs_cpuPercent stats) (cs_memPercent stats)
        (cs_memUsage stats) (cs_memLimit stats)
  | None =>
      mkContainerRecord (c_id container) (c_name container)
        (c_image container) (c_state container) 0%Q 0%Q 0 0
  end.

(** The block "Get Docker containers with stats" of [getSystemStats]. *)
Definition getContainers : Async P (list ContainerRecord) :=
  tryCatch
    (await dockerContainers :=
       lib "dockerContainers" (si_dockerContainers host) in
     match dockerContainers with
     | [] => ret []
     | _ =>
         await statsMap := getDockerContainerStats in
         ret (map (containerRecord statsMap) dockerContainers)
     end)
    (fun _ => ret []).

Definition isNone {A} (o : option A) : bool :=
  match o with None => true | Some _ => false end.

(** [getSystemStats()] *)
Definition getSystemStats : Async P (Stats P) :=
  await s0 := getStore in
  let sc := staticCache s0 in
  await sc :=
    (if isNone (sc_osInfo sc)
        || (STATIC_CACHE_TTL <? nowMs - sc_lastStaticRefresh sc)
     then
       await ' (osInfo, networkInterfaces) :=
         both (lib "osInfo" (si_osInfo host))
           (tryCatch (lib "networkInterfaces" (si_networkInterfaces host))
              (fun _ => ret (emptyArray host))) in
       ret (mkStaticCache (Some osInfo) (getHostOsInfo host)
              (Some networkInterfaces) (sc_lastDiskCheck sc) (sc_disks sc)
              nowMs)
     else ret sc) in
  await _ := putStaticCache sc in
  await sc :=
    (if DISK_CACHE_TTL <? nowMs - sc_lastDiskCheck sc
     then
       ret (mkStaticCache (sc_osInfo sc) (sc_hostOsInfo sc)
              (sc_networkInterfaces sc) nowMs (Some (getHostDisks host))
              (sc_lastStaticRefresh sc))
     else ret sc) in
  await _ := putStaticCache sc in
  await ' (cpu, (mem, (temp, (time, (networkStats, cpuSpeed))))) :=
    both (lib "currentLoad" (si_currentLoad host))
      (both (lib "mem" (si_mem host))
         (both (lib "cpuTemperature" (si_cpuTemperature host))
            (both (lib "time" (si_time host))
               (both
                  (tryCatch (lib "networkStats" (si_networkStats host))
                     (fun _ => ret (emptyArray host)))
                  (tryCatch (lib "cpuCurrentSpeed" (si_cpuCurrentSpeed host))
                     (fun _ => ret (noSpeed host))))))) in
  await containers := getContainers in
  let overclock := getOverclockStatus host in
  ret (mkStats (cpu, cpuSpeed, overclock) mem
         (temp, getThrottleStatus host) time
         (sc_osInfo sc, sc_hostOsInfo sc) (sc_disks sc) containers
         (getHostNetworkInfo host) (getTopProcesses host)).

(** [getSystemInfo()] *)
Definition getSystemInfo : Async P (Info P) :=
  await ' (cpu, (system, (mem, (osInfo, baseboard)))) :=
    both (lib "cpu" (si_cpu host))
      (both (lib "system" (si_system host))
         (both (lib "mem" (si_mem host))
            (both (lib "osInfo" (si_osInfo host))
               (lib "baseboard" (si_baseboard host))))) in
  ret (mkInfo cpu system mem (osInfo, getHostOsInfo host) baseboard).

(** [checkService(service)] as a promise: fulfilled with the result
    once a callback has resolved it, rejected when the executor was
    left by an exception. *)
Definition checkService (service : Service) : Async P Probe.HealthResult :=
  fun s =>
    let st := Probe.probe service nowMs (callbacks host service) in
    match Probe.p_resolved st with
    | Some r => (Ok r, s)
    | None =>
        match Probe.p_rejected st with
        | Some message => (Rejected message, s)
        | None => (Pending, s)
        end
    end.

(** [loadServices()] on the settings read by [loadSettings()]. *)
Definition loadServices (settings : Settings) : list Service :=
  filter (fun s => sv_enabled s = true) (set_services settings).

(** The handler of [GET /api/v1/system], after the API-key check. *)
Definition apiV1System (settings : Settings) : Async P (Response P) :=
  tryCatch
    (let servicesList := loadServices settings in
     await ' (stats, (info, (wireguard, services))) :=
       both getSystemStats
         (both getSystemInfo
            (both (getWireGuardData os nowMs (set_wireguard settings))
               (all (map checkService servicesList)))) in
     ret (Json200
            (mkSnapshot nowMs stats info services
               (match wireguard with
                | WgDisabled => None
                | _ => Some wireguard
                end))))
    (fun _ => ret (Json500 "Failed to fetch system data")).

(** The handler of [GET /api/stats]. *)
Definition apiStats : Async P (Stats P + string) :=
  tryCatch
    (await stats := getSystemStats in ret (inl stats))
    (fun _ => ret (inr "Failed to fetch system stats")).

End Poll.

Definition failed {A} (o : Outcome A) : bool :=
  match o with Failed _ => true | Done _ => false end.

(** One of the reads of host metrics fails. *)
Definition hostMetricsFail {P} (host : Host P) : bool :=
  failed (si_osInfo host) || failed (si_currentLoad host)
  || failed (si_mem host) || failed (si_cpuTemperature host)
  || failed (si_time host) || failed (si_cpu host)
  || failed (si_system host) || failed (si_baseboard host).

(** The status command fails, as plain user and through [sudo]. *)
Definition statusCommandFails (os : Os) (settings : Settings)
  (message : string) : Prop :=
  exists wgConfig first,
    set_wireguard settings = Some wgConfig
    /\ wg_enabled wgConfig = true
    /\ test VALID_IFACE_REGEX (interfaceName wgConfig) = true
    /\ os_exec os ("wg show " ++ interfaceName wgConfig) = Failed first
    /\ os_exec os ("sudo wg show " ++ interfaceName wgConfig)
       = Failed message.

(** The result of the probe of each service, in order. *)
Definition probeResults {P} (host : Host P) (nowMs : Z)
  (services : list Service) (results : list Probe.HealthResult) : Prop :=
  Forall2
    (fun service r =>
       Probe.p_resolved (Probe.probe service nowMs (callbacks host service))
       = Some r)
    services results.

End Aggregator.

(** ** Readings of the clock in the callbacks of a health check *)

Module ProbeClock.

Import Probe.

(** The reading of [Date.now()] with which a callback runs. *)
Definition evTime (ev : Event) : Z :=
  match ev with
  | EvTimer now | EvHttpResponse now _ | EvHttpError now
  | EvHttpTimeout now | EvConnect now | EvSocketError now
  | EvData now _ | EvDnsAnswer now _ | EvFsAccess now _
  | EvThrow now _ => now
  end.

(** The result is for this descriptor and its latency is not negative. *)
Definition echoes (service : Service) (r : HealthResult) : Prop :=
  hr_service r = service
  /\ forall latency, hr_latency r = Some latency -> 0 <= latency.

(** A settled promise has no timer left. *)
Definition timerReleased (st : PState) : Prop :=
  p_resolved st <> None -> p_timer st = false.

(** A settled promise has destroyed its socket. *)
Definition socketReleased (st : PState) : Prop :=
  p_resolved st <> None -> In ADestroy (p_actions st).

End ProbeClock.

(** ** Icons of services ([server/services-config.js]) *)

Module ServiceConfig.

(** [inferIcon(port, explicitIcon)] *)
Definition inferIcon (port : Z) (explicitIcon : option string) : string :=
  if truthy explicitIcon && negb (String.eqb (orElse explicitIcon "") "server")
  then orElse explicitIcon ""
  else match KNOWN_SERVICES !! port with
       | Some k => kn_icon k
       | None => "server"
       end.

End ServiceConfig.

(** ** Successive CPU measurements ([server/stats.js]) *)

Module CpuPolls.

Import CpuCache.

(** A call of [calculateCpuPercent]: the reading of the clock, the
    container and the usage read for it ([null] when it could not be
    read). *)
Definition Poll : Type := (Z * string * option Z)%type.

(** A series of calls of [calculateCpuPercent], oldest first: the cache
    they leave. *)
Definition pollAll (numCpus : Z) (polls : list Poll)
  (cpuCache : gmap string Sample) : gmap string Sample :=
  fold_left
    (fun cache poll =>
       let '(nowMs, containerId, usage) := poll in
       snd (calculateCpuPercent numCpus nowMs containerId usage cache))
    polls cpuCache.

(** The percentages that the calls of a series return, in order. *)
Fixpoint reports (numCpus : Z) (polls : list Poll)
  (cpuCache : gmap string Sample) : list Q :=
  match polls with
  | [] => []
  | (nowMs, containerId, usage) :: rest =>
      let '(pct, cpuCache) :=
        calculateCpuPercent numCpus nowMs containerId usage cpuCache in
      pct :: reports numCpus rest cpuCache
  end.

(** The sample that a call stores, if it stores one under [id]. *)
Definition stored (id : string) (poll : Poll) : option Sample :=
  let '(nowMs, containerId, usage) := poll in
  match usage with
  | Some u =>
      if String.eqb containerId id then Some (mkSample u (nowMs * 1000))
      else None
  | None => None
  end.

(** The sample most recently stored under [id] by a series of calls. *)
Definition lastStored (id : string) (polls : list Poll) : option Sample :=
  last (omap (stored id) polls).

(** A cache that holds at most the sample [cached], under [id]. *)
Definition only (id : string) (cached : option Sample) : gmap string Sample :=
  match cached with
  | Some s => {[ id := s ]}
  | None => ∅
  end.

(** The poll does not write under [id]. *)
Definition spares (id : string) (poll : Poll) : Prop :=
  snd (fst poll) <> id \/ snd poll = None.

(** The product [cpuPercent * 10] that [calculateCpuPercent] hands to
    [Math.round], for a usage of [deltaUsage] microseconds in
    [deltaTime] microseconds. *)
Definition tenths (numCpus deltaUsage deltaTime : Z) : Q :=
  double
    (double
       (double (double (inject_Z deltaUsage / inject_Z deltaTime) * 100)
        / inject_Z numCpus) * 10)%Q.

End CpuPolls.

(** ** What a regular expression matches

    The relation between the state before and the state after a match,
    against which the matcher is checked. *)

Module RegexSpec.

Inductive Matches : regex -> mstate -> mstate -> Prop :=
| MChar p c t pos caps :
    p c = true ->
    Matches (RChar p) (MState pos (c :: t) caps) (MState (S pos) t caps)
| MSeq r1 r2 s s1 s2 :
    Matches r1 s s1 -> Matches r2 s1 s2 -> Matches (RSeq r1 r2) s s2
| MAltL r1 r2 s s' : Matches r1 s s' -> Matches (RAlt r1 r2) s s'
| MAltR r1 r2 s s' : Matches r2 s s' -> Matches (RAlt r1 r2) s s'
| MRepStop hi r s : Matches (RRep 0 hi r) s s
| MRepMore lo hi r s s1 s2 :
    hiDone hi = false ->
    Matches r s s1 ->
    (m_pos s < m_pos s1)%nat ->
    Matches (RRep (Nat.pred lo) (hiPred hi) r) s1 s2 ->
    Matches (RRep lo hi r) s s2
| MGroup i r s s' :
    Matches r s s' ->
    Matches (RGroup i r) s
      (MState (m_pos s') (m_rest s')
         ((i, take (m_pos s' - m_pos s) (m_rest s)) :: m_caps s'))
| MEmpty s : Matches REmpty s s
| MBol s : m_pos s = 0%nat -> Matches RBol s s
| MEol s : m_rest s = [] -> Matches REol s s.

(** The text between two states of one match. *)
Definition consumed (s s' : mstate) (w : list ascii) : Prop :=
  m_rest s = (w ++ m_rest s')%list /\ m_pos s' = (m_pos s + length w)%nat.

End RegexSpec.

(** Expressions without a capture group. *)
Module RegexShape.

Fixpoint groupless (r : regex) : bool :=
  match r with
  | RGroup _ _ => false
  | RSeq r1 r2 | RAlt r1 r2 => groupless r1 && groupless r2
  | RRep _ _ r1 => groupless r1
  | RChar _ | REmpty | RBol | REol => true
  end.

End RegexShape.

(** ** The head of a status text

    The lines before the first [peer:] marker describe the interface. *)

Module WireGuardHead.

Import WireGuard.

(** The values of the [public key:] lines of the head, in order. *)
Definition headKeys (lines : list string) : list string :=
  omap (fun l =>
          if startsWith (trim l) "public key:"
          then Some (field (trim l) "public key:") else None)
    (untilMarker lines).

(** A handshake age and the timestamp derived from it agree. *)
Definition handshakeCoherent (nowMs : Z) (p : Peer) : Prop :=
  forall s, lastHandshakeSeconds p = Some s ->
    0 <= s /\ lastHandshake p = Some (nowMs / 1000 - s).

End WireGuardHead.

(** ** Entries of the client-name table *)

Module PivpnTable.

Import WireGuardData.

(** A WireGuard public key as [pivpn -l] prints it: 44 characters of
    the base64 alphabet. *)
Definition isKey (s : string) : Prop :=
  String.length s = 44%nat /\ forallb isBase64Char (chars s) = true.

(** A client name: not empty, without white space. *)
Definition isName (s : string) : Prop :=
  s <> "" /\ forallb (fun c => negb (isSpace c)) (chars s) = true.

End PivpnTable.

(** ** What [getWireGuardData] may ask of the operating system *)

Module WireGuardEffects.

Import WireGuardData.

(** A name that the pattern of interface names accepts. *)
Definition validName (n : string) : Prop :=
  (1 <= String.length n <= 15)%nat
  /\ forallb isIfaceChar (chars n) = true.

Inductive wgEffect : Effect -> Prop :=
| WgShowEffect n : validName n -> wgEffect (Exec ("wg show " ++ n))
| SudoWgShowEffect n : validName n -> wgEffect (Exec ("sudo wg show " ++ n))
| PivpnEffect : wgEffect (Exec "pivpn -l")
| ClientsTxtEffect : wgEffect (ReadFile "/etc/wireguard/configs/clients.txt").

End WireGuardEffects.

(** ** The order of the client list *)

Module ClientOrder.

Import WireGuardData.

(** The online clients come before the others. *)
Definition onlineFirst (clients : list Client) : Prop :=
  exists on off,
    clients = (on ++ off)%list
    /\ Forall (fun c => cl_online c = true) on
    /\ Forall (fun c => cl_online c = false) off.

(** A client shown online carries a handshake from the last
    [ONLINE_THRESHOLD_SECONDS] seconds. *)
Definition recentWhenOnline (nowMs : Z) (c : Client) : Prop :=
  cl_online c = true ->
  exists age,
    0 <= age < ONLINE_THRESHOLD_SECONDS
    /\ cl_lastHandshake c = Some (nowMs / 1000 - age)
    /\ cl_lastHandshakeAgo c = WireGuard.formatTimeAgo (Some age).

(** The status text that the operating system gave for the interface
    [name]: what [wg show] printed, or what [sudo wg show] printed when
    the first command failed. *)
Definition statusAnswer (os : Os) (name wgOutput : string) : Prop :=
  os_exec os ("wg show " ++ name) = Done wgOutput
  \/ (exists message, os_exec os ("wg show " ++ name) = Failed message)
     /\ os_exec os ("sudo wg show " ++ name) = Done wgOutput.

(** The client table that the operating system gave: what [pivpn -l]
    printed; when that command failed, one row per line of
    [clients.txt] that holds a name and a 44-character key; when the
    file cannot be read either, nothing. *)
Definition namesAnswer (os : Os) (pivpnOutput : string) : Prop :=
  os_exec os "pivpn -l" = Done pivpnOutput
  \/ (exists message, os_exec os "pivpn -l" = Failed message)
     /\ ((exists clientsTxt,
            os_readFile os "/etc/wireguard/configs/clients.txt"
            = Done clientsTxt
            /\ pivpnOutput
               = fold_left clientsTxtRow (splitLines clientsTxt) "")
         \/ (exists message,
               os_readFile os "/etc/wireguard/configs/clients.txt"
               = Failed message)
            /\ pivpnOutput = "").

End ClientOrder.

(** ** Where a discovered service comes from *)

Module DiscoveryOrigin.

Import Discovery.

(** An entry made by the TCP scan from a line of the listing. *)
Definition fromTcp (tcpOutput : string) (d : Discovered) : Prop :=
  exists line k,
    In line (tcpLines tcpOutput)
    /\ linePort TCP_ADDR line = Some (d_port d)
    /\ d_port d <= 32767
    /\ includes line "127.0.0.1" = false
    /\ identify (lineProcess line) (d_port d) = Some k
    /\ d = tcpEntry k (d_port d) (lineProcess line).

(** An entry made by the UDP scan from a line of the listing. *)
Definition fromUdp (udpOutput : string) (d : Discovered) : Prop :=
  exists line k,
    In line (udpLines udpOutput)
    /\ linePort UDP_ADDR line = Some (d_port d)
    /\ KNOWN_UDP_SERVICES !! d_port d = Some k
    /\ In (d_port d) [500; 1194; 1723; 4500; 51820]
    /\ d = udpEntry k (d_port d).

(** The fields every entry has. *)
Definition wellFormed (d : Discovered) : Prop :=
  0 <= d_port d /\ d_host d = "localhost"
  /\ d_enabled d = true /\ d_discovered d = true.

(** The invariant of the two loops: no port is listed twice, and every
    listed port is in the seen-set. *)
Definition scanInvariant (st : Scan) : Prop :=
  NoDup (ports st) /\ forall p, In p (ports st) -> p ∈ snd st.

End DiscoveryOrigin.

(** ** The static cache during a poll *)

Module CacheUse.

(** The two library calls whose answers the static cache holds. *)
Definition staticCall (e : Effect) : Prop :=
  e = LibCall "osInfo" \/ e = LibCall "networkInterfaces".

(** From a store whose static cache is [sc], the computation leaves the
    static cache as it is, performs no static call, and a value it is
    fulfilled with satisfies [Post]. *)
Definition keeps {P A} (sc : StaticCache P) (Post : A -> Prop)
  (m : Async P A) : Prop :=
  forall s,
    staticCache s = sc ->
    staticCache (snd (m s)) = sc
    /\ (exists trace,
          effects (snd (m s)) = (effects s ++ trace)%list
          /\ Forall (fun e => ~ staticCall e) trace)
    /\ forall a, fst (m s) = Ok a -> Post a.

(** The cache needs no refresh at [nowMs]. *)
Definition fresh {P} (nowMs : Z) (sc : StaticCache P) : Prop :=
  sc_osInfo sc <> None
  /\ nowMs - sc_lastStaticRefresh sc <= Aggregator.STATIC_CACHE_TTL
  /\ nowMs - sc_lastDiskCheck sc <= Aggregator.DISK_CACHE_TTL.

End CacheUse.

(** ** The record of a peer block, field by field

    What the status text says of one peer: each field of the record is
    read off the last line of the block that gives it. *)

Module WireGuardBlocks.

Import WireGuard.

(** The values given by the lines of a block that start with [key]. *)
Definition valuesOf (key : string) (lines : list string) : list string :=
  omap (fun l =>
          if startsWith (trim l) key then Some (field (trim l) key) else None)
    lines.

(** The ages read off the [latest handshake:] lines; [None] stands for
    a line whose age cannot be read. *)
Definition ages (lines : list string) : list (option Z) :=
  map parseHandshakeTime (valuesOf "latest handshake:" lines).

(** The clauses found on the [transfer:] lines by the pattern [re]. *)
Definition clauses (re : regex) (lines : list string) : list rmatched :=
  omap (exec re) (valuesOf "transfer:" lines).

Definition bytesOf (clause : option rmatched) (otherwise : jsnum) : jsnum :=
  match clause with
  | Some m => parseBytes (group m 1) (group m 2)
  | None => otherwise
  end.

(** The record [p] after the lines [lines] of its block: a field that
    no line gives keeps its value. *)
Definition overlay (nowMs : Z) (p : Peer) (lines : list string) : Peer :=
  mkPeer (publicKey p)
    (match last (valuesOf "endpoint:" lines) with
     | Some e => Some e
     | None => endpoint p
     end)
    (match last (omap id (ages lines)) with
     | Some s => Some (nowMs / 1000 - s)
     | None => lastHandshake p
     end)
    (match last (ages lines) with
     | Some secs => secs
     | None => lastHandshakeSeconds p
     end)
    (bytesOf (last (clauses RX_REGEX lines)) (received p))
    (bytesOf (last (clauses TX_REGEX lines)) (sent p)).

(** The record of the block [b]: the key of its marker line; the
    endpoint of its last [endpoint:] line; the age of its last
    [latest handshake:] line, and the timestamp of the last one whose
    age can be read; the byte counts of the last [transfer:] line with
    a [received] clause and of the last one with a [sent] clause, 0
    without one. *)
Definition blockRecord (nowMs : Z) (b : string * list string) : Peer :=
  mkPeer (field (trim (fst b)) "peer:")
    (last (valuesOf "endpoint:" (snd b)))
    (match last (omap id (ages (snd b))) with
     | Some s => Some (nowMs / 1000 - s)
     | None => None
     end)
    (match last (ages (snd b)) with
     | Some secs => secs
     | None => None
     end)
    (bytesOf (last (clauses RX_REGEX (snd b))) (Num 0))
    (bytesOf (last (clauses TX_REGEX (snd b))) (Num 0)).

End WireGuardBlocks.

(** ** Sample inputs *)

Module Examples.

Import Discovery.

Definition nl : string := String LF EmptyString.
Definition quote : string := String DQUOTE EmptyString.

(** The socket line of the specification, with its ellipses. *)
Definition jellyfinLine : string :=
  "LISTEN 0 128 0.0.0.0:8096 ... users:((" ++ quote ++ "jellyfin" ++ quote
    ++ ",pid=123,...))".

(** A process named like a member of [Object.prototype], on a port
    that no table lists. *)
Definition toStringLine : string :=
  "LISTEN 0 128 0.0.0.0:20000 0.0.0.0:* users:((" ++ quote ++ "toString"
    ++ quote ++ ",pid=77,fd=3))".

(** Port 51820 on loopback, then on the wildcard address. *)
Definition loopbackFirstTcp : string :=
  "LISTEN 0 128 127.0.0.1:51820 0.0.0.0:*" ++ nl
    ++ "LISTEN 0 128 0.0.0.0:51820 0.0.0.0:*".

Definition wireguardUdp : string := "UNCONN 0 0 0.0.0.0:51820 0.0.0.0:*".

(** Port 8080 on loopback, then on the wildcard address. *)
Definition loopbackFirst8080 : string :=
  "LISTEN 0 128 127.0.0.1:8080 0.0.0.0:*" ++ nl
    ++ "LISTEN 0 128 0.0.0.0:8080 0.0.0.0:*".

(** A status text with two peers. *)
Definition twoPeers : string :=
  "interface: wg0" ++ nl ++ "  public key: SERVERKEY" ++ nl
    ++ "  listening port: 51820" ++ nl ++ nl
    ++ "peer: AAAA" ++ nl ++ "  endpoint: 192.0.2.1:4242" ++ nl
    ++ "  latest handshake: 1 minute, 2 seconds ago" ++ nl
    ++ "  transfer: 3.65 MiB received, 17.21 MiB sent" ++ nl ++ nl
    ++ "peer: BBBB" ++ nl ++ "  allowed ips: 10.6.0.3/32".

(** An operating system on which every command and every read fails. *)
Definition deadOs : Os :=
  mkOs (fun _ => Failed "ENOENT") (fun _ => Failed "ENOENT")
    (fun _ => false) (fun _ _ => 0).

Definition emptyStore : Store unit :=
  mkStore ∅ (mkStaticCache None None None 0 None 0) [].

(** An operating system on which [wg show wg0] prints [twoPeers] and
    nothing else is available. *)
Definition wgOs : Os :=
  mkOs (fun cmd =>
          if String.eqb cmd "wg show wg0" then Done twoPeers
          else Failed "ENOENT")
    (fun _ => Failed "ENOENT") (fun _ => false) (fun _ _ => 0).

(** A store whose static cache was filled at time 0. *)
Definition warmCache : StaticCache unit :=
  mkStaticCache (Some tt) None (Some tt) 0 (Some tt) 0.

Definition warmStore : Store unit := mkStore ∅ warmCache [].

(** An operating system on which every command prints nothing. *)
Definition quietOs : Os :=
  mkOs (fun _ => Done "") (fun _ => Done "")
    (fun _ => false) (fun _ _ => 0).

(** A host whose library calls all succeed, without Docker; every
    health check sees its timer fire. *)
Definition plainHost : Aggregator.Host unit :=
  Aggregator.mkHost unit (Done tt) (Done tt) (Done tt) (Done tt) (Done tt) (Done tt)
    (Done tt) (Done tt) (Failed "docker is not running")
    (Done tt) (Done tt) (Done tt) tt tt
    (Failed "ENOENT") (fun _ => Failed "ENOENT")
    None tt tt tt tt tt
    (fun _ => [Probe.EvTimer 3000]).

(** The same host, on which [si.mem()] fails and nothing else does. *)
Definition memlessHost : Aggregator.Host unit :=
  Aggregator.mkHost unit (Done tt) (Done tt) (Done tt) (Failed "cannot read meminfo")
    (Done tt) (Done tt)
    (Done tt) (Done tt) (Done [])
    (Done tt) (Done tt) (Done tt) tt tt
    (Done []) (fun _ => Done None)
    None tt tt tt tt tt
    (fun _ => [Probe.EvConnect 5]).

Definition noSettings : Aggregator.Settings := Aggregator.mkSettings None [].

(** A host whose library calls all succeed, with Docker running no
    container; every timer that a health check sets fires. *)
Definition healthyHost : Aggregator.Host unit :=
  Aggregator.mkHost unit (Done tt) (Done tt) (Done tt) (Done tt) (Done tt)
    (Done tt) (Done tt) (Done tt) (Done [])
    (Done tt) (Done tt) (Done tt) tt tt
    (Done []) (fun _ => Done None)
    None tt tt tt tt tt
    (fun _ => [Probe.EvTimer 3000]).

(** One TCP service and the resolver [example.com] to watch. *)
Definition resolverSettings : Aggregator.Settings :=
  Aggregator.mkSettings None
    [Probe.exampleService "tcp"; Probe.exampleResolver].

(** WireGuard monitoring enabled and one TCP service to watch. *)
Definition someSettings : Aggregator.Settings :=
  Aggregator.mkSettings
    (Some (WireGuardData.mkWgConfig true (Some "wg0")))
    [Probe.exampleService "tcp"].

End Examples.

(** * Properties *)

(** ** Health checks *)

Section ProbeFacts.

Import Probe.

Lemma settledBy_resolve Q r st :
  Q r -> settledBy Q st -> settledBy Q (resolve r st).
Proof.
  unfold settledBy, resolve. intros Hr Hst r'.
  destruct (p_resolved st) eqn:E; simpl.
  - rewrite E. apply Hst.
  - destruct (p_rejected st); simpl.
    + rewrite E. discriminate.
    + intros [= <-]. exact Hr.
Qed.

Lemma settledBy_same Q st st' :
  p_resolved st' = p_resolved st -> settledBy Q st -> settledBy Q st'.
Proof. unfold settledBy. intros -> H. exact H. Qed.

Lemma reject_resolved message st :
  p_resolved (reject message st) = p_resolved st.
Proof.
  unfold reject. destruct (p_resolved st) eqn:E; [exact E|].
  destruct (p_rejected st); [exact E | reflexivity].
Qed.

Lemma checkService_cases service :
  checkService service = checkTcpService
  \/ checkService service = checkRedisService
  \/ checkService service = checkDnsService
  \/ checkService service = checkInterfaceService
  \/ checkService service = checkHttpService.
Proof.
  unfold checkService. destruct (sv_checkType service) as [t|]; [|tauto].
  repeat (match goal with |- context [if ?b then _ else _] => destruct b end);
    tauto.
Qed.

Lemma on_produces h service start st ev :
  h = checkTcpService \/ h = checkRedisService \/ h = checkDnsService
  \/ h = checkInterfaceService \/ h = checkHttpService ->
  settledBy (produces service start) st ->
  settledBy (produces service start) (h_on h service start st ev).
Proof.
  intros Hh Hst.
  assert (Hoff := produces_offline service start).
  destruct Hh as [-> | [-> | [-> | [-> | ->]]]]; destruct ev; simpl;
    try exact Hst;
    repeat match goal with
           | |- context [if ?b then _ else _] => destruct b
           end;
    try exact Hst;
    try (apply settledBy_resolve;
         [ first [ exact Hoff | apply produces_online | apply produces_error ]
         | eapply settledBy_same; [| exact Hst]; reflexivity ]);
    try (eapply settledBy_same; [| exact Hst]; reflexivity).
Qed.

Lemma start_pending h service start :
  h = checkTcpService \/ h = checkRedisService \/ h = checkDnsService
  \/ h = checkInterfaceService \/ h = checkHttpService ->
  p_resolved (h_start h service start) = None.
Proof.
  intros [-> | [-> | [-> | [-> | ->]]]]; try reflexivity.
  simpl. unfold dnsStart. destruct (namedServer service); reflexivity.
Qed.

Lemma failed_unresolved h service start message :
  h = checkTcpService \/ h = checkRedisService \/ h = checkDnsService
  \/ h = checkInterfaceService \/ h = checkHttpService ->
  p_resolved (h_failed h service start message) = None.
Proof.
  intros [-> | [-> | [-> | [-> | ->]]]]; reflexivity.
Qed.

(** What holds after both ways out of the executor and is kept by each
    callback holds after every course of events. *)
Lemma run_invariant (I : PState -> Prop) h service start :
  I (h_start h service start) ->
  (forall message, I (h_failed h service start message)) ->
  (forall st ev, I st -> I (h_on h service start st ev)) ->
  forall tr, I (run h service start tr).
Proof.
  intros H0 Hf Hstep tr. unfold run.
  assert (Hb : I (fst (boot h service start tr))).
  { destruct tr as [|[] tr]; simpl; auto. }
  revert Hb. generalize (fst (boot h service start tr)).
  generalize (snd (boot h service start tr)).
  induction l as [|ev l IH]; simpl; intros st Hst; [exact Hst|].
  apply IH, Hstep, Hst.
Qed.

(** An invariant of the promise that holds while it is not fulfilled
    holds whenever it is fulfilled. *)
Lemma run_settledBy (Q : HealthResult -> Prop) h service start :
  h = checkTcpService \/ h = checkRedisService \/ h = checkDnsService
  \/ h = checkInterfaceService \/ h = checkHttpService ->
  (forall st ev, settledBy Q st -> settledBy Q (h_on h service start st ev)) ->
  forall tr, settledBy Q (run h service start tr).
Proof.
  intros Hh Hstep. apply run_invariant.
  - intros r Hr. rewrite (start_pending _ _ _ Hh) in Hr. discriminate.
  - intros message r Hr. rewrite (failed_unresolved _ _ _ _ Hh) in Hr.
    discriminate.
  - exact Hstep.
Qed.

Lemma probe_produces service start tr :
  settledBy (produces service start) (probe service start tr).
Proof.
  unfold probe. apply run_settledBy; [apply checkService_cases|].
  intros st ev. apply on_produces, checkService_cases.
Qed.

Lemma run_app h service start tr1 tr2 :
  tr1 <> [] ->
  run h service start (tr1 ++ tr2)
  = fold_left (h_on h service start) tr2 (run h service start tr1).
Proof.
  intros Hne. destruct tr1 as [|ev tr1]; [contradiction|].
  unfold run. destruct ev; simpl; apply fold_left_app.
Qed.

Lemma run_returns h service start tr :
  executorReturns tr ->
  run h service start tr
  = fold_left (h_on h service start) tr (h_start h service start).
Proof.
  intros Hr. unfold run. destruct tr as [|[] tr]; simpl in *;
    first [reflexivity | contradiction].
Qed.

Lemma executorReturns_app tr1 tr2 :
  executorReturns tr1 -> tr1 <> [] -> executorReturns (tr1 ++ tr2).
Proof.
  destruct tr1 as [|[] tr1]; simpl; intros H Hne;
    first [exact I | contradiction].
Qed.

End ProbeFacts.

Section ProbeClaims.

Import Probe.

(** C1 (as amended). For every service descriptor, whatever its
    checkType, and every course of callbacks, the result with which a
    probe is settled has a null latency if and only if its status is
    [offline]: results [online] and [error] both carry the measured
    latency. *)
Theorem C1_latency_null_iff_offline service start tr r :
  p_resolved (probe service start tr) = Some r ->
  hr_latency r = None <-> hr_status r = Offline.
Proof.
  intros Hr. destruct (probe_produces service start tr r Hr); simpl;
    split; intros H; first [reflexivity | discriminate].
Qed.

Lemma C1_latency_null_iff_offline_witness :
  let r := mkResult (exampleService "redis") Online (Some 12) None in
  hr_latency r = None <-> hr_status r = Offline.
Proof.
  apply (C1_latency_null_iff_offline (exampleService "redis") 100
           [EvConnect 105; EvData 112 "+PONG"]).
  reflexivity.
Defined.

(** C1 as the specification words it fails: an HTTP answer with status
    503 settles the probe with status [error] and a latency. *)
Lemma C1_error_result_has_latency :
  ~ (forall service start tr r,
       p_resolved (probe service start tr) = Some r ->
       hr_latency r = None <-> hr_status r <> Online).
Proof.
  intros H.
  destruct (H (exampleService "http") 100 [EvHttpResponse 112 503] _ eq_refl)
    as [_ H'].
  simpl in H'. assert (E : Some (112 - 100) = (None : option Z))
    by (apply H'; discriminate).
  discriminate E.
Qed.

(** C2 (as amended). A descriptor whose checkType is none of [http],
    [tcp], [redis], [dns], [interface] is dispatched to the HTTP
    handler: it is probed exactly as checkType [http] would be. *)
Theorem C2_unknown_tag_probed_as_http service :
  knownTag service = false ->
  checkService service = checkHttpService
  /\ forall start tr,
       probe service start tr = run checkHttpService service start tr.
Proof.
  intros H.
  assert (E : checkService service = checkHttpService).
  { unfold knownTag in H. unfold checkService.
    destruct (sv_checkType service) as [t|]; [|reflexivity].
    unfold inList, VALID_CHECK_TYPES in H. simpl in H.
    repeat (apply orb_false_elim in H; destruct H as [? H]).
    repeat match goal with
           | E : String.eqb _ _ = false |- _ => rewrite E; clear E
           end.
    reflexivity. }
  split; [exact E|]. intros start tr. unfold probe. rewrite E. reflexivity.
Qed.

Lemma C2_unknown_tag_probed_as_http_witness :
  checkService (exampleService "grpc") = checkHttpService
  /\ forall start tr,
       probe (exampleService "grpc") start tr
       = run checkHttpService (exampleService "grpc") start tr.
Proof.
  apply (C2_unknown_tag_probed_as_http (exampleService "grpc")).
  reflexivity.
Defined.

(** C2 as the specification words it fails: for the tag [grpc] an HTTP
    answer 503 settles the probe with [error], which the TCP handler
    does not do. *)
Lemma C2_unknown_tag_not_probed_as_tcp :
  ~ (forall service,
       knownTag service = false ->
       forall start tr,
         probe service start tr = run checkTcpService service start tr).
Proof.
  intros H.
  specialize (H (exampleService "grpc") eq_refl 100 [EvHttpResponse 112 503]).
  discriminate H.
Qed.

(** Where [tcp] is the default: a descriptor saved through the
    configuration routes has its tag normalised by [inferCheckType],
    which turns an unknown tag on an unknown port into [tcp]. *)
Lemma inferCheckType_unknown port t :
  inList t VALID_CHECK_TYPES = false ->
  KNOWN_SERVICES !! port = None ->
  inferCheckType port (Some t) = "tcp"
  /\ checkService
       (mkService "svc" None port None
          (Some (inferCheckType port (Some t))) None true)
     = checkTcpService.
Proof.
  intros Ht Hp. unfold inferCheckType. rewrite Ht, Hp, andb_false_r.
  split; reflexivity.
Qed.

End ProbeClaims.

Section ProbeCompletion.

Import Probe.

Lemma checkService_timed service :
  sv_checkType service <> Some "interface" ->
  checkService service = checkTcpService
  \/ checkService service = checkRedisService
  \/ checkService service = checkDnsService
  \/ checkService service = checkHttpService.
Proof.
  intros Hne. unfold checkService.
  destruct (sv_checkType service) as [t|]; [|tauto].
  destruct (String.eqb_spec t "tcp"); [tauto|].
  destruct (String.eqb_spec t "redis"); [tauto|].
  destruct (String.eqb_spec t "dns"); [tauto|].
  destruct (String.eqb_spec t "interface"); [congruence | tauto].
Qed.

Lemma checkService_interface service :
  sv_checkType service = Some "interface" ->
  checkService service = checkInterfaceService.
Proof. unfold checkService. intros ->. reflexivity. Qed.

Lemma checkService_dns service :
  sv_checkType service = Some "dns" ->
  checkService service = checkDnsService.
Proof. unfold checkService. intros ->. reflexivity. Qed.

(** The handler of a check with a timer whose executor does not throw
    of itself. *)
Lemma checkService_addressed service :
  sv_checkType service <> Some "interface" ->
  addressed service ->
  checkService service = checkTcpService
  \/ checkService service = checkRedisService
  \/ checkService service = checkHttpService
  \/ (checkService service = checkDnsService
      /\ namedServer service = false).
Proof.
  intros Hne Ha. unfold addressed in Ha. unfold checkService.
  destruct (sv_checkType service) as [t|]; [|tauto].
  destruct (String.eqb_spec t "tcp"); [tauto|].
  destruct (String.eqb_spec t "redis"); [tauto|].
  destruct (String.eqb_spec t "dns") as [-> | ?];
    [right; right; right; split; [reflexivity | apply Ha; reflexivity]|].
  destruct (String.eqb_spec t "interface"); [congruence | tauto].
Qed.

Ltac split_ifs :=
  repeat match goal with
         | |- context [if ?b then _ else _] => destruct b eqn:?
         end.

Lemma on_guarded h service start st ev :
  h = checkTcpService \/ h = checkRedisService \/ h = checkDnsService
  \/ h = checkHttpService ->
  unrejected st -> guarded st ->
  unrejected (h_on h service start st ev)
  /\ guarded (h_on h service start st ev).
Proof.
  unfold unrejected, guarded.
  intros [-> | [-> | [-> | ->]]] Hrej Hst; destruct ev; simpl;
    try (split; assumption);
    split_ifs; try (split; assumption);
    unfold resolve; simpl; rewrite Hrej;
    destruct (p_resolved st) eqn:E; simpl;
    rewrite ?E, ?Hrej; split; try reflexivity; try discriminate; auto;
    try (intros _; specialize (Hst eq_refl); congruence).
Qed.

Lemma start_guarded h service start :
  h = checkTcpService \/ h = checkRedisService \/ h = checkHttpService
  \/ (h = checkDnsService /\ namedServer service = false) ->
  unrejected (h_start h service start) /\ guarded (h_start h service start).
Proof.
  intros [-> | [-> | [-> | [-> Hn]]]]; simpl; unfold dnsStart;
    rewrite ?Hn; split; try reflexivity; intros _; reflexivity.
Qed.

Lemma fold_guarded h service start tr : forall st,
  h = checkTcpService \/ h = checkRedisService \/ h = checkDnsService
  \/ h = checkHttpService ->
  unrejected st -> guarded st ->
  unrejected (fold_left (h_on h service start) tr st)
  /\ guarded (fold_left (h_on h service start) tr st).
Proof.
  induction tr as [|ev tr IH]; simpl; intros st Hh Hrej Hst; [auto|].
  destruct (on_guarded h service start st ev Hh Hrej Hst) as [H1 H2].
  apply IH; assumption.
Qed.

Lemma probe_guarded service start tr :
  sv_checkType service <> Some "interface" ->
  addressed service ->
  executorReturns tr ->
  unrejected (probe service start tr) /\ guarded (probe service start tr).
Proof.
  intros Hne Ha Hret. pose proof (checkService_timed service Hne) as Hh.
  pose proof (checkService_addressed service Hne Ha) as Hs.
  unfold probe. rewrite (run_returns _ _ _ _ Hret).
  destruct (start_guarded _ service start Hs) as [H1 H2].
  apply fold_guarded; assumption.
Qed.

Lemma on_timer_settles h service start st now :
  h = checkTcpService \/ h = checkRedisService \/ h = checkDnsService
  \/ h = checkHttpService ->
  unrejected st -> guarded st ->
  settled (h_on h service start st (EvTimer now))
  /\ (p_resolved st = None ->
      p_resolved (h_on h service start st (EvTimer now))
      = Some (offlineResult service)).
Proof.
  unfold unrejected, guarded, settled.
  intros [-> | [-> | [-> | ->]]] Hrej Hst; simpl;
    destruct (p_resolved st) as [r|] eqn:E;
    destruct (p_timer st) eqn:T; unfold resolve, fire, act; simpl;
    rewrite ?E, ?Hrej; simpl;
    try (specialize (Hst eq_refl); discriminate);
    (split; [eauto | intros; first [reflexivity | discriminate]]).
Qed.

Lemma on_settled h service start st ev :
  h = checkTcpService \/ h = checkRedisService \/ h = checkDnsService
  \/ h = checkInterfaceService \/ h = checkHttpService ->
  settled st -> settled (h_on h service start st ev).
Proof.
  unfold settled.
  intros [-> | [-> | [-> | [-> | ->]]]] [r Hr]; destruct ev; simpl;
    split_ifs; unfold resolve; simpl; rewrite ?Hr; simpl; rewrite ?Hr; eauto.
Qed.

Lemma settled_stays h service start tr st :
  h = checkTcpService \/ h = checkRedisService \/ h = checkDnsService
  \/ h = checkInterfaceService \/ h = checkHttpService ->
  settled st -> settled (fold_left (h_on h service start) tr st).
Proof.
  intros Hh. revert st. induction tr as [|ev tr IH]; simpl; intros st Hst.
  - exact Hst.
  - apply IH, on_settled; assumption.
Qed.

Lemma executorReturns_snoc tr ev tr' :
  executorReturns tr -> isThrow ev = false ->
  executorReturns (tr ++ ev :: tr').
Proof.
  destruct tr as [|[] tr]; simpl; intros H Hev;
    first [contradiction | exact I | destruct ev; first [exact I | discriminate]].
Qed.

Lemma run_returns_snoc h service start tr ev tr' :
  executorReturns tr -> isThrow ev = false ->
  run h service start (tr ++ ev :: tr')
  = fold_left (h_on h service start) tr'
      (h_on h service start (run h service start tr) ev).
Proof.
  intros Hret Hev.
  rewrite (run_returns _ _ _ _ (executorReturns_snoc _ _ tr' Hret Hev)).
  rewrite (run_returns _ _ _ _ Hret), fold_left_app. reflexivity.
Qed.

(** Once the timer callback has run, the promise is settled. *)
Lemma probe_settled_after_timer service start tr1 now tr2 :
  sv_checkType service <> Some "interface" ->
  addressed service ->
  executorReturns tr1 ->
  settled (probe service start (tr1 ++ EvTimer now :: tr2)).
Proof.
  intros Hne Ha Hret.
  destruct (probe_guarded service start tr1 Hne Ha Hret) as [Hrej Hg].
  pose proof (checkService_timed service Hne) as Hh.
  unfold probe in *. rewrite run_returns_snoc by (auto; reflexivity).
  apply settled_stays; [tauto|].
  apply on_timer_settles; assumption.
Qed.

Lemma interface_unrejected service start tr :
  executorReturns tr ->
  unrejected (run checkInterfaceService service start tr).
Proof.
  intros Hret. rewrite (run_returns _ _ _ _ Hret). clear Hret.
  assert (H0 : unrejected (h_start checkInterfaceService service start))
    by reflexivity.
  revert H0. generalize (h_start checkInterfaceService service start).
  induction tr as [|ev tr IH]; simpl; intros st Hst; [exact Hst|].
  apply IH. unfold unrejected in *. destruct ev; simpl; try exact Hst.
  unfold resolve. rewrite Hst. destruct (p_resolved st); simpl; auto.
Qed.

(** The existence check of an interface settles its probe. *)
Lemma probe_settled_after_access service start tr1 now err tr2 :
  sv_checkType service = Some "interface" ->
  executorReturns tr1 ->
  settled (probe service start (tr1 ++ EvFsAccess now err :: tr2)).
Proof.
  intros Hi Hret. unfold probe. rewrite (checkService_interface service Hi).
  rewrite run_returns_snoc by (auto; reflexivity).
  apply settled_stays; [tauto|].
  pose proof (interface_unrejected service start tr1 Hret) as Hrej.
  unfold settled, unrejected in *. simpl. unfold resolve. rewrite Hrej.
  destruct (p_resolved (run checkInterfaceService service start tr1)) eqn:E;
    simpl; rewrite ?E; eauto.
Qed.

Lemma on_offline h service start st ev :
  h = checkTcpService \/ h = checkRedisService \/ h = checkDnsService
  \/ h = checkInterfaceService \/ h = checkHttpService ->
  isAnswer ev = false ->
  settledBy (fun r => r = offlineResult service) st ->
  settledBy (fun r => r = offlineResult service)
    (h_on h service start st ev).
Proof.
  intros Hh Hev Hst.
  destruct Hh as [-> | [-> | [-> | [-> | ->]]]]; destruct ev; simpl in *;
    try discriminate; try exact Hst;
    try (apply negb_false_iff in Hev; subst err); simpl;
    split_ifs; try exact Hst;
    try (apply settledBy_resolve;
         [ reflexivity | eapply settledBy_same; [| exact Hst]; reflexivity ]).
Qed.

Lemma fold_offline h service start tr : forall st,
  h = checkTcpService \/ h = checkRedisService \/ h = checkDnsService
  \/ h = checkInterfaceService \/ h = checkHttpService ->
  forallb (fun ev => negb (isAnswer ev)) tr = true ->
  settledBy (fun r => r = offlineResult service) st ->
  settledBy (fun r => r = offlineResult service)
    (fold_left (h_on h service start) tr st).
Proof.
  induction tr as [|ev tr IH]; simpl; intros st Hh Htr Hst; [exact Hst|].
  apply andb_prop in Htr. destruct Htr as [Hev Htr].
  apply IH; [exact Hh | exact Htr|].
  apply on_offline; [exact Hh | apply negb_true_iff, Hev | exact Hst].
Qed.

(** Without a connection or an answer, a probe can only settle as
    [offline]. *)
Lemma probe_offline_without_answer service start tr :
  forallb (fun ev => negb (isAnswer ev)) tr = true ->
  settledBy (fun r => r = offlineResult service) (probe service start tr).
Proof.
  intros Htr. unfold probe, run.
  pose proof (checkService_cases service) as Hh.
  apply fold_offline; [exact Hh | |].
  - destruct tr as [|[] tr]; simpl in *; try exact Htr.
  - intros r Hr. exfalso. revert Hr.
    destruct tr as [|[] tr]; simpl;
      rewrite ?(start_pending _ _ _ Hh), ?(failed_unresolved _ _ _ _ Hh);
      discriminate.
Qed.

Lemma on_actions h service start st ev a :
  h = checkTcpService \/ h = checkRedisService \/ h = checkDnsService
  \/ h = checkInterfaceService \/ h = checkHttpService ->
  In a (p_actions st) -> In a (p_actions (h_on h service start st ev)).
Proof.
  intros [-> | [-> | [-> | [-> | ->]]]] Ha; destruct ev; simpl;
    split_ifs; unfold resolve; simpl; split_ifs; simpl;
    try exact Ha;
    repeat (apply in_or_app; left); exact Ha.
Qed.

Lemma fold_actions h service start tr a : forall st,
  h = checkTcpService \/ h = checkRedisService \/ h = checkDnsService
  \/ h = checkInterfaceService \/ h = checkHttpService ->
  In a (p_actions st) ->
  In a (p_actions (fold_left (h_on h service start) tr st)).
Proof.
  induction tr as [|ev tr IH]; simpl; intros st Hh Ha; [exact Ha|].
  apply IH; [exact Hh|]. apply on_actions; assumption.
Qed.

(** The timer of a probe is set to 3000 ms. *)
Lemma probe_timeout_3000 service start tr :
  sv_checkType service <> Some "interface" ->
  addressed service ->
  executorReturns tr ->
  In (ASetTimeout 3000) (p_actions (probe service start tr)).
Proof.
  intros Hne Ha Hret. pose proof (checkService_timed service Hne) as Hh.
  pose proof (checkService_addressed service Hne Ha) as Hs.
  unfold probe. rewrite (run_returns _ _ _ _ Hret).
  apply fold_actions; [tauto|].
  destruct Hs as [-> | [-> | [-> | [-> Hn]]]]; simpl; unfold dnsStart;
    rewrite ?Hn; simpl; tauto.
Qed.

Lemma checkType_interface_dec service :
  sv_checkType service = Some "interface"
  \/ sv_checkType service <> Some "interface".
Proof.
  destruct (sv_checkType service) as [t|]; [|right; discriminate].
  destruct (String.eqb_spec t "interface") as [-> | Hne];
    [left; reflexivity | right; congruence].
Qed.

(** An [interface] check never sets a timer. *)
Lemma interface_sets_no_timer service start tr :
  ~ In (ASetTimeout 3000)
      (p_actions (run checkInterfaceService service start tr)).
Proof.
  unfold run.
  assert (H0 : ~ In (ASetTimeout 3000)
                 (p_actions (fst (boot checkInterfaceService service start
                                    tr)))).
  { destruct tr as [|[] tr]; simpl; intros H;
      repeat (destruct H as [H | H]; [discriminate|]); exact H. }
  revert H0.
  generalize (fst (boot checkInterfaceService service start tr)).
  generalize (snd (boot checkInterfaceService service start tr)).
  induction l as [|ev l IH]; simpl; intros st Hst; [exact Hst|].
  apply IH. destruct ev; simpl; try exact Hst.
  unfold resolve. destruct (p_resolved st); [exact Hst|].
  destruct (p_rejected st); exact Hst.
Qed.

End ProbeCompletion.

Section ProbeTimeoutClaim.

Import Probe.

(** After [resolver.setServers] has thrown, the promise of the DNS
    check stays rejected and no timer is ever set. *)
Lemma dns_rejected_stays service start message st ev :
  dnsAborted service message st ->
  dnsAborted service message (dnsOn service start st ev).
Proof.
  unfold dnsAborted. intros (Hrej & Hres & Ht & Hno & Hset).
  destruct ev; simpl; try (repeat split; assumption).
  - rewrite Ht. repeat split; assumption.
  - unfold resolve. simpl. rewrite Hres, Hrej. simpl.
    repeat split; try assumption.
    + intros Hin. apply in_app_or in Hin.
      destruct Hin as [Hin | [Hin | []]]; [auto | discriminate].
    + apply in_or_app. left. exact Hset.
Qed.

Lemma dns_rejected_run service start message tr : forall st,
  dnsAborted service message st ->
  dnsAborted service message (fold_left (dnsOn service start) tr st).
Proof.
  induction tr as [|ev tr IH]; simpl; intros st Hst; [exact Hst|].
  apply IH, dns_rejected_stays, Hst.
Qed.

(** C4. The check of a DNS resolver that is given by name does not
    complete with a result: [resolver.setServers] throws for a server
    that is not an IP address, inside the executor of the promise and
    before the timer is set; whatever callbacks follow, the promise of
    the probe is rejected with an error, it is never fulfilled with a
    result, and no timer of 3000 ms exists.  When the callbacks do not
    tell of another exception, the error is Node's
    [Invalid IP address]. *)
Theorem C4_dns_probe_rejects service start tr :
  sv_checkType service = Some "dns" ->
  namedServer service = true ->
  let st := probe service start tr in
  rejected st
  /\ p_resolved st = None
  /\ p_timer st = false
  /\ ~ In (ASetTimeout 3000) (p_actions st)
  /\ In (ADnsSetServers (dnsServer service)) (p_actions st)
  /\ (executorReturns tr ->
      p_rejected st = Some ("Invalid IP address: " ++ dnsServer service)).
Proof.
  intros Hdns Hname st. subst st. unfold probe.
  rewrite (checkService_dns service Hdns). unfold run.
  assert (H0 : forall message,
             dnsAborted service message (dnsFailed service start message)).
  { intros message. unfold dnsAborted. simpl. repeat split; auto.
    intros [H | []]; discriminate. }
  assert (Hb : exists message,
             dnsAborted service message
               (fst (boot checkDnsService service start tr))
             /\ (executorReturns tr ->
                 message = "Invalid IP address: " ++ dnsServer service)).
  { destruct tr as [|[] tr]; simpl; unfold dnsStart; rewrite ?Hname;
      eexists; (split; [apply H0|]); simpl; intros H;
      first [reflexivity | contradiction]. }
  destruct Hb as (message & Hb & Hmsg).
  pose proof (dns_rejected_run service start message
                (snd (boot checkDnsService service start tr)) _ Hb)
    as (H1 & H2 & H3 & H4 & H5).
  split; [exists message; exact H1|].
  repeat (split; [assumption|]).
  intros Hret. rewrite <- (Hmsg Hret). exact H1.
Qed.

Lemma C4_dns_probe_rejects_witness :
  let st := probe exampleResolver 0 [EvTimer 3000] in
  rejected st
  /\ p_resolved st = None
  /\ p_timer st = false
  /\ ~ In (ASetTimeout 3000) (p_actions st)
  /\ In (ADnsSetServers (dnsServer exampleResolver)) (p_actions st)
  /\ (executorReturns [EvTimer 3000] ->
      p_rejected st
      = Some ("Invalid IP address: " ++ dnsServer exampleResolver)).
Proof.
  apply (C4_dns_probe_rejects exampleResolver 0
           [EvTimer 3000]).
  - reflexivity.
  - vm_compute. reflexivity.
Defined.

(** The server that the resolver of the example is given, and the
    state in which its probe stays. *)
Example example_resolver_server :
  dnsServer exampleResolver = "example.com:53"
  /\ probe exampleResolver 0 [EvTimer 3000]
     = mkPState None (Some "Invalid IP address: example.com:53") false
         [ADnsSetServers "example.com:53"].
Proof. vm_compute. split; reflexivity. Qed.

End ProbeTimeoutClaim.

(** ** Rounding to a double *)

Section DoubleFacts.

Import JsNumber CpuPolls.

Local Open Scope Q_scope.

Lemma two_pos e : 0 < 2 ^ e.
Proof. apply Qpower_0_lt. reflexivity. Qed.

Lemma two_succ e : 2 ^ (e + 1) == 2 * 2 ^ e.
Proof. rewrite Qpower_plus by discriminate. rewrite Qpower_1_r. ring. Qed.

Lemma two_pred e : 2 ^ (e - 1) == 2 ^ e * (1 # 2).
Proof. rewrite Qpower_minus by discriminate. rewrite Qpower_1_r. reflexivity. Qed.

Lemma inject_pow2 (n : Z) : (0 <= n)%Z -> inject_Z (2 ^ n) == 2 ^ n.
Proof. intros H. apply (Zpower_Qpower 2 n H). Qed.

Lemma exponent_spec x :
  0 < x -> 2 ^ exponent x <= x /\ x < 2 ^ (exponent x + 1).
Proof.
  intros Hx. unfold exponent.
  destruct x as [a b]. simpl Qnum. simpl Qden.
  assert (Ha : (0 < a)%Z) by (unfold Qlt in Hx; simpl in Hx; lia).
  destruct (Z.log2_spec a Ha) as [Ha1 Ha2].
  destruct (Z.log2_spec (Z.pos b) eq_refl) as [Hb1 Hb2].
  pose proof (Z.log2_nonneg a) as Hla.
  pose proof (Z.log2_nonneg (Z.pos b)) as Hlb.
  set (la := Z.log2 a) in *. set (lb := Z.log2 (Z.pos b)) in *.
  assert (Eab : a # b == inject_Z a / inject_Z (Z.pos b))
    by (rewrite Qmake_Qdiv; reflexivity).
  assert (Hbpos : 0 < inject_Z (Z.pos b)) by reflexivity.
  assert (Ea1 : 2 ^ la <= inject_Z a)
    by (rewrite <- inject_pow2 by exact Hla; rewrite <- Zle_Qle; exact Ha1).
  assert (Ea2 : inject_Z a < 2 * 2 ^ la).
  { rewrite <- two_succ. rewrite <- inject_pow2 by lia.
    rewrite <- Zlt_Qlt. unfold Z.succ in Ha2. exact Ha2. }
  assert (Eb1 : 2 ^ lb <= inject_Z (Z.pos b))
    by (rewrite <- inject_pow2 by exact Hlb; rewrite <- Zle_Qle; exact Hb1).
  assert (Eb2 : inject_Z (Z.pos b) < 2 * 2 ^ lb).
  { rewrite <- two_succ. rewrite <- inject_pow2 by lia.
    rewrite <- Zlt_Qlt. unfold Z.succ in Hb2. exact Hb2. }
  assert (Ee : 2 ^ (la - lb) == 2 ^ la / 2 ^ lb)
    by (apply Qpower_minus; discriminate).
  pose proof (two_pos la) as Pa. pose proof (two_pos lb) as Pb.
  set (q := 2 ^ la / 2 ^ lb) in *.
  assert (Eq : q * 2 ^ lb == 2 ^ la)
    by (unfold q; field; intros H; rewrite H in Pb; discriminate).
  assert (Pq : 0 < q) by (apply Qlt_shift_div_l; [exact Pb | lra]).
  destruct (Qle_bool (2 ^ (la - lb)) (a # b)) eqn:B.
  - apply Qle_bool_iff in B. split; [exact B|].
    rewrite two_succ, Ee, Eab.
    apply Qlt_shift_div_r; [exact Hbpos|]. clearbody q. set (pa := 2 ^ la) in *. set (pb := 2 ^ lb) in *. clearbody pa pb. clear - Ea2 Eb1 Eq Pq. nra.
  - assert (B' : a # b < 2 ^ (la - lb)).
    { apply Qnot_le_lt. intros H. apply Qle_bool_iff in H. congruence. }
    replace (la - lb - 1 + 1)%Z with (la - lb)%Z by lia.
    split; [|exact B'].
    rewrite two_pred, Ee, Eab.
    apply Qle_shift_div_l; [exact Hbpos|].
    clearbody q.
    assert (0 <= q * (2 * 2 ^ lb - inject_Z (Z.pos b)))
      by (apply Qmult_le_0_compat; lra).
    set (pa := 2 ^ la) in *. set (pb := 2 ^ lb) in *.
    clearbody pa pb. clear - Ea1 Eq H. nra.
Qed.

Lemma exponent_le x y : 0 < x -> x <= y -> (exponent x <= exponent y)%Z.
Proof.
  intros Hx Hxy.
  destruct (exponent_spec x Hx) as [A _].
  destruct (exponent_spec y (Qlt_le_trans _ _ _ Hx Hxy)) as [_ B].
  assert (H : 2 ^ exponent x < 2 ^ (exponent y + 1))
    by (eapply Qle_lt_trans; [exact A|]; eapply Qle_lt_trans; eassumption).
  apply Qpower_lt_compat_l_inv in H; [lia | reflexivity].
Qed.

Lemma roundEven_cases m :
  roundEven m = Qfloor m \/ roundEven m = (Qfloor m + 1)%Z.
Proof.
  unfold roundEven. destruct (_ ?= _); [destruct (Z.even _)| |]; auto.
Qed.

Lemma roundEven_near m :
  inject_Z (roundEven m) - m <= 1 # 2 /\ m - inject_Z (roundEven m) <= 1 # 2.
Proof.
  pose proof (Qfloor_le m) as H1. pose proof (Qlt_floor m) as H2.
  rewrite inject_Z_plus in H2. unfold roundEven.
  set (f := Qfloor m) in *. change (inject_Z 1) with 1 in H2.
  destruct (m - inject_Z f ?= 1 # 2) eqn:C.
  - apply Qeq_alt in C.
    destruct (Z.even f); rewrite ?inject_Z_plus; change (inject_Z 1) with 1;
      lra.
  - apply Qlt_alt in C. lra.
  - apply Qgt_alt in C. rewrite inject_Z_plus. change (inject_Z 1) with 1.
    lra.
Qed.

Lemma roundEven_Z z : roundEven (inject_Z z) = z.
Proof.
  unfold roundEven. rewrite Qfloor_Z.
  assert (C : (inject_Z z - inject_Z z ?= 1 # 2) = Lt)
    by (rewrite <- Qlt_alt; lra).
  rewrite C. reflexivity.
Qed.

Lemma roundEven_le m m' : m <= m' -> (roundEven m <= roundEven m')%Z.
Proof.
  intros H. pose proof (Qfloor_resp_le _ _ H) as Hf.
  destruct (Z.eq_dec (Qfloor m) (Qfloor m')) as [E | N].
  - unfold roundEven. rewrite <- E. set (f := Qfloor m) in *.
    destruct (m - inject_Z f ?= 1 # 2) eqn:C;
      destruct (m' - inject_Z f ?= 1 # 2) eqn:C';
      try rewrite <- Qeq_alt in C; try rewrite <- Qlt_alt in C;
      try rewrite <- Qgt_alt in C;
      try rewrite <- Qeq_alt in C'; try rewrite <- Qlt_alt in C';
      try rewrite <- Qgt_alt in C';
      try (exfalso; lra); destruct (Z.even f); lia.
  - destruct (roundEven_cases m) as [-> | ->];
      destruct (roundEven_cases m') as [-> | ->]; lia.
Qed.

Lemma roundEven_between m lo hi :
  inject_Z lo <= m -> m <= inject_Z hi -> (lo <= roundEven m <= hi)%Z.
Proof.
  intros H1 H2. split.
  - rewrite <- (roundEven_Z lo). apply roundEven_le, H1.
  - rewrite <- (roundEven_Z hi). apply roundEven_le, H2.
Qed.

(** The unit in the last place of the doubles around a positive [x]. *)
Lemma ulp_spec x :
  0 < x ->
  let u := 2 ^ (exponent x - 52) in
  0 < u /\ 4503599627370496 * u <= x /\ x < 9007199254740992 * u
  /\ 4503599627370496 * u == 2 ^ exponent x.
Proof.
  intros Hx u. destruct (exponent_spec x Hx) as [A B].
  rewrite two_succ in B.
  assert (E : 4503599627370496 * u == 2 ^ exponent x).
  { unfold u. rewrite Qpower_minus by discriminate.
    change (2 ^ 52) with 4503599627370496. field. }
  pose proof (two_pos (exponent x - 52)) as Pu. fold u in Pu.
  set (p := 2 ^ exponent x) in *. clearbody p u.
  repeat split; [exact Pu | lra | lra | exact E].
Qed.

Lemma double_pos x :
  0 < x ->
  double x
  == inject_Z (roundEven (x / 2 ^ (exponent x - 52)))
     * 2 ^ (exponent x - 52).
Proof.
  intros Hx. unfold double.
  assert (C : (x ?= 0) = Gt) by (apply Qgt_alt; exact Hx).
  rewrite C. apply Qred_correct.
Qed.

Lemma double_0 x : x == 0 -> double x = 0.
Proof.
  intros Hx. unfold double. apply Qeq_alt in Hx. rewrite Hx. reflexivity.
Qed.

(** The significand of a positive [x]: between [2^52] and [2^53]. *)
Lemma significand_spec x :
  0 < x ->
  let u := 2 ^ (exponent x - 52) in
  let m := x / u in
  m * u == x /\ 4503599627370496 <= m /\ m <= 9007199254740992.
Proof.
  intros Hx u m. destruct (ulp_spec x Hx) as (Pu & L & H & _). fold u in Pu, L, H.
  assert (E : m * u == x)
    by (unfold m; field; intros Z; rewrite Z in Pu; discriminate).
  clearbody m u. split; [exact E|]. split.
  - apply Qnot_lt_le. intros C.
    assert (m * u < 4503599627370496 * u) by (apply Qmult_lt_compat_r; assumption).
    lra.
  - apply Qnot_lt_le. intros C.
    assert (9007199254740992 * u < m * u) by (apply Qmult_lt_compat_r; assumption).
    lra.
Qed.

(** Rounding to a double moves a positive number by at most one part
    in [2^53]. *)
Lemma double_error x :
  0 < x ->
  x * (1 - (1 # 9007199254740992)) <= double x
  /\ double x <= x * (1 + (1 # 9007199254740992)).
Proof.
  intros Hx. rewrite (double_pos x Hx).
  destruct (ulp_spec x Hx) as (Pu & _).
  destruct (significand_spec x Hx) as (E & L & _).
  set (u := 2 ^ (exponent x - 52)) in *.
  set (m := x / u) in *.
  destruct (roundEven_near m) as [N1 N2].
  set (r := inject_Z (roundEven m)) in *.
  clearbody r m u. rewrite <- E. split; nra.
Qed.

Lemma double_nonneg x : 0 <= x -> 0 <= double x.
Proof.
  intros Hx. destruct (Qlt_le_dec 0 x) as [P | Z].
  - destruct (double_error x P) as [L _]. nra.
  - rewrite double_0 by lra. lra.
Qed.

(** Rounding to a double keeps the order. *)
Lemma double_le x y : 0 <= x -> x <= y -> double x <= double y.
Proof.
  intros Hx Hxy. destruct (Qlt_le_dec 0 x) as [Px | Zx].
  2:{ rewrite (double_0 x) by lra. apply double_nonneg. lra. }
  assert (Py : 0 < y) by lra.
  pose proof (exponent_le x y Px Hxy) as He.
  rewrite (double_pos x Px), (double_pos y Py).
  destruct (ulp_spec x Px) as (Pu & _ & _ & Eu).
  destruct (ulp_spec y Py) as (Pv & _ & _ & Ev).
  destruct (significand_spec x Px) as (Ex & Lx & Hx').
  destruct (significand_spec y Py) as (Ey & Ly & Hy').
  destruct (Z.eq_dec (exponent x) (exponent y)) as [E | N].
  - rewrite <- E in *. set (u := 2 ^ (exponent x - 52)) in *.
    apply Qmult_le_compat_r; [|lra].
    rewrite <- Zle_Qle. apply roundEven_le.
    apply Qmult_le_compat_r; [exact Hxy|].
    apply Qlt_le_weak, Qinv_lt_0_compat, Pu.
  - assert (Hp : 2 * 2 ^ exponent x <= 2 ^ exponent y).
    { rewrite <- two_succ. apply Qpower_le_compat_l; [lia | discriminate]. }
    set (u := 2 ^ (exponent x - 52)) in *.
    set (v := 2 ^ (exponent y - 52)) in *.
    set (mx := x / u) in *. set (my := y / v) in *.
    assert (Rx : (roundEven mx <= 9007199254740992)%Z)
      by (apply (roundEven_between mx 0 9007199254740992);
          [change (inject_Z 0) with 0; lra | exact Hx']).
    assert (Ry : (4503599627370496 <= roundEven my)%Z)
      by (apply (roundEven_between my 4503599627370496 9007199254740992);
          assumption).
    rewrite Zle_Qle in Rx, Ry.
    set (rx := inject_Z (roundEven mx)) in *.
    set (ry := inject_Z (roundEven my)) in *.
    set (px := 2 ^ exponent x) in *. set (py := 2 ^ exponent y) in *.
    change (inject_Z 9007199254740992) with 9007199254740992 in Rx.
    change (inject_Z 4503599627370496) with 4503599627370496 in Ry.
    clearbody rx ry px py u v mx my. nra.
Qed.

Lemma double_upper x b :
  0 <= x -> x <= b -> double x <= b * (1 + (1 # 9007199254740992)).
Proof.
  intros H0 Hb. destruct (Qlt_le_dec 0 x) as [P | Z].
  - destruct (double_error x P) as [_ U]. nra.
  - rewrite double_0 by lra. nra.
Qed.

Lemma double_lower x b :
  0 < b -> b <= x -> b * (1 - (1 # 9007199254740992)) <= double x.
Proof.
  intros H0 Hb. destruct (double_error x ltac:(lra)) as [L _]. nra.
Qed.

(** The product that [calculateCpuPercent] hands to [Math.round]: it
    is never negative; it stays below 1000.5 when the usage does not
    exceed what all cores can deliver, and reaches 0.5 when the usage
    amounts to a thousandth of a core. *)
Lemma share_bounds numCpus du dt :
  (0 < numCpus)%Z -> (0 < dt)%Z -> (0 <= du)%Z ->
  0 <= tenths numCpus du dt
  /\ ((du <= dt * numCpus)%Z -> tenths numCpus du dt <= 1000 + (1 # 4))
  /\ ((numCpus * dt <= 1000 * du)%Z -> 3 # 4 <= tenths numCpus du dt).
Proof.
  intros Hn Hdt Hdu. unfold tenths.
  assert (Pn : 0 < inject_Z numCpus)
    by (change 0 with (inject_Z 0); rewrite <- Zlt_Qlt; exact Hn).
  assert (Pt : 0 < inject_Z dt)
    by (change 0 with (inject_Z 0); rewrite <- Zlt_Qlt; exact Hdt).
  assert (Pu : 0 <= inject_Z du)
    by (change 0 with (inject_Z 0); rewrite <- Zle_Qle; exact Hdu).
  set (n := inject_Z numCpus) in *.
  set (q := inject_Z du / inject_Z dt).
  assert (Q0 : 0 <= q)
    by (apply Qle_shift_div_l; [exact Pt | lra]).
  set (c1 := double q).
  assert (C1 : 0 <= c1) by (apply double_nonneg, Q0).
  set (c2 := double (c1 * 100)).
  assert (C2 : 0 <= c2) by (apply double_nonneg; lra).
  assert (D0 : 0 <= c2 / n)
    by (apply Qle_shift_div_l; [exact Pn | lra]).
  set (c3 := double (c2 / n)).
  assert (C3 : 0 <= c3) by (apply double_nonneg, D0).
  split; [apply double_nonneg; lra|]. split.
  - intros Hcap.
    assert (Hq : q <= n).
    { apply Qle_shift_div_r; [exact Pt|]. unfold n.
      rewrite <- inject_Z_mult, <- Zle_Qle. lia. }
    assert (U1 : c1 <= n * (1 + (1 # 9007199254740992)))
      by (apply double_upper; assumption).
    assert (U2 : c2 <= n * (1 + (1 # 9007199254740992)) * 100
                      * (1 + (1 # 9007199254740992)))
      by (apply double_upper; [lra|];
          apply Qmult_le_compat_r; [exact U1 | discriminate]).
    assert (Hd : c2 / n
                 <= (1 + (1 # 9007199254740992)) * 100
                    * (1 + (1 # 9007199254740992)))
      by (apply Qle_shift_div_r; [exact Pn | lra]).
    assert (U3 : c3 <= (1 + (1 # 9007199254740992)) * 100
                      * (1 + (1 # 9007199254740992))
                      * (1 + (1 # 9007199254740992)))
      by (apply double_upper; assumption).
    eapply Qle_trans;
      [apply double_upper;
       [lra | apply Qmult_le_compat_r; [exact U3 | discriminate]]|].
    vm_compute. discriminate.
  - intros Hbig.
    assert (Hq : n * (1 # 1000) <= q).
    { apply Qle_shift_div_l; [exact Pt|]. unfold n.
      assert (H : inject_Z numCpus * inject_Z dt
                  <= 1000 * inject_Z du)
        by (change 1000 with (inject_Z 1000);
            rewrite <- !inject_Z_mult, <- Zle_Qle; exact Hbig).
      lra. }
    assert (L1 : n * (1 # 1000) * (1 - (1 # 9007199254740992)) <= c1)
      by (apply double_lower; [lra | exact Hq]).
    assert (L2 : n * (1 # 1000) * (1 - (1 # 9007199254740992)) * 100
                 * (1 - (1 # 9007199254740992)) <= c2)
      by (apply double_lower; [lra|];
          apply Qmult_le_compat_r; [exact L1 | discriminate]).
    assert (Hd : (1 # 1000) * (1 - (1 # 9007199254740992)) * 100
                 * (1 - (1 # 9007199254740992)) <= c2 / n)
      by (apply Qle_shift_div_l; [exact Pn | lra]).
    assert (L3 : (1 # 1000) * (1 - (1 # 9007199254740992)) * 100
                 * (1 - (1 # 9007199254740992))
                 * (1 - (1 # 9007199254740992)) <= c3)
      by (apply double_lower; [reflexivity | exact Hd]).
    eapply Qle_trans;
      [|apply double_lower;
        [|apply Qmult_le_compat_r; [exact L3 | discriminate]];
        reflexivity].
    vm_compute. discriminate.
Qed.

End DoubleFacts.

(** ** The CPU delta cache *)

Section CacheFacts.

Import CpuCache CpuPolls.

Lemma calculateCpuPercent_cache numCpus nowMs id usage
  (cache : gmap string Sample) :
  snd (calculateCpuPercent numCpus nowMs id usage cache)
  = match usage with
    | Some u => <[id := mkSample u (nowMs * 1000)]> cache
    | None => cache
    end.
Proof.
  unfold calculateCpuPercent, record. destruct usage as [u|]; [|reflexivity].
  destruct (cache !! id) as [s|]; [|reflexivity].
  destruct (_ || _); reflexivity.
Qed.

(** The percentage is computed from the entry of the container alone. *)
Lemma calculateCpuPercent_value numCpus nowMs id u
  (cache : gmap string Sample) :
  fst (calculateCpuPercent numCpus nowMs id (Some u) cache)
  = match cache !! id with
    | Some s =>
        if (nowMs * 1000 - timeUsec s <=? 0) || (u - usageUsec s <? 0)
        then 0%Q
        else
          double
            (inject_Z
               (jsRound
                  (tenths numCpus (u - usageUsec s)
                     (nowMs * 1000 - timeUsec s))) / 10)%Q
    | None => 0%Q
    end.
Proof.
  unfold calculateCpuPercent, record.
  destruct (cache !! id) as [s|]; [|reflexivity].
  destruct (_ || _); reflexivity.
Qed.

Lemma calculateCpuPercent_only numCpus nowMs id usage
  (cache : gmap string Sample) :
  fst (calculateCpuPercent numCpus nowMs id usage cache)
  = fst (calculateCpuPercent numCpus nowMs id usage (only id (cache !! id))).
Proof.
  destruct usage as [u|]; [|reflexivity].
  rewrite !calculateCpuPercent_value. unfold only.
  destruct (cache !! id) as [s|].
  - rewrite lookup_singleton_eq. reflexivity.
  - rewrite lookup_empty. reflexivity.
Qed.

Lemma calculateCpuPercent_first numCpus nowMs id usage
  (cache : gmap string Sample) :
  cache !! id = None ->
  fst (calculateCpuPercent numCpus nowMs id usage cache) = 0%Q.
Proof.
  intros H. unfold calculateCpuPercent, record.
  destruct usage; [|reflexivity]. rewrite H. reflexivity.
Qed.

Lemma lastStored_cons id poll polls :
  lastStored id (poll :: polls)
  = match lastStored id polls with
    | Some s => Some s
    | None => stored id poll
    end.
Proof.
  unfold lastStored. simpl. destruct (stored id poll) as [s|]; simpl.
  - rewrite last_cons. destruct (last _); reflexivity.
  - destruct (last _); reflexivity.
Qed.

Lemma lastStored_app id l1 l2 :
  lastStored id (l1 ++ l2)
  = match lastStored id l2 with
    | Some s => Some s
    | None => lastStored id l1
    end.
Proof.
  induction l1 as [|poll l1 IH]; simpl.
  - destruct (lastStored id l2); reflexivity.
  - rewrite !lastStored_cons, IH. destruct (lastStored id l2); reflexivity.
Qed.

Lemma lastStored_none id polls :
  Forall (fun poll => stored id poll = None) polls ->
  lastStored id polls = None.
Proof.
  induction 1 as [|poll polls Hp _ IH]; [reflexivity|].
  rewrite lastStored_cons, IH. exact Hp.
Qed.

(** The cache after a series of calls: under each container, the
    sample that the last call with a usage for it has stored. *)
Lemma pollAll_lookup numCpus polls : forall (cache : gmap string Sample) id,
  pollAll numCpus polls cache !! id
  = match lastStored id polls with
    | Some s => Some s
    | None => cache !! id
    end.
Proof.
  unfold pollAll.
  induction polls as [|[[t i] usage] polls IH]; intros cache id;
    [reflexivity|].
  simpl fold_left. rewrite IH, lastStored_cons, calculateCpuPercent_cache.
  destruct (lastStored id polls); [reflexivity|].
  unfold stored. destruct usage as [u|]; [|reflexivity].
  destruct (String.eqb_spec i id) as [-> | Hne].
  - rewrite lookup_insert_eq. reflexivity.
  - rewrite lookup_insert_ne by exact Hne. reflexivity.
Qed.

(** What the call number [i] of a series returns. *)
Lemma reports_lookup numCpus polls :
  forall (cache : gmap string Sample) i nowMs id usage,
  polls !! i = Some (nowMs, id, usage) ->
  reports numCpus polls cache !! i
  = Some (fst (calculateCpuPercent numCpus nowMs id usage
                 (pollAll numCpus (take i polls) cache))).
Proof.
  induction polls as [|[[t c] us] polls IH];
    intros cache i nowMs id usage Hi; [destruct i; discriminate|].
  simpl reports.
  destruct (calculateCpuPercent numCpus t c us cache) as [pct cache'] eqn:E.
  destruct i as [|i]; simpl in Hi.
  - injection Hi as -> -> ->. simpl. rewrite E. reflexivity.
  - simpl. rewrite (IH cache' i nowMs id usage Hi).
    unfold pollAll. simpl. rewrite E. reflexivity.
Qed.

(** The sweep keeps exactly the entries written within the last two
    minutes. *)
Lemma sweep_lookup nowMs (cache : gmap string Sample) id s :
  sweep nowMs cache !! id = Some s
  <-> cache !! id = Some s /\ nowMs * 1000 - timeUsec s <= staleThreshold.
Proof.
  unfold sweep. rewrite map_lookup_filter_Some. simpl.
  rewrite negb_true_iff, Z.ltb_ge. tauto.
Qed.

Lemma jsRound_le q q' : (q <= q')%Q -> jsRound q <= jsRound q'.
Proof.
  intros H. unfold jsRound. apply Qfloor_resp_le. lra.
Qed.

Lemma jsRound_nonneg q : (0 <= q)%Q -> 0 <= jsRound q.
Proof.
  intros H. change 0 with (jsRound 0). apply jsRound_le, H.
Qed.

Lemma jsRound_ge_one q : (3 # 4 <= q)%Q -> 1 <= jsRound q.
Proof.
  intros H. change 1 with (jsRound (3 # 4)). apply jsRound_le, H.
Qed.

Lemma jsRound_le_1000 q : (q <= 1000 + (1 # 4))%Q -> jsRound q <= 1000.
Proof.
  intros H. change 1000 with (jsRound (1000 + (1 # 4))).
  apply jsRound_le, H.
Qed.

(** The last division by 10, rounded to a double. *)
Lemma tenth_bounds z :
  0 <= z ->
  (0 <= double (inject_Z z / 10))%Q
  /\ (z <= 1000 -> (double (inject_Z z / 10) <= 100)%Q)
  /\ (1 <= z -> (0 < double (inject_Z z / 10))%Q).
Proof.
  intros Hz.
  assert (H0 : (0 <= inject_Z z / 10)%Q)
    by (unfold Qdiv, Qle; simpl; lia).
  split; [apply double_nonneg, H0|]. split.
  - intros H.
    apply Qle_trans with (double 100); [|vm_compute; discriminate].
    apply double_le; [exact H0|]. unfold Qdiv, Qle. simpl. lia.
  - intros H.
    apply Qlt_le_trans with (double (1 # 10)); [vm_compute; reflexivity|].
    apply double_le; [discriminate|]. unfold Qdiv, Qle. simpl. lia.
Qed.

(** A usage that amounts to a thousandth of one core or more, against
    a cached sample, is reported as more than nothing. *)
Lemma calculateCpuPercent_positive numCpus nowMs id u s :
  0 < numCpus ->
  timeUsec s < nowMs * 1000 ->
  numCpus * (nowMs * 1000 - timeUsec s) <= 1000 * (u - usageUsec s) ->
  (0 < fst (calculateCpuPercent numCpus nowMs id (Some u)
              (only id (Some s))))%Q.
Proof.
  intros Hn Ht Hu. rewrite calculateCpuPercent_value. unfold only.
  rewrite lookup_singleton_eq.
  assert (Hdu : 0 <= u - usageUsec s) by nia.
  replace ((nowMs * 1000 - timeUsec s <=? 0) || (u - usageUsec s <? 0))
    with false
    by (symmetry; apply orb_false_iff; split;
        [apply Z.leb_gt | apply Z.ltb_ge]; lia).
  destruct (share_bounds numCpus (u - usageUsec s)
              (nowMs * 1000 - timeUsec s) Hn ltac:(lia) Hdu)
    as (_ & _ & Hone).
  pose proof (jsRound_ge_one _ (Hone Hu)) as Hz.
  apply tenth_bounds; lia.
Qed.

End CacheFacts.

Section CacheClaim.

Import CpuCache CpuPolls.

(** C5. In a series of calls of [calculateCpuPercent] on an initially
    empty cache, the call number [i], made for [id] with a usage, is
    answered from the sample that the nearest earlier call with a usage
    for [id] has stored, and from nothing else: it returns what it
    returns on a cache that holds that sample alone.  So the first such
    call for [id] finds no sample and returns 0; a later one is
    answered from the sample of the call before it for [id], whatever
    was measured for other containers in between: it reports 0 when
    the clock did not advance or the counter went backwards since that
    sample, and otherwise the percentage computed from the two
    differences to that sample (more than 0 for a usage of a
    thousandth of a core or more); and the call leaves its own sample
    in the cache, in place of the one it has read. *)
Theorem C5_record_returns_previous_sample numCpus polls i nowMs id u :
  polls !! i = Some (nowMs, id, Some u) ->
  reports numCpus polls ∅ !! i
  = Some (fst (calculateCpuPercent numCpus nowMs id (Some u)
                 (only id (lastStored id (take i polls)))))
  /\ (Forall (fun poll => stored id poll = None) (take i polls) ->
      reports numCpus polls ∅ !! i = Some 0%Q)
  /\ (forall j t' u',
        (j < i)%nat ->
        polls !! j = Some (t', id, Some u') ->
        (forall k poll,
           (j < k < i)%nat -> polls !! k = Some poll -> spares id poll) ->
        reports numCpus polls ∅ !! i
        = Some (if (nowMs * 1000 - t' * 1000 <=? 0) || (u - u' <? 0)
                then 0%Q
                else
                  double
                    (inject_Z
                       (jsRound
                          (tenths numCpus (u - u')
                             (nowMs * 1000 - t' * 1000))) / 10)%Q)
        /\ (0 < numCpus -> t' < nowMs ->
            numCpus * (nowMs * 1000 - t' * 1000) <= 1000 * (u - u') ->
            exists pct,
              reports numCpus polls ∅ !! i = Some pct /\ (0 < pct)%Q))
  /\ pollAll numCpus (take (S i) polls) ∅ !! id
     = Some (mkSample u (nowMs * 1000)).
Proof.
  intros Hi.
  assert (Hrep : reports numCpus polls ∅ !! i
                 = Some (fst (calculateCpuPercent numCpus nowMs id (Some u)
                                (only id (lastStored id (take i polls)))))).
  { rewrite (reports_lookup _ _ _ _ _ _ _ Hi), calculateCpuPercent_only.
    rewrite pollAll_lookup, lookup_empty.
    destruct (lastStored id (take i polls)); reflexivity. }
  split; [exact Hrep|]. split; [|split].
  - intros Hfresh. rewrite Hrep, (lastStored_none _ _ Hfresh). reflexivity.
  - intros j t' u' Hlt Hj Hbetween.
    assert (Hlast : lastStored id (take i polls)
                    = Some (mkSample u' (t' * 1000))).
    { assert (Hj' : take i polls !! j = Some (t', id, Some u'))
        by (rewrite lookup_take_lt by exact Hlt; exact Hj).
      rewrite <- (take_drop_middle _ _ _ Hj'), lastStored_app,
        lastStored_cons.
      rewrite lastStored_none.
      - simpl. rewrite String.eqb_refl. reflexivity.
      - apply Forall_lookup. intros k poll Hk.
        rewrite lookup_drop in Hk. apply lookup_take_Some in Hk.
        destruct Hk as [Hk Hlt'].
        specialize (Hbetween (S j + k)%nat poll ltac:(lia) Hk).
        destruct poll as [[t c] us]. unfold spares in Hbetween.
        simpl in *. destruct us as [w|]; [|reflexivity].
        destruct Hbetween as [Hne | Hnone]; [|discriminate].
        destruct (String.eqb_spec c id); [contradiction | reflexivity]. }
    rewrite Hrep, Hlast. split.
    { rewrite calculateCpuPercent_value. unfold only.
      rewrite lookup_singleton_eq. reflexivity. }
    intros Hn Ht Hu. eexists. split; [reflexivity|].
    apply calculateCpuPercent_positive; simpl; [exact Hn | lia | exact Hu].
  - rewrite pollAll_lookup.
    replace (take (S i) polls)
      with (take i polls ++ [(nowMs, id, Some u)])%list
      by (symmetry; apply take_S_r, Hi).
    rewrite lastStored_app, lastStored_cons. simpl.
    rewrite String.eqb_refl. reflexivity.
Qed.

Lemma C5_record_returns_previous_sample_witness :
  let polls :=
    [(1000, "a", Some 1000000); (1500, "b", Some 70);
     (2000, "a", Some 2000000)] in
  reports 4 polls ∅ !! 2%nat
  = Some (double (inject_Z (jsRound (tenths 4 1000000 1000000)) / 10))%Q
  /\ exists pct, reports 4 polls ∅ !! 2%nat = Some pct /\ (0 < pct)%Q.
Proof.
  intros polls.
  destruct (C5_record_returns_previous_sample 4 polls 2 2000 "a" 2000000
              eq_refl) as [_ [_ [H _]]].
  destruct (H 0%nat 1000 1000000 ltac:(lia) eq_refl) as [H1 H2].
  - intros k poll Hk. assert (k = 1%nat) as -> by lia.
    intros [= <-]. left. discriminate.
  - split; [exact H1|]. apply H2; lia.
Defined.

(** The example of the specification: 1 000 000 and then 2 000 000
    microseconds of usage one second apart on four cores are reported
    as 25 percent. *)
Example cpu_rate_example :
  exists pct,
    reports 4 [(1000, "a", Some 1000000); (2000, "a", Some 2000000)] ∅
    = [0%Q; pct]
    /\ (pct == 25)%Q.
Proof. eexists. split; [reflexivity|]. vm_compute. reflexivity. Qed.

End CacheClaim.

(** ** Regular expressions *)

Section RegexFacts.

(** A class repeated up to the end of the text: the whole remaining
    text must be in the class, and its length within the bounds. *)
Lemma repeat_class_to_end {A} (p : ascii -> bool)
  (body : mstate -> (mstate -> option A) -> option A)
  (k : mstate -> option A) :
  (forall st k0,
     body st k0
     = match m_rest st with
       | c :: t =>
           if p c then k0 (MState (S (m_pos st)) t (m_caps st)) else None
       | [] => None
       end) ->
  (forall st, m_rest st <> [] -> k st = None) ->
  (forall st, m_rest st = [] -> k st <> None) ->
  forall fuel lo hi pos l caps,
    (length l <= fuel)%nat ->
    repeatGreedy body k fuel lo hi (MState pos l caps) <> None
    <-> forallb p l = true /\ (lo <= length l)%nat /\ within hi (length l).
Proof.
  intros Hbody Hmore Hend. induction fuel as [|fuel IH]; intros lo hi pos l caps Hl.
  - destruct l; [|simpl in Hl; lia]. simpl.
    destruct (Nat.eqb_spec lo 0) as [->|Hlo].
    + split; [intros _|intros _; apply Hend; reflexivity].
      repeat split; [lia|]. destruct hi; simpl; lia.
    + split; [congruence | intros (_ & H & _); simpl in H; lia].
  - cbn [repeatGreedy]. destruct (hiDone hi) eqn:Hd.
    + destruct hi as [[|h]|]; try discriminate. simpl within.
      destruct (Nat.eqb_spec lo 0) as [->|Hlo].
      * destruct l as [|c l].
        -- split; [intros _; repeat split; simpl; lia|].
           intros _. apply Hend. reflexivity.
        -- rewrite Hmore by discriminate.
           split; [congruence | intros (_ & _ & H); simpl in H; lia].
      * split; [congruence|]. intros (_ & H1 & H2). lia.
    + rewrite Hbody. destruct l as [|c l]; cbn [m_rest m_pos m_caps].
      * destruct (Nat.eqb_spec lo 0) as [->|Hlo].
        -- split; [intros _|intros _; apply Hend; reflexivity].
           repeat split; [lia|]. destruct hi; simpl; lia.
        -- split; [congruence | intros (_ & H & _); simpl in H; lia].
      * simpl forallb. destruct (p c) eqn:Hc.
        -- replace (pos <? S pos)%nat with true
             by (symmetry; apply Nat.ltb_lt; lia).
           assert (Hl' : (length l <= fuel)%nat) by (simpl in Hl; lia).
           specialize (IH (Nat.pred lo) (hiPred hi) (S pos) l caps Hl').
           destruct (repeatGreedy body k fuel (Nat.pred lo)
                       (hiPred hi) (MState (S pos) l caps)) as [a|] eqn:E.
           ++ split; [intros _|congruence].
              destruct IH as [IH _]. destruct IH as (Hp & H1 & H2);
                [congruence|].
              split; [exact Hp|]. simpl length. split; [lia|].
              destruct hi as [[|h]|]; simpl in *; try discriminate; lia.
           ++ assert (Hstop : (if (lo =? 0)%nat
                               then k (MState pos (c :: l) caps)
                               else None) = None).
              { destruct (lo =? 0)%nat; [apply Hmore; discriminate|].
                reflexivity. }
              rewrite Hstop. split; [congruence|].
              intros (Hp & H1 & H2). exfalso.
              destruct IH as [_ IH]. apply IH; [|reflexivity].
              split; [exact Hp|]. simpl length in *. split; [lia|].
              destruct hi as [[|h]|]; simpl in *; try discriminate; lia.
        -- assert (Hstop : (if (lo =? 0)%nat
                            then k (MState pos (c :: l) caps)
                            else None) = None).
           { destruct (lo =? 0)%nat; [apply Hmore; discriminate|].
             reflexivity. }
           rewrite Hstop. split; [congruence | intros (H & _); discriminate].
Qed.

Lemma searchFrom_unfold r pos rest :
  searchFrom r pos rest
  = match matchAt r pos rest with
    | Some m => Some m
    | None =>
        match rest with
        | [] => None
        | _ :: t => searchFrom r (S pos) t
        end
    end.
Proof. destruct rest; reflexivity. Qed.

Lemma searchFrom_bol r k pos l :
  (0 < pos)%nat -> searchFrom (RSeq RBol r) pos l = k -> k = None.
Proof.
  revert pos k. induction l as [|c l IH]; intros pos k Hpos <-; simpl;
    unfold matchAt; simpl;
    destruct (Nat.eqb_spec pos 0); try lia; [reflexivity|].
  eapply IH; [|reflexivity]. lia.
Qed.

Lemma length_chars s : length (chars s) = String.length s.
Proof.
  unfold chars. induction s as [|c s IH]; simpl; [reflexivity|].
  rewrite IH. reflexivity.
Qed.

(** The pattern of interface names, in words: one to fifteen
    characters, each a letter, a digit, an underscore or a hyphen. *)
Lemma valid_iface_test s :
  test WireGuardData.VALID_IFACE_REGEX s = true
  <-> (1 <= String.length s <= 15)%nat
      /\ forallb WireGuardData.isIfaceChar (chars s) = true.
Proof.
  unfold test, exec, WireGuardData.VALID_IFACE_REGEX. cbn [seqs].
  rewrite <- length_chars. generalize (chars s). intros l.
  assert (E : searchFrom
                (RSeq RBol
                   (RSeq (RRep 1 (Some 15%nat)
                            (RChar WireGuardData.isIfaceChar)) REol)) 0 l
              = matchAt
                  (RSeq RBol
                     (RSeq (RRep 1 (Some 15%nat)
                              (RChar WireGuardData.isIfaceChar)) REol)) 0 l).
  { rewrite searchFrom_unfold. destruct (matchAt _ 0 l) eqn:M;
      [reflexivity|].
    destruct l as [|c l]; [reflexivity|].
    eapply searchFrom_bol; [|reflexivity]. lia. }
  rewrite E. unfold matchAt.
  change (rmatch (RSeq RBol (RSeq (RRep ?lo ?hi ?r) REol)) (MState 0 l []) ?k)
    with (repeatGreedy (rmatch r) (fun st1 => rmatch REol st1 k)
            (length l) lo hi (MState 0 l [])).
  match goal with
  | |- context [repeatGreedy ?b ?k ?f ?lo ?hi ?st] =>
      pose proof (repeat_class_to_end WireGuardData.isIfaceChar b k
                    (fun _ _ => eq_refl)) as H
  end.
  match type of H with
  | ?A -> ?B -> _ =>
      assert (HA : A) by (intros st Hst; simpl; destruct (m_rest st);
                          [contradiction | reflexivity]);
      assert (HB : B) by (intros st Hst; simpl; rewrite Hst; discriminate)
  end.
  specialize (H HA HB (length l) 1%nat (Some 15%nat) 0%nat l [] (le_n _)).
  simpl within in H.
  destruct (repeatGreedy _ _ _ _ _ _) eqn:R.
  - split; [intros _|reflexivity].
    destruct H as [H _]. destruct H as (Hp & H1 & H2); [congruence|].
    auto.
  - split; [discriminate|]. intros ((H1 & H2) & Hp). exfalso.
    destruct H as [_ H]. apply H; [|reflexivity]. auto.
Qed.

End RegexFacts.

(** ** WireGuard status text *)

Section StringFacts.

(** Two prefixes of one text are prefixes of one another. *)
Lemma prefixChars_comparable p1 : forall p2 l,
  prefixChars p1 l = true -> prefixChars p2 l = true ->
  prefixChars p1 p2 = true \/ prefixChars p2 p1 = true.
Proof.
  induction p1 as [|a p1 IH]; intros p2 l H1 H2; [left; reflexivity|].
  destruct p2 as [|b p2]; [right; reflexivity|].
  destruct l as [|c l]; [discriminate|]. simpl in *.
  apply andb_prop in H1. destruct H1 as [Ha H1].
  apply andb_prop in H2. destruct H2 as [Hb H2].
  apply Ascii.eqb_eq in Ha. apply Ascii.eqb_eq in Hb. subst.
  rewrite Ascii.eqb_refl. simpl. eapply IH; eassumption.
Qed.

Lemma startsWith_exclusive s k1 k2 :
  startsWith k2 k1 = false -> startsWith k1 k2 = false ->
  startsWith s k1 = true -> startsWith s k2 = false.
Proof.
  unfold startsWith. intros H12 H21 H1.
  destruct (prefixChars (chars k2) (chars s)) eqn:H2; [|reflexivity].
  destruct (prefixChars_comparable _ _ _ H1 H2); congruence.
Qed.

End StringFacts.

Section WgFacts.

Import WireGuard.

Lemma step_marker nowMs st line :
  isMarker line = true ->
  step nowMs st line
  = mkParser (mkWgShow (interface (result st)) (flush st))
      (Some (newPeer (trim line))).
Proof.
  unfold isMarker, step, flush. intros H.
  rewrite (startsWith_exclusive _ "peer:" "public key:" eq_refl eq_refl H).
  rewrite (startsWith_exclusive _ "peer:" "listening port:" eq_refl eq_refl H).
  rewrite H. destruct (currentPeer st); simpl; rewrite ?app_nil_r; reflexivity.
Qed.

Lemma step_other nowMs st line :
  isMarker line = false ->
  peers (result (step nowMs st line)) = peers (result st)
  /\ currentPeer (step nowMs st line)
     = if isDetail line
       then (fun p => peerDetail nowMs p (trim line)) <$> currentPeer st
       else currentPeer st.
Proof.
  unfold isMarker, step, isDetail. intros H. rewrite H.
  destruct (startsWith (trim line) "public key:"); simpl.
  - destruct (currentPeer st) eqn:E; simpl; rewrite ?E; auto.
  - destruct (startsWith (trim line) "listening port:"); simpl; [auto|].
    destruct (currentPeer st) eqn:E; simpl; rewrite ?E; auto.
Qed.

(** The loop, from any state: the peers already flushed, then the
    current peer completed by the lines up to the next marker, then one
    peer per block of the remaining text. *)
Lemma fold_step_flush nowMs lines : forall st,
  flush (fold_left (step nowMs) lines st)
  = (peers (result st)
     ++ option_list
          ((fun p =>
              fold_left (fun p l => peerDetail nowMs p (trim l))
                (filter (fun l => isDetail l = true) (untilMarker lines)) p)
             <$> currentPeer st)
     ++ map (blockPeer nowMs) (peerBlocks lines))%list.
Proof.
  induction lines as [|l lines IH]; intros st.
  - simpl. unfold flush. rewrite app_nil_r.
    destruct (currentPeer st); reflexivity.
  - simpl. rewrite IH. destruct (isMarker l) eqn:M.
    + rewrite (step_marker _ _ _ M). simpl. unfold flush, blockPeer. simpl.
      destruct (currentPeer st); simpl; rewrite <- ?app_assoc; reflexivity.
    + destruct (step_other nowMs st l M) as [Hp Hc]. rewrite Hp, Hc.
      f_equal. f_equal. rewrite filter_cons.
      destruct (isDetail l) eqn:D.
      * rewrite decide_True by reflexivity.
        destruct (currentPeer st); reflexivity.
      * rewrite decide_False by discriminate. reflexivity.
Qed.

Lemma peerBlocks_length lines :
  length (peerBlocks lines)
  = length (filter (fun l => isMarker l = true) lines).
Proof.
  induction lines as [|l lines IH]; [reflexivity|].
  simpl. rewrite filter_cons. destruct (isMarker l) eqn:M.
  - rewrite decide_True by reflexivity. simpl. rewrite IH. reflexivity.
  - rewrite decide_False by discriminate. exact IH.
Qed.

(** A line that starts with one of the three keys of a peer's details
    starts with no other key, and is no line of the interface. *)
Lemma detail_key_exclusive t key :
  key = "endpoint:" \/ key = "latest handshake:" \/ key = "transfer:" ->
  startsWith t key = true ->
  startsWith t "public key:" = false
  /\ startsWith t "listening port:" = false
  /\ (key <> "endpoint:" -> startsWith t "endpoint:" = false)
  /\ (key <> "latest handshake:" ->
      startsWith t "latest handshake:" = false)
  /\ (key <> "transfer:" -> startsWith t "transfer:" = false).
Proof.
  intros Hkey H.
  assert (K : forall k2, startsWith k2 key = false ->
                         startsWith key k2 = false ->
                         startsWith t k2 = false)
    by (intros k2 H1 H2; exact (startsWith_exclusive t key k2 H1 H2 H)).
  destruct Hkey as [-> | [-> | ->]]; repeat split; intros;
    try contradiction; apply K; reflexivity.
Qed.

Lemma valuesOf_cons key l lines :
  WireGuardBlocks.valuesOf key (l :: lines)
  = if startsWith (trim l) key
    then field (trim l) key :: WireGuardBlocks.valuesOf key lines
    else WireGuardBlocks.valuesOf key lines.
Proof.
  unfold WireGuardBlocks.valuesOf. simpl.
  destruct (startsWith (trim l) key); reflexivity.
Qed.

Ltac tidy :=
  cbn [andb orb negb map omap list_omap id publicKey endpoint lastHandshake
       lastHandshakeSeconds received sent].

Ltac lastCases :=
  unfold omap;
  repeat match goal with
         | |- context [match last ?xs with _ => _ end] => destruct (last xs)
         end;
  reflexivity.

(** One line of a block, on the record built so far. *)
Lemma overlay_cons nowMs p l lines :
  WireGuardBlocks.overlay nowMs p (l :: lines)
  = WireGuardBlocks.overlay nowMs
      (if isDetail l then peerDetail nowMs p (trim l) else p) lines.
Proof.
  unfold WireGuardBlocks.overlay, WireGuardBlocks.ages,
    WireGuardBlocks.clauses, WireGuardBlocks.bytesOf, isDetail.
  rewrite !valuesOf_cons.
  destruct (startsWith (trim l) "endpoint:") eqn:He.
  { destruct (detail_key_exclusive _ "endpoint:" ltac:(tauto) He)
      as (K1 & K2 & _ & K4 & K5).
    rewrite K1, K2, K4, K5 by discriminate. tidy.
    unfold peerDetail. rewrite He. tidy. rewrite last_cons.
    lastCases. }
  destruct (startsWith (trim l) "latest handshake:") eqn:Hh.
  { destruct (detail_key_exclusive _ "latest handshake:" ltac:(tauto) Hh)
      as (K1 & K2 & _ & _ & K5).
    rewrite K1, K2, K5 by discriminate. tidy.
    unfold peerDetail. rewrite He, Hh. tidy.
    rewrite last_cons.
    destruct (parseHandshakeTime (field (trim l) "latest handshake:"))
      as [s|] eqn:Hs; tidy; rewrite ?last_cons; lastCases. }
  destruct (startsWith (trim l) "transfer:") eqn:Ht.
  { destruct (detail_key_exclusive _ "transfer:" ltac:(tauto) Ht)
      as (K1 & K2 & _ & _ & _).
    rewrite K1, K2. tidy.
    unfold peerDetail. rewrite He, Hh, Ht. tidy.
    destruct (exec RX_REGEX (field (trim l) "transfer:")) as [rx|];
      destruct (exec TX_REGEX (field (trim l) "transfer:")) as [tx|];
      tidy; rewrite ?last_cons; lastCases. }
  assert (Hp : peerDetail nowMs p (trim l) = p)
    by (unfold peerDetail; rewrite He, Hh, Ht; reflexivity).
  rewrite Hp. destruct (_ && _); reflexivity.
Qed.

Lemma fold_detail nowMs lines : forall p,
  fold_left (fun p l => peerDetail nowMs p (trim l))
    (filter (fun l => isDetail l = true) lines) p
  = WireGuardBlocks.overlay nowMs p lines.
Proof.
  induction lines as [|l lines IH]; intros p.
  - destruct p. reflexivity.
  - rewrite overlay_cons, filter_cons. destruct (isDetail l) eqn:D.
    + rewrite decide_True by reflexivity. simpl. apply IH.
    + rewrite decide_False by discriminate. apply IH.
Qed.

(** The record that the loop builds for a block is the record of the
    block, field by field. *)
Lemma blockPeer_blockRecord nowMs b :
  blockPeer nowMs b = WireGuardBlocks.blockRecord nowMs b.
Proof.
  unfold blockPeer. rewrite fold_detail.
  unfold WireGuardBlocks.overlay, WireGuardBlocks.blockRecord, newPeer.
  simpl. lastCases.
Qed.

(** C6. The peers returned for a status text are, in order, the
    records of its peer blocks: every line that, trimmed, starts with
    [peer:] opens a block and closes the previous one, and the last
    block is added at the end of the input.  The record of a block
    holds the key of its marker line and, for each field, what the last
    line of that block that gives the field says (the lines up to the
    next marker and no others); a field that no line of the block gives
    is null, or 0 for a byte count.  The number of records is the
    number of marker lines; with two markers there are exactly two
    records. *)
Theorem C6_one_peer_per_block nowMs output interfaceName :
  peers (parseWgShow nowMs output interfaceName)
  = map (WireGuardBlocks.blockRecord nowMs) (peerBlocks (splitLines output))
  /\ length (peers (parseWgShow nowMs output interfaceName))
     = length (filter (fun l => isMarker l = true) (splitLines output))
  /\ (length (filter (fun l => isMarker l = true) (splitLines output)) = 2%nat
      -> exists b1 b2,
           peerBlocks (splitLines output) = [b1; b2]
           /\ peers (parseWgShow nowMs output interfaceName)
              = [WireGuardBlocks.blockRecord nowMs b1;
                 WireGuardBlocks.blockRecord nowMs b2]).
Proof.
  assert (E : peers (parseWgShow nowMs output interfaceName)
              = map (WireGuardBlocks.blockRecord nowMs)
                  (peerBlocks (splitLines output))).
  { unfold parseWgShow. simpl.
    match goal with
    | |- context [fold_left ?f ?l ?s] =>
        pose proof (fold_step_flush nowMs l s) as H
    end.
    unfold flush in H at 1. simpl in H.
    rewrite <- (map_ext _ _ (blockPeer_blockRecord nowMs)).
    match goal with
    | |- ?lhs = _ =>
        match type of H with
        | ?lhs' = _ => replace lhs with lhs'; [exact H|]
        end
    end.
    destruct (currentPeer _); simpl; rewrite ?app_nil_r; reflexivity. }
  split; [exact E|]. split.
  - rewrite E, length_map. apply peerBlocks_length.
  - intros H2. rewrite <- peerBlocks_length in H2.
    destruct (peerBlocks (splitLines output)) as [|b1 [|b2 [|b3 bs]]] eqn:B;
      try discriminate.
    exists b1, b2. split; [reflexivity|]. rewrite E. reflexivity.
Qed.

End WgFacts.

Section TransferClaim.

Import WireGuard.




End TransferClaim.

(** ** The WireGuard status operation *)

Section InterfaceNameClaim.

Import WireGuard WireGuardData.

(** C7. When WireGuard monitoring is enabled and the interface name
    the operation works with (the configured one, or [wg0] when none is
    configured) does not match [^[a-zA-Z0-9_-]{1,15}$], the operation
    answers [{ enabled: true, error: 'Invalid WireGuard interface
    name' }] and leaves the store as it was: no command has been
    executed and no file read. *)
Theorem C7_invalid_interface_name_rejected {P : Type} (os : Os) (nowMs : Z)
  (wgConfig : WgConfig) (store : Store P) :
  wg_enabled wgConfig = true ->
  test VALID_IFACE_REGEX (interfaceName wgConfig) = false ->
  getWireGuardData os nowMs (Some wgConfig) store
  = (Ok (WgError "Invalid WireGuard interface name"), store)
  /\ effects (snd (getWireGuardData os nowMs (Some wgConfig) store))
     = effects store.
Proof.
  intros He Hbad. unfold getWireGuardData. rewrite He, Hbad. simpl.
  split; reflexivity.
Qed.

(** The same, with the pattern in words. *)
Corollary invalid_interface_name_in_words {P : Type} (os : Os) (nowMs : Z)
  (wgConfig : WgConfig) (store : Store P) :
  wg_enabled wgConfig = true ->
  ~ ((1 <= String.length (interfaceName wgConfig) <= 15)%nat
     /\ forallb isIfaceChar (chars (interfaceName wgConfig)) = true) ->
  getWireGuardData os nowMs (Some wgConfig) store
  = (Ok (WgError "Invalid WireGuard interface name"), store).
Proof.
  intros He Hbad. unfold getWireGuardData. rewrite He.
  destruct (test VALID_IFACE_REGEX (interfaceName wgConfig)) eqn:T.
  - apply valid_iface_test in T. contradiction.
  - reflexivity.
Qed.

End InterfaceNameClaim.

(** ** Service discovery *)

Section DiscoveryFacts.

Import Discovery.

Lemma tcpLine_cases st line :
  tcpLine st line = st
  \/ exists port,
       linePort TCP_ADDR line = Some port /\ port <= 32767 /\ (port ∉ snd st)
       /\ ((includes line "127.0.0.1" = true
            \/ identify (lineProcess line) port = None)
           /\ tcpLine st line = (fst st, {[port]} ∪ snd st)
           \/ includes line "127.0.0.1" = false
              /\ exists k,
                   identify (lineProcess line) port = Some k
                   /\ tcpLine st line
                      = ((fst st ++ [tcpEntry k port (lineProcess line)])%list,
                         {[port]} ∪ snd st)).
Proof.
  destruct st as [discovered seen]. unfold tcpLine.
  destruct (linePort TCP_ADDR line) as [port|]; [|left; reflexivity].
  destruct (32767 <? port) eqn:Hhi; [left; reflexivity|].
  case_bool_decide as Hseen; [left; reflexivity|]. simpl.
  right. exists port. apply Z.ltb_ge in Hhi.
  repeat split; try assumption.
  destruct (includes line "127.0.0.1") eqn:Hlo; [left; split; auto|].
  destruct (identify (lineProcess line) port) as [k|] eqn:Hid.
  - right. split; [reflexivity|]. exists k. split; reflexivity.
  - left. split; auto.
Qed.

Lemma udpLine_cases st line :
  udpLine st line = st
  \/ exists port k,
       linePort UDP_ADDR line = Some port /\ (port ∉ snd st)
       /\ KNOWN_UDP_SERVICES !! port = Some k
       /\ udpLine st line
          = ((fst st ++ [udpEntry k port])%list, {[port]} ∪ snd st).
Proof.
  destruct st as [discovered seen]. unfold udpLine.
  destruct (linePort UDP_ADDR line) as [port|]; [|left; reflexivity].
  case_bool_decide as Hseen; [left; reflexivity|].
  destruct (KNOWN_UDP_SERVICES !! port) as [k|] eqn:Hk; [|left; reflexivity].
  right. exists port, k. repeat split; assumption.
Qed.

Lemma ports_snoc discovered d (seen : gset Z) :
  ports ((discovered ++ [d])%list, seen) = (ports (discovered, seen) ++ [d_port d])%list.
Proof. unfold ports. simpl. apply map_app. Qed.

(** A port enters the result of the TCP scan only through a line that
    carries it, does not exceed 32767 and is not bound to loopback. *)
Lemma tcpLine_ports st line p :
  In p (ports (tcpLine st line)) ->
  In p (ports st)
  \/ (linePort TCP_ADDR line = Some p /\ p <= 32767 /\ (p ∉ snd st)
      /\ includes line "127.0.0.1" = false).
Proof.
  destruct (tcpLine_cases st line)
    as [-> | (port & Hport & Hle & Hfresh & [[_ ->] | [Hlo (k & _ & ->)]])];
    [tauto | unfold ports; simpl; tauto |].
  rewrite ports_snoc. intros Hin. apply in_app_or in Hin.
  destruct Hin as [Hin | [<- | []]]; [left; exact Hin | right].
  simpl. auto.
Qed.

Lemma udpLine_ports st line p :
  In p (ports (udpLine st line)) ->
  In p (ports st) \/ (linePort UDP_ADDR line = Some p /\ (p ∉ snd st)).
Proof.
  destruct (udpLine_cases st line)
    as [-> | (port & k & Hport & Hfresh & _ & ->)]; [tauto|].
  rewrite ports_snoc. intros Hin. apply in_app_or in Hin.
  destruct Hin as [Hin | [<- | []]]; [left; exact Hin | right].
  simpl. auto.
Qed.

Lemma tcpLine_seen st line p :
  p ∈ snd (tcpLine st line) <->
  p ∈ snd st
  \/ (linePort TCP_ADDR line = Some p /\ p <= 32767 /\ (p ∉ snd st)).
Proof.
  destruct (tcpLine_cases st line)
    as [E | (port & Hport & Hle & Hfresh & [[_ E] | [_ (k & _ & E)]])];
    rewrite E; simpl.
  - split; [tauto|]. intros [H | (H1 & H2 & H3)]; [exact H|].
    exfalso. destruct st as [discovered seen]. unfold tcpLine in E.
    rewrite H1 in E. simpl in *.
    destruct (32767 <? p) eqn:Hhi; [apply Z.ltb_lt in Hhi; lia|].
    rewrite bool_decide_eq_false_2 in E by exact H3. simpl in E.
    assert (Hs : p ∈ snd (discovered, seen)); [|exact (H3 Hs)].
    rewrite <- E.
    destruct (includes line "127.0.0.1"); simpl;
      [apply elem_of_union_l, elem_of_singleton; reflexivity|].
    destruct (identify _ _); simpl;
      apply elem_of_union_l, elem_of_singleton; reflexivity.
  - rewrite elem_of_union, elem_of_singleton. split.
    + intros [-> | H]; [right; auto | left; exact H].
    + intros [H | (H1 & _)]; [right; exact H | left; congruence].
  - rewrite elem_of_union, elem_of_singleton. split.
    + intros [-> | H]; [right; auto | left; exact H].
    + intros [H | (H1 & _)]; [right; exact H | left; congruence].
Qed.

Lemma udpLine_seen st line p :
  p ∈ snd st -> p ∈ snd (udpLine st line).
Proof.
  destruct (udpLine_cases st line)
    as [-> | (port & k & _ & _ & _ & ->)]; [tauto|].
  simpl. set_solver.
Qed.

Lemma tcpLine_shadowed p st line :
  shadowed p st -> shadowed p (tcpLine st line).
Proof.
  intros [Hs Hp]. split.
  - apply tcpLine_seen. left. exact Hs.
  - intros Hin. apply tcpLine_ports in Hin. tauto.
Qed.

Lemma udpLine_shadowed p st line :
  shadowed p st -> shadowed p (udpLine st line).
Proof.
  intros [Hs Hp]. split.
  - apply udpLine_seen, Hs.
  - intros Hin. apply udpLine_ports in Hin. tauto.
Qed.

Lemma fold_shadowed (f : Scan -> string -> Scan) p :
  (forall st line, shadowed p st -> shadowed p (f st line)) ->
  forall lines st, shadowed p st -> shadowed p (fold_left f lines st).
Proof.
  intros Hf lines. induction lines as [|l lines IH]; simpl; intros st Hst.
  - exact Hst.
  - apply IH, Hf, Hst.
Qed.

Lemma fold_tcp_untouched p lines : forall st,
  Forall (fun l => linePort TCP_ADDR l <> Some p) lines ->
  untouched p st -> untouched p (fold_left tcpLine lines st).
Proof.
  induction lines as [|l lines IH]; simpl; intros st Hl Hst; [exact Hst|].
  inversion Hl as [|? ? Hhd Htl]; subst. apply IH; [exact Htl|].
  destruct Hst as [Hs Hp]. split.
  - rewrite tcpLine_seen. tauto.
  - intros Hin. apply tcpLine_ports in Hin. tauto.
Qed.

(** Ports above 32767 never enter the services of the TCP scan. *)
Lemma fold_tcp_high p lines : forall st,
  32767 < p -> ~ In p (ports st) ->
  ~ In p (ports (fold_left tcpLine lines st)).
Proof.
  induction lines as [|l lines IH]; simpl; intros st Hhi Hst; [exact Hst|].
  apply IH; [exact Hhi|]. intros Hin. apply tcpLine_ports in Hin.
  destruct Hin as [Hin | (_ & Hle & _)]; [tauto | lia].
Qed.

Lemma fold_udp_absent p lines : forall st,
  Forall (fun l => linePort UDP_ADDR l <> Some p) lines ->
  ~ In p (ports st) -> ~ In p (ports (fold_left udpLine lines st)).
Proof.
  induction lines as [|l lines IH]; simpl; intros st Hl Hst; [exact Hst|].
  inversion Hl as [|? ? Hhd Htl]; subst. apply IH; [exact Htl|].
  intros Hin. apply udpLine_ports in Hin. tauto.
Qed.

Lemma insertBy_In {A} (cmp : A -> A -> Z) x y l :
  In x (insertBy cmp y l) <-> x = y \/ In x l.
Proof.
  induction l as [|z l IH]; simpl; [intuition congruence|].
  destruct (cmp y z <=? 0); simpl; [intuition congruence|].
  rewrite IH. intuition congruence.
Qed.

Lemma sortBy_In {A} (cmp : A -> A -> Z) x l :
  In x (sortBy cmp l) <-> In x l.
Proof.
  induction l as [|y l IH]; simpl; [tauto|].
  rewrite insertBy_In, IH. intuition congruence.
Qed.

Lemma discover_ports tcpOutput udpOutput p :
  In p (map d_port (discover tcpOutput udpOutput)) <->
  In p (ports (fold_left udpLine (udpLines udpOutput)
                 (fold_left tcpLine (tcpLines tcpOutput) ([], ∅)))).
Proof.
  unfold discover, ports. rewrite !in_map_iff.
  split; intros (d & Hd & Hin); exists d; (split; [exact Hd|]);
    apply sortBy_In in Hin || apply sortBy_In; exact Hin.
Qed.

End DiscoveryFacts.

Section DiscoveryClaims.

Import Discovery Examples.

(** C9. A process whose name is that of a member of
    [Object.prototype] is taken for a known process:
    [KNOWN_PROCESSES[processName]] finds the inherited member, and an
    entry without a name is returned.  The process [toString] listening
    on port 20000 is in neither table, and the port is not below 10000;
    yet the scan returns an entry for it instead of dropping the
    line. *)
Theorem C9_prototype_member_taken_for_known_process :
  KNOWN_PROCESSES !! "toString" = None
  /\ KNOWN_SERVICES !! 20000 = None
  /\ lineProcess toStringLine = Some "toString"
  /\ linePort TCP_ADDR toStringLine = Some 20000
  /\ discover toStringLine ""
     = [mkDiscovered None 20000 "/" "localhost" "server" "tcp" true true
          (Some "toString") None].
Proof. vm_compute. repeat split; reflexivity. Qed.

(** C10 (as amended). When, among the LISTEN lines of the TCP listing,
    the first line whose address gives a certain port is bound to
    127.0.0.1, the port is entered in the seen-set and that line is
    skipped; if the port is not above 32767, it is then absent from the
    result of the scan, whatever lines follow in the TCP and the UDP
    listing.  (A port above 32767 never enters the seen-set; it is
    absent from the result unless a UDP line offers it.) *)
Theorem C10_loopback_first_port_omitted tcpOutput udpOutput pre line post
  port :
  tcpLines tcpOutput = (pre ++ line :: post)%list ->
  Forall (fun l => linePort TCP_ADDR l <> Some port) pre ->
  linePort TCP_ADDR line = Some port ->
  includes line "127.0.0.1" = true ->
  port <= 32767
  \/ Forall (fun l => linePort UDP_ADDR l <> Some port) (udpLines udpOutput) ->
  ~ In port (map d_port (discover tcpOutput udpOutput)).
Proof.
  intros Hlines Hpre Hport Hlo Hcase. rewrite discover_ports, Hlines.
  destruct (Z_le_gt_dec port 32767) as [Hle | Hgt].
  - rewrite fold_left_app. simpl.
    apply (fold_shadowed udpLine port (udpLine_shadowed port)).
    apply (fold_shadowed tcpLine port (tcpLine_shadowed port)).
    pose proof (fold_tcp_untouched port pre ([], ∅) Hpre) as Hu.
    destruct Hu as [Hs Hp]; [split; [set_solver | simpl; tauto]|].
    split.
    + apply tcpLine_seen. right. auto.
    + intros Hin. apply tcpLine_ports in Hin.
      destruct Hin as [Hin | (_ & _ & _ & Hno)]; [tauto | congruence].
  - destruct Hcase as [Hle | Hudp]; [lia|].
    apply fold_udp_absent; [exact Hudp|].
    apply fold_tcp_high; [lia | simpl; tauto].
Qed.

Lemma C10_loopback_first_port_omitted_witness :
  ~ In 8080 (map d_port (discover loopbackFirst8080 wireguardUdp)).
Proof.
  apply (C10_loopback_first_port_omitted loopbackFirst8080 wireguardUdp []
           "LISTEN 0 128 127.0.0.1:8080 0.0.0.0:*"
           ["LISTEN 0 128 0.0.0.0:8080 0.0.0.0:*"] 8080).
  - vm_compute. reflexivity.
  - constructor.
  - vm_compute. reflexivity.
  - vm_compute. reflexivity.
  - left. lia.
Defined.

(** C10 as the implicit claim words it fails: port 51820 first appears
    on a loopback line of the TCP listing and later on a wildcard line,
    yet the scan returns it, from the UDP listing. *)
Lemma C10_port_51820_not_omitted :
  ~ (forall tcpOutput udpOutput pre line post port,
       tcpLines tcpOutput = (pre ++ line :: post)%list ->
       Forall (fun l => linePort TCP_ADDR l <> Some port) pre ->
       linePort TCP_ADDR line = Some port ->
       includes line "127.0.0.1" = true ->
       Exists (fun l => linePort TCP_ADDR l = Some port
                        /\ includes l "127.0.0.1" = false) post ->
       ~ In port (map d_port (discover tcpOutput udpOutput))).
Proof.
  intros H.
  apply (H loopbackFirstTcp wireguardUdp []
           "LISTEN 0 128 127.0.0.1:51820 0.0.0.0:*"
           ["LISTEN 0 128 0.0.0.0:51820 0.0.0.0:*"] 51820).
  - vm_compute. reflexivity.
  - constructor.
  - vm_compute. reflexivity.
  - vm_compute. reflexivity.
  - constructor. split; vm_compute; reflexivity.
  - vm_compute. left. reflexivity.
Qed.

End DiscoveryClaims.

(** ** Promises *)

Section AsyncFacts.

Context {P : Type}.

Lemma yields_ret {A} (a : A) (Q : A -> Prop) :
  Q a -> yields (P:=P) (ret a) Q.
Proof. intros Ha s. exists a, s. split; [reflexivity | exact Ha]. Qed.

Lemma yields_bind {A B} (m : Async P A) (f : A -> Async P B) R Q :
  yields m R -> (forall a, R a -> yields (f a) Q) -> yields (bind m f) Q.
Proof.
  intros Hm Hf s. destruct (Hm s) as (a & s1 & E & Ha).
  destruct (Hf a Ha s1) as (b & s2 & E2 & Hb).
  exists b, s2. unfold bind. rewrite E. split; assumption.
Qed.

Lemma yields_weaken {A} (m : Async P A) (Q Q' : A -> Prop) :
  yields m Q -> (forall a, Q a -> Q' a) -> yields m Q'.
Proof.
  intros Hm HQ s. destruct (Hm s) as (a & s1 & E & Ha).
  exists a, s1. auto.
Qed.

Lemma yields_settles {A} (m : Async P A) Q : yields m Q -> settles m.
Proof.
  intros Hm s. destruct (Hm s) as (a & s1 & E & _). exists s1. eauto.
Qed.

Lemma settles_bind {A B} (m : Async P A) (f : A -> Async P B) :
  settles m -> (forall a, settles (f a)) -> settles (bind m f).
Proof.
  intros Hm Hf s. unfold bind.
  destruct (Hm s) as (s1 & [(a & E) | (e & E)]); rewrite E.
  - apply Hf.
  - exists s1. eauto.
Qed.

Lemma yields_perform (e : Effect) : yields (P:=P) (perform e) (fun _ => True).
Proof. intros s. eexists _, _. split; [reflexivity | exact I]. Qed.

Lemma settles_settle {A} (e : Effect) (o : Outcome A) :
  settles (P:=P) (settle e o).
Proof.
  intros s. unfold settle, bind, perform. destruct o; simpl; eauto.
Qed.

Lemma yields_settle {A} (e : Effect) (a : A) :
  yields (P:=P) (settle e (Done a)) (fun x => x = a).
Proof. intros s. eexists _, _. split; reflexivity. Qed.

Lemma rejects_settle {A} (e : Effect) msg :
  rejects (P:=P) (settle (A:=A) e (Failed msg)).
Proof. intros s. eexists _, _. reflexivity. Qed.

Lemma rejects_bind_l {A B} (m : Async P A) (f : A -> Async P B) :
  rejects m -> rejects (bind m f).
Proof.
  intros Hm s. destruct (Hm s) as (e & s1 & E).
  exists e, s1. unfold bind. rewrite E. reflexivity.
Qed.

Lemma rejects_bind_r {A B} (m : Async P A) (f : A -> Async P B) :
  settles m -> (forall a, rejects (f a)) -> rejects (bind m f).
Proof.
  intros Hm Hf s. unfold bind.
  destruct (Hm s) as (s1 & [(a & E) | (e & E)]); rewrite E.
  - apply Hf.
  - eauto.
Qed.

(** A [catch] whose handler is fulfilled makes the whole fulfilled. *)
Lemma yields_tryCatch {A} (m : Async P A) h (Q : A -> Prop) :
  settles m ->
  (forall s a s', m s = (Ok a, s') -> Q a) ->
  (forall e, yields (h e) Q) ->
  yields (tryCatch m h) Q.
Proof.
  intros Hm Hok Hh s. unfold tryCatch.
  destruct (Hm s) as (s1 & [(a & E) | (e & E)]); rewrite E.
  - exists a, s1. split; [reflexivity | eapply Hok, E].
  - apply Hh.
Qed.

Lemma yields_tryCatch_any {A} (m : Async P A) h :
  settles m ->
  (forall e, yields (h e) (fun _ => True)) ->
  yields (tryCatch m h) (fun _ => True).
Proof. intros Hm Hh. apply yields_tryCatch; auto. Qed.

Lemma yields_tryCatch_rejects {A} (m : Async P A) h (Q : A -> Prop) :
  rejects m -> (forall e, yields (h e) Q) -> yields (tryCatch m h) Q.
Proof.
  intros Hm Hh s. unfold tryCatch.
  destruct (Hm s) as (e & s1 & E). rewrite E. apply Hh.
Qed.

Lemma yields_both {A B} (a : Async P A) (b : Async P B) QA QB :
  yields a QA -> yields b QB ->
  yields (both a b) (fun p => QA (fst p) /\ QB (snd p)).
Proof.
  intros Ha Hb s. unfold both.
  destruct (Ha s) as (x & s1 & E1 & Hx). rewrite E1.
  destruct (Hb s1) as (y & s2 & E2 & Hy). rewrite E2.
  exists (x, y), s2. auto.
Qed.

Lemma settles_both {A B} (a : Async P A) (b : Async P B) :
  settles a -> settles b -> settles (both a b).
Proof.
  intros Ha Hb s. unfold both.
  destruct (Ha s) as (s1 & [(x & E1) | (e & E1)]); rewrite E1;
    destruct (Hb s1) as (s2 & [(y & E2) | (e' & E2)]); rewrite E2;
    exists s2; eauto.
Qed.

Lemma rejects_both_l {A B} (a : Async P A) (b : Async P B) :
  rejects a -> rejects (both a b).
Proof.
  intros Ha s. unfold both. destruct (Ha s) as (e & s1 & E). rewrite E.
  destruct (b s1) as [rb s2]. eauto.
Qed.

Lemma rejects_both_r {A B} (a : Async P A) (b : Async P B) :
  rejects b -> rejects (both a b).
Proof.
  intros Hb s. unfold both. destruct (a s) as [ra s1].
  destruct (Hb s1) as (e & s2 & E). rewrite E.
  destruct ra; eauto.
Qed.

Lemma settles_tryCatch {A} (m : Async P A) h :
  settles m -> (forall e, settles (h e)) -> settles (tryCatch m h).
Proof.
  intros Hm Hh s. unfold tryCatch.
  destruct (Hm s) as (s1 & [(a & E) | (e & E)]); rewrite E.
  - exists s1. eauto.
  - apply Hh.
Qed.

Lemma rejects_tryCatch {A} (m : Async P A) h :
  rejects m -> (forall e, rejects (h e)) -> rejects (tryCatch m h).
Proof.
  intros Hm Hh s. unfold tryCatch.
  destruct (Hm s) as (e & s1 & E). rewrite E. apply Hh.
Qed.

End AsyncFacts.

Section AggregatorFacts.

Import WireGuardData Aggregator.

Context {P : Type}.
Variable os : Os.
Variable host : Host P.
Variable numCpus : Z.
Variable nowMs : Z.

Lemma yields_getStore : yields (P:=P) getStore (fun _ => True).
Proof. intros s. eexists _, _. split; [reflexivity | exact I]. Qed.

Lemma yields_putCpuCache c : yields (P:=P) (putCpuCache c) (fun _ => True).
Proof. intros s. eexists _, _. split; [reflexivity | exact I]. Qed.

Lemma yields_putStaticCache c :
  yields (P:=P) (putStaticCache c) (fun _ => True).
Proof. intros s. eexists _, _. split; [reflexivity | exact I]. Qed.

Ltac async_step :=
  match goal with
  | |- settles (bind _ _) => apply settles_bind; [|intros ?]
  | |- settles (settle _ _) => apply settles_settle
  | |- settles (both _ _) => apply settles_both
  | |- settles (tryCatch _ _) => apply settles_tryCatch; [|intros ?]
  | |- settles (ret _) =>
      eapply yields_settles, (yields_ret _ (fun _ => True) I)
  | |- settles getStore => eapply yields_settles, yields_getStore
  | |- settles (putCpuCache _) => eapply yields_settles, yields_putCpuCache
  | |- settles (putStaticCache _) =>
      eapply yields_settles, yields_putStaticCache
  | |- settles (match ?x with _ => _ end) => destruct x
  | |- yields (ret _) (fun _ => True) => apply yields_ret; exact I
  | |- yields getStore (fun _ => True) => apply yields_getStore
  | |- yields (putCpuCache _) (fun _ => True) => apply yields_putCpuCache
  | |- yields (putStaticCache _) (fun _ => True) =>
      apply yields_putStaticCache
  | |- yields (bind _ _) (fun _ => True) =>
      eapply yields_bind with (R := fun _ => True); [|intros ? _]
  | |- yields (tryCatch _ _) (fun _ => True) =>
      apply yields_tryCatch_any; [|intros ?]
  | |- yields (match ?x with _ => _ end) _ => destruct x
  end.

Ltac async := repeat async_step.

Lemma yields_readCgroupCpuUsage containerId :
  yields (readCgroupCpuUsage (P:=P) os containerId) (fun _ => True).
Proof. unfold readCgroupCpuUsage, readFileSync. async. Qed.

Lemma yields_cpuPercentOf containerId usage :
  yields (cpuPercentOf (P:=P) numCpus nowMs containerId usage)
    (fun _ => True).
Proof. unfold cpuPercentOf. async. Qed.

Lemma yields_containerStats memTotalKB statsMap fullId :
  yields (containerStats os host numCpus nowMs memTotalKB statsMap fullId)
    (fun _ => True).
Proof.
  unfold containerStats, dockerApiGet, readFileSync. async.
  - eapply yields_settles, yields_readCgroupCpuUsage.
  - eapply yields_settles, yields_cpuPercentOf.
Qed.

Lemma yields_forEach {A S} (f : S -> A -> Async P S) l :
  (forall s x, yields (f s x) (fun _ => True)) ->
  forall s, yields (forEach f l s) (fun _ => True).
Proof.
  intros Hf. induction l as [|x l IH]; intros s; simpl.
  - apply yields_ret. exact I.
  - eapply yields_bind; [apply Hf | intros s' _; apply IH].
Qed.

(** [getDockerContainerStats] is always fulfilled. *)
Lemma yields_getDockerContainerStats :
  yields (getDockerContainerStats os host numCpus nowMs) (fun _ => True).
Proof.
  unfold getDockerContainerStats, dockerApiGet, readFileSync. async.
  eapply yields_settles, yields_forEach. intros ? ?.
  apply yields_containerStats.
Qed.

(** The container block is always fulfilled, with the empty list when
    the inventory cannot be had. *)
Lemma yields_getContainers :
  yields (getContainers os host numCpus nowMs)
    (fun containers =>
       (exists e, si_dockerContainers host = Failed e) -> containers = []).
Proof.
  unfold getContainers, lib.
  destruct (si_dockerContainers host) as [cs | e] eqn:E.
  - apply yields_weaken with (Q := fun _ => True);
      [|intros a _ [e' He']; discriminate].
    async. eapply yields_settles, yields_getDockerContainerStats.
  - apply yields_tryCatch_rejects.
    + apply rejects_bind_l, rejects_settle.
    + intros e'. apply yields_ret. reflexivity.
Qed.

(** [getWireGuardData] is always fulfilled. *)
Lemma yields_getWireGuardData wireguard :
  yields (getWireGuardData (P:=P) os nowMs wireguard) (fun _ => True).
Proof.
  unfold getWireGuardData, execAsync, readFile. cbv zeta.
  repeat match goal with
         | |- yields (if ?b then _ else _) _ => destruct b
         end; async.
Qed.

End AggregatorFacts.

Section SnapshotFacts.

Import Probe WireGuardData Aggregator.

Context {P : Type}.
Variable os : Os.
Variable host : Host P.
Variable numCpus : Z.
Variable nowMs : Z.

Lemma failed_false {A} (o : Outcome A) :
  failed o = false -> exists a, o = Done a.
Proof. destruct o; [eauto | discriminate]. Qed.

Lemma failed_true {A} (o : Outcome A) :
  failed o = true -> exists e, o = Failed e.
Proof. destruct o; [discriminate | eauto]. Qed.

Lemma yields_both_any {A B} (a : Async P A) (b : Async P B) :
  yields a (fun _ => True) -> yields b (fun _ => True) ->
  yields (both a b) (fun _ => True).
Proof.
  intros Ha Hb. eapply yields_weaken; [apply (yields_both _ _ _ _ Ha Hb)|].
  auto.
Qed.

Lemma yields_lib {A} name (o : Outcome A) :
  failed o = false -> yields (P:=P) (lib name o) (fun _ => True).
Proof.
  intros H. destruct (failed_false _ H) as [a ->]. unfold lib.
  eapply yields_weaken; [apply yields_settle | auto].
Qed.

Lemma rejects_lib {A} name (o : Outcome A) :
  failed o = true -> rejects (P:=P) (lib name o).
Proof.
  intros H. destruct (failed_true _ H) as [e ->]. apply rejects_settle.
Qed.

Lemma yields_lib_caught {A} name (o : Outcome A) (d : A) :
  yields (P:=P) (tryCatch (lib name o) (fun _ => ret d)) (fun _ => True).
Proof.
  apply yields_tryCatch_any; [apply settles_settle|].
  intros e. apply yields_ret. exact I.
Qed.

Lemma yields_tryCatch_ok {A} (m : Async P A) h (Q : A -> Prop) :
  yields m Q -> yields (tryCatch m h) Q.
Proof.
  intros Hm s. destruct (Hm s) as (a & s1 & E & Ha).
  exists a, s1. unfold tryCatch. rewrite E. auto.
Qed.

(** With the host metrics at hand, [getSystemStats] is fulfilled; its
    container list is empty when the inventory cannot be had. *)
Lemma yields_getSystemStats :
  hostMetricsFail host = false ->
  yields (getSystemStats os host numCpus nowMs)
    (fun stats =>
       (exists e, si_dockerContainers host = Failed e) ->
       st_containers stats = []).
Proof.
  unfold hostMetricsFail. intros H.
  repeat (apply orb_false_elim in H; destruct H as [H ?]).
  unfold getSystemStats.
  eapply yields_bind; [apply yields_getStore | intros s0 _].
  eapply yields_bind with (R := fun _ => True).
  { destruct (isNone _ || _).
    - eapply yields_bind with (R := fun _ => True).
      + apply yields_both_any;
          [apply yields_lib; assumption | apply yields_lib_caught].
      + intros [osInfo networkInterfaces] _. apply yields_ret. exact I.
    - apply yields_ret. exact I. }
  intros sc _.
  eapply yields_bind; [apply yields_putStaticCache | intros _ _].
  eapply yields_bind with (R := fun _ => True).
  { destruct (_ <? _); apply yields_ret; exact I. }
  intros sc' _.
  eapply yields_bind; [apply yields_putStaticCache | intros _ _].
  eapply yields_bind with (R := fun _ => True).
  { repeat (apply yields_both_any;
            [first [apply yields_lib; assumption | apply yields_lib_caught]|]).
    apply yields_lib_caught. }
  intros (cpu & mem & temp & time & networkStats & cpuSpeed) _.
  eapply yields_bind; [apply yields_getContainers|].
  intros containers Hc. apply yields_ret. exact Hc.
Qed.

Lemma yields_getSystemInfo :
  hostMetricsFail host = false ->
  yields (getSystemInfo host) (fun _ => True).
Proof.
  unfold hostMetricsFail. intros H.
  repeat (apply orb_false_elim in H; destruct H as [H ?]).
  unfold getSystemInfo.
  eapply yields_bind with (R := fun _ => True).
  { repeat (apply yields_both_any; [apply yields_lib; assumption|]).
    apply yields_lib; assumption. }
  intros (cpu & system & mem & osInfo & baseboard) _.
  apply yields_ret. exact I.
Qed.

(** The probes, awaited together, give the results of the services in
    order. *)
Lemma yields_all_checkService services :
  Forall (fun s => settled (probe s nowMs (callbacks host s))) services ->
  yields (all (map (checkService (P:=P) host nowMs) services))
    (probeResults host nowMs services).
Proof.
  unfold probeResults.
  induction services as [|sv services IH]; intros Hs; simpl.
  - apply yields_ret. constructor.
  - inversion Hs as [|? ? [r Hr] Htl]; subst. specialize (IH Htl).
    intros s. unfold both, checkService at 1. rewrite Hr.
    destruct (IH s) as (rs & s' & E & Hrs). rewrite E.
    exists (r :: rs), s'. split; [reflexivity|]. constructor; assumption.
Qed.

(** A fulfilled promise has not been rejected, and conversely. *)
Lemma probe_exclusive service tr :
  p_resolved (probe service nowMs tr) = None
  \/ p_rejected (probe service nowMs tr) = None.
Proof.
  unfold probe. apply run_invariant.
  - left. apply start_pending, checkService_cases.
  - intros message. left. apply failed_unresolved, checkService_cases.
  - intros st ev Hst.
    destruct (checkService_cases service) as [E | [E | [E | [E | E]]]];
      rewrite E; destruct ev; simpl; try exact Hst;
      repeat match goal with
             | |- context [if ?b then _ else _] => destruct b
             end;
      try exact Hst; unfold resolve; simpl;
      destruct (p_resolved st) eqn:R1; destruct (p_rejected st) eqn:R2;
      simpl; rewrite ?R1, ?R2; auto; destruct Hst; congruence.
Qed.

(** One probe whose promise is rejected makes the promise of all the
    probes reject, whatever the others do. *)
Lemma rejects_all_checkService services :
  Exists (fun s => rejected (probe s nowMs (callbacks host s))) services ->
  rejects (all (map (checkService (P:=P) host nowMs) services)).
Proof.
  induction 1 as [sv services [message Hrej] | sv services _ IH];
    intros s; simpl; unfold both.
  - unfold checkService at 1. cbv zeta.
    destruct (probe_exclusive sv (callbacks host sv)) as [E | E];
      [|congruence].
    rewrite E, Hrej.
    destruct (all (map (checkService host nowMs) services) s)
      as [[rs | e | ] s'];
      eauto.
  - destruct (checkService host nowMs sv s) as [r s1] eqn:E1.
    destruct (IH s1) as (e & s2 & E2). rewrite E2.
    destruct r; eauto.
Qed.

(** When the status command fails twice, the operation reports it. *)
Lemma yields_getWireGuardData_failure settings message :
  statusCommandFails os settings message ->
  yields (getWireGuardData (P:=P) os nowMs (set_wireguard settings))
    (fun d => d = WgError ("Failed to get WireGuard status: " ++ message)).
Proof.
  intros (wgConfig & first & -> & He & Hv & H1 & H2) s.
  unfold getWireGuardData. rewrite He, Hv. simpl.
  unfold tryCatch, bind, execAsync, settle, bind, perform.
  rewrite H1. simpl. rewrite H2. simpl.
  eexists _, _. split; reflexivity.
Qed.

Lemma yields_getWireGuardData_reports settings :
  yields (getWireGuardData (P:=P) os nowMs (set_wireguard settings))
    (fun d =>
       forall message,
         statusCommandFails os settings message ->
         d = WgError ("Failed to get WireGuard status: " ++ message)).
Proof.
  intros s.
  destruct (yields_getWireGuardData (P:=P) os nowMs
              (set_wireguard settings) s) as (d & s' & E & _).
  exists d, s'. split; [exact E|]. intros message Hf.
  destruct (yields_getWireGuardData_failure settings message Hf s)
    as (d' & s'' & E' & ->).
  congruence.
Qed.

End SnapshotFacts.

Section SnapshotClaim.

Import Probe WireGuardData Aggregator.

Context {P : Type}.
Variable os : Os.
Variable host : Host P.
Variable numCpus : Z.
Variable nowMs : Z.

Lemma settles_lib {A} name (o : Outcome A) : settles (P:=P) (lib name o).
Proof. apply settles_settle. Qed.

(** A failing read of the load, the temperature or the uptime makes
    [getSystemStats] reject. *)
Lemma rejects_getSystemStats :
  failed (si_currentLoad host) || failed (si_mem host)
  || failed (si_cpuTemperature host) || failed (si_time host) = true ->
  rejects (getSystemStats os host numCpus nowMs).
Proof.
  intros H. unfold getSystemStats.
  apply rejects_bind_r; [eapply yields_settles, yields_getStore | intros s0].
  apply rejects_bind_r.
  { destruct (isNone _ || _).
    - apply settles_bind.
      + apply settles_both; [apply settles_lib|].
        eapply yields_settles, yields_lib_caught.
      + intros [osInfo networkInterfaces].
        eapply yields_settles, (yields_ret _ (fun _ => True) I).
    - eapply yields_settles, (yields_ret _ (fun _ => True) I). }
  intros sc.
  apply rejects_bind_r;
    [eapply yields_settles, yields_putStaticCache | intros _].
  apply rejects_bind_r.
  { destruct (_ <? _);
      eapply yields_settles, (yields_ret _ (fun _ => True) I). }
  intros sc'.
  apply rejects_bind_r;
    [eapply yields_settles, yields_putStaticCache | intros _].
  apply rejects_bind_l.
  repeat (apply orb_prop in H; destruct H as [H | H]).
  - apply rejects_both_l, rejects_lib, H.
  - apply rejects_both_r, rejects_both_l, rejects_lib, H.
  - apply rejects_both_r, rejects_both_r, rejects_both_l, rejects_lib, H.
  - apply rejects_both_r, rejects_both_r, rejects_both_r, rejects_both_l,
      rejects_lib, H.
Qed.

Lemma rejects_getSystemInfo :
  failed (si_cpu host) || failed (si_system host) || failed (si_mem host)
  || failed (si_osInfo host) || failed (si_baseboard host) = true ->
  rejects (getSystemInfo host).
Proof.
  intros H. unfold getSystemInfo. apply rejects_bind_l.
  repeat (apply orb_prop in H; destruct H as [H | H]).
  - apply rejects_both_l, rejects_lib, H.
  - apply rejects_both_r, rejects_both_l, rejects_lib, H.
  - apply rejects_both_r, rejects_both_r, rejects_both_l, rejects_lib, H.
  - apply rejects_both_r, rejects_both_r, rejects_both_r, rejects_both_l,
      rejects_lib, H.
  - apply rejects_both_r, rejects_both_r, rejects_both_r, rejects_both_r,
      rejects_lib, H.
Qed.

(** C3 (as amended). In a poll of [/api/v1/system]: if the reads of
    host metrics succeed and every probe is fulfilled with a result,
    the snapshot is returned whatever happens in the other branches; a
    service that its probe finds down appears in it with the result of
    that probe, a container inventory that cannot be had leaves an
    empty container list, and a VPN status command that fails sets the
    error field of the VPN part.  If a read of host metrics fails, or
    if the promise of a probe is rejected, the poll is answered with
    the error 500 [Failed to fetch system data] instead of a
    snapshot. *)
Theorem C3_snapshot_under_partial_failure (settings : Settings)
  (store : Store P) :
  (hostMetricsFail host = false ->
   Forall (fun s => settled (probe s nowMs (callbacks host s)))
     (loadServices settings) ->
   exists snap store',
     apiV1System os host numCpus nowMs settings store
     = (Ok (Json200 snap), store')
     /\ probeResults host nowMs (loadServices settings) (sn_services snap)
     /\ ((exists e, si_dockerContainers host = Failed e) ->
         st_containers (sn_stats snap) = [])
     /\ (forall message,
           statusCommandFails os settings message ->
           sn_wireguard snap
           = Some (WgError ("Failed to get WireGuard status: " ++ message))))
  /\ (hostMetricsFail host = true ->
      exists store',
        apiV1System os host numCpus nowMs settings store
        = (Ok (Json500 "Failed to fetch system data"), store'))
  /\ (Exists (fun s => rejected (probe s nowMs (callbacks host s)))
        (loadServices settings) ->
      exists store',
        apiV1System os host numCpus nowMs settings store
        = (Ok (Json500 "Failed to fetch system data"), store')).
Proof.
  assert (Abort : rejects (both (getSystemStats os host numCpus nowMs)
                             (both (getSystemInfo host)
                                (both (getWireGuardData os nowMs
                                         (set_wireguard settings))
                                   (all (map (checkService host nowMs)
                                           (loadServices settings)))))) ->
                  exists store',
                    apiV1System os host numCpus nowMs settings store
                    = (Ok (Json500 "Failed to fetch system data"), store')).
  { intros R.
    assert (Y : yields (apiV1System os host numCpus nowMs settings)
                  (fun resp => resp = Json500 "Failed to fetch system data")).
    { unfold apiV1System. apply yields_tryCatch_rejects.
      - apply rejects_bind_l, R.
      - intros e. apply yields_ret. reflexivity. }
    destruct (Y store) as (resp & store' & E & ->).
    exists store'. exact E. }
  split; [|split].
  - intros Hok Hprobes.
    assert (Y : yields (apiV1System os host numCpus nowMs settings)
                  (fun resp =>
                     exists snap,
                       resp = Json200 snap
                       /\ probeResults host nowMs (loadServices settings)
                            (sn_services snap)
                       /\ ((exists e, si_dockerContainers host = Failed e) ->
                           st_containers (sn_stats snap) = [])
                       /\ (forall message,
                             statusCommandFails os settings message ->
                             sn_wireguard snap
                             = Some (WgError
                                       ("Failed to get WireGuard status: "
                                        ++ message))))).
    { unfold apiV1System. apply yields_tryCatch_ok.
      eapply yields_bind.
      - apply yields_both; [apply (yields_getSystemStats _ _ _ _ Hok)|].
        apply yields_both; [apply (yields_getSystemInfo _ Hok)|].
        apply yields_both;
          [|apply (yields_all_checkService _ _ _ Hprobes)].
        apply yields_getWireGuardData_reports.
      - intros (stats & info & wireguard & services).
        simpl. intros (Hs & _ & Hw & Hp). apply yields_ret.
        eexists. split; [reflexivity|]. simpl.
        split; [exact Hp|]. split; [exact Hs|].
        intros message Hf. rewrite (Hw message Hf). reflexivity. }
    destruct (Y store) as (resp & store' & E & snap & -> & H1 & H2 & H3).
    exists snap, store'. auto.
  - intros Hfail. apply Abort.
    unfold hostMetricsFail in Hfail.
    destruct (failed (si_cpu host) || failed (si_system host)
              || failed (si_mem host) || failed (si_osInfo host)
              || failed (si_baseboard host)) eqn:Hinfo.
    + apply rejects_both_r, rejects_both_l, rejects_getSystemInfo, Hinfo.
    + apply rejects_both_l, rejects_getSystemStats.
      repeat (apply orb_false_elim in Hinfo; destruct Hinfo as [Hinfo ?]).
      repeat match goal with
             | E : failed _ = false |- _ => rewrite E in *; clear E
             end.
      simpl in *. rewrite ?orb_false_r in *. exact Hfail.
  - intros Hrej. apply Abort.
    apply rejects_both_r, rejects_both_r, rejects_both_r.
    apply rejects_all_checkService, Hrej.
Qed.

End SnapshotClaim.

Section SnapshotExamples.

Import Probe WireGuardData Aggregator Examples.

Lemma C3_snapshot_under_partial_failure_witness :
  exists snap store',
    apiV1System deadOs plainHost 4 0 someSettings emptyStore
    = (Ok (Json200 snap), store')
    /\ probeResults plainHost 0 (loadServices someSettings) (sn_services snap)
    /\ ((exists e, si_dockerContainers plainHost = Failed e) ->
        st_containers (sn_stats snap) = [])
    /\ (forall message,
          statusCommandFails deadOs someSettings message ->
          sn_wireguard snap
          = Some (WgError ("Failed to get WireGuard status: " ++ message))).
Proof.
  apply (C3_snapshot_under_partial_failure deadOs plainHost 4 0 someSettings
           emptyStore).
  - reflexivity.
  - repeat constructor. eexists. reflexivity.
Defined.

(** C3 as the specification words it fails: on a host where the only
    failure is that of the memory read, with no service to probe and
    VPN monitoring off, no snapshot is returned. *)
Lemma C3_host_read_failure_aborts_poll :
  ~ (forall (os : Os) (host : Host unit) numCpus nowMs settings store,
       Forall (fun s => settled (probe s nowMs (callbacks host s)))
         (loadServices settings) ->
       exists snap store',
         apiV1System os host numCpus nowMs settings store
         = (Ok (Json200 snap), store')).
Proof.
  intros H.
  destruct (H quietOs memlessHost 4 0 noSettings emptyStore
              ltac:(constructor)) as (snap & store' & E).
  assert (E' : fst (apiV1System quietOs memlessHost 4 0 noSettings emptyStore)
               = Ok (Json500 "Failed to fetch system data"))
    by (vm_compute; reflexivity).
  rewrite E in E'. discriminate E'.
Qed.

(** One health check whose promise is rejected: with every read of
    host metrics succeeding, a TCP service down and a resolver given by
    name, the poll is answered with the error 500; without the
    resolver it is answered with a snapshot. *)
Example rejected_probe_aborts_poll :
  hostMetricsFail healthyHost = false
  /\ fst (apiV1System quietOs healthyHost 4 0 resolverSettings emptyStore)
     = Ok (Json500 "Failed to fetch system data")
  /\ exists snap,
       fst (apiV1System quietOs healthyHost 4 0
              (mkSettings None [exampleService "tcp"]) emptyStore)
       = Ok (Json200 snap).
Proof.
  split; [reflexivity|]. split; [vm_compute; reflexivity|].
  eexists. vm_compute. reflexivity.
Qed.

Lemma C7_invalid_interface_name_rejected_witness :
  getWireGuardData quietOs 0
    (Some (mkWgConfig true (Some "wg0; rm -rf /"))) emptyStore
  = (Ok (WgError "Invalid WireGuard interface name"), emptyStore)
  /\ effects (snd (getWireGuardData quietOs 0
                     (Some (mkWgConfig true (Some "wg0; rm -rf /")))
                     emptyStore))
     = effects emptyStore.
Proof.
  apply (C7_invalid_interface_name_rejected quietOs 0
           (mkWgConfig true (Some "wg0; rm -rf /")) emptyStore).
  - reflexivity.
  - vm_compute. reflexivity.
Defined.

(** With a name that passes the pattern the commands are executed. *)
Example valid_interface_name_executes :
  effects (snd (getWireGuardData quietOs 0
                  (Some (mkWgConfig true (Some "wg0"))) emptyStore))
  = [Exec "wg show wg0"; Exec "pivpn -l"].
Proof. vm_compute. reflexivity. Qed.

Example interface_pattern_examples :
  test VALID_IFACE_REGEX "wg0" = true
  /\ test VALID_IFACE_REGEX "wg-home_2" = true
  /\ test VALID_IFACE_REGEX "" = false
  /\ test VALID_IFACE_REGEX "wg0; rm -rf /" = false
  /\ test VALID_IFACE_REGEX "a234567890123456" = false
  /\ test VALID_IFACE_REGEX "a23456789012345" = true.
Proof. vm_compute. repeat split; reflexivity. Qed.

End SnapshotExamples.

Section ParserExamples.

Import WireGuard Examples.

Lemma C6_one_peer_per_block_witness :
  exists b1 b2,
    peerBlocks (splitLines twoPeers) = [b1; b2]
    /\ peers (parseWgShow 1700000000000 twoPeers "wg0")
       = [WireGuardBlocks.blockRecord 1700000000000 b1;
          WireGuardBlocks.blockRecord 1700000000000 b2].
Proof.
  apply (C6_one_peer_per_block 1700000000000 twoPeers "wg0").
  vm_compute. reflexivity.
Defined.

Example two_peers_parsed :
  peers (parseWgShow 1700000000000 twoPeers "wg0")
  = [mkPeer "AAAA" (Some "192.0.2.1:4242") (Some 1699999938) (Some 62)
       (Num 3827302) (Num 18045993);
     mkPeer "BBBB" None None None (Num 0) (Num 0)].
Proof. vm_compute. reflexivity. Qed.

Example two_peers_records :
  map (WireGuardBlocks.blockRecord 1700000000000)
    (peerBlocks (splitLines twoPeers))
  = [mkPeer "AAAA" (Some "192.0.2.1:4242") (Some 1699999938) (Some 62)
       (Num 3827302) (Num 18045993);
     mkPeer "BBBB" None None None (Num 0) (Num 0)].
Proof. vm_compute. reflexivity. Qed.

Example handshake_examples :
  parseHandshakeTime "3 minutes, 20 seconds ago" = Some 200
  /\ parseHandshakeTime "1 hour ago" = Some 3600
  /\ parseHandshakeTime "" = None
  /\ parseHandshakeTime "Now" = None.
Proof. vm_compute. repeat split; reflexivity. Qed.

End ParserExamples.

(** * Further properties of the code *)

(** ** Health checks: how a promise is finalised *)

Section ProbeFinalisation.

Import Probe ProbeClock.

Ltac case_ifs :=
  repeat match goal with
         | |- context [if ?b then _ else _] => destruct b eqn:?
         end.

Lemma on_keeps_result h service start st ev r :
  h = checkTcpService \/ h = checkRedisService \/ h = checkDnsService
  \/ h = checkInterfaceService \/ h = checkHttpService ->
  p_resolved st = Some r ->
  p_resolved (h_on h service start st ev) = Some r.
Proof.
  intros [-> | [-> | [-> | [-> | ->]]]] Hr; destruct ev; simpl;
    case_ifs; unfold resolve; simpl; rewrite ?Hr; simpl; rewrite ?Hr;
    reflexivity.
Qed.

(** X1. A probe is finalised once: the result with which its promise
    has been settled is not changed by any callback that runs later
    (a late answer after the timeout, an error after the answer). *)
Theorem X1_probe_settles_once service start tr tr' r :
  p_resolved (probe service start tr) = Some r ->
  p_resolved (probe service start (tr ++ tr')) = Some r.
Proof.
  intros Hr. unfold probe in *.
  assert (Hne : tr <> []).
  { intros ->. unfold run in Hr. simpl in Hr.
    rewrite (start_pending _ _ _ (checkService_cases service)) in Hr.
    discriminate. }
  rewrite (run_app _ _ _ _ _ Hne).
  revert Hr. generalize (run (checkService service) service start tr).
  induction tr' as [|ev tr' IH]; simpl; intros st Hr; [exact Hr|].
  apply IH, on_keeps_result; [apply checkService_cases | exact Hr].
Qed.

Lemma X1_probe_settles_once_witness :
  p_resolved (probe (exampleService "tcp") 0
                ([EvTimer 3000] ++ [EvConnect 3004]))
  = Some (offlineResult (exampleService "tcp")).
Proof.
  apply (X1_probe_settles_once (exampleService "tcp") 0 [EvTimer 3000]
           [EvConnect 3004]).
  reflexivity.
Defined.

Lemma on_timerReleased h service start st ev :
  h = checkTcpService \/ h = checkRedisService \/ h = checkDnsService
  \/ h = checkHttpService ->
  timerReleased st -> timerReleased (h_on h service start st ev).
Proof.
  unfold timerReleased.
  intros [-> | [-> | [-> | ->]]] Hst; destruct ev; simpl;
    try exact Hst; case_ifs; try exact Hst;
    unfold resolve; simpl; destruct (p_resolved st) eqn:E;
    destruct (p_rejected st) eqn:R; simpl;
    rewrite ?E; intros; try reflexivity; try congruence;
    try (apply Hst; congruence).
Qed.

(** The check of an interface never has a timer. *)
Lemma interface_no_timer service start tr :
  p_timer (run checkInterfaceService service start tr) = false.
Proof.
  apply run_invariant; [reflexivity | reflexivity |].
  intros st [] Hst; simpl; try exact Hst.
  unfold resolve. destruct (p_resolved st); [exact Hst|].
  destruct (p_rejected st); exact Hst.
Qed.

(** X2. Whatever the checkType and the course of callbacks, a probe
    that is settled has no timer pending: every path that resolves the
    promise has cleared the 3000 ms timer, or is the timer itself. *)
Theorem X2_settled_probe_has_no_timer service start tr r :
  p_resolved (probe service start tr) = Some r ->
  p_timer (probe service start tr) = false.
Proof.
  intros Hr. unfold probe in *.
  destruct (checkService_cases service) as [E | [E | [E | [E | E]]]];
    rewrite E in *; try apply interface_no_timer;
    (assert (H : timerReleased (run (checkService service) service start tr));
     [ apply run_invariant;
       [ intros Hne; exfalso; apply Hne;
         apply start_pending, checkService_cases
       | intros message Hne; exfalso; apply Hne;
         apply failed_unresolved, checkService_cases
       | intros st ev; apply on_timerReleased; rewrite E; tauto ]
     | rewrite E in H; apply H; congruence ]).
Qed.

Lemma X2_settled_probe_has_no_timer_witness :
  p_timer (probe (exampleService "http") 0 [EvHttpResponse 40 200]) = false.
Proof.
  apply (X2_settled_probe_has_no_timer (exampleService "http") 0
           [EvHttpResponse 40 200]
           (mkResult (exampleService "http") Online (Some 40) (Some 200))).
  reflexivity.
Defined.

Lemma on_socketReleased h service start st ev :
  h = checkTcpService \/ h = checkRedisService ->
  socketReleased st -> socketReleased (h_on h service start st ev).
Proof.
  unfold socketReleased.
  intros [-> | ->] Hst; destruct ev; simpl; try exact Hst;
    case_ifs; try exact Hst;
    unfold resolve; simpl; destruct (p_resolved st) eqn:E;
    destruct (p_rejected st) eqn:R; simpl;
    rewrite ?E; intros;
    repeat (rewrite in_app_iff; simpl);
    try congruence;
    try (specialize (Hst ltac:(congruence))); tauto.
Qed.

(** X3. A TCP or Redis probe releases its socket on every exit path:
    once its promise is settled (by the connection, the reply, an error
    or the timeout), [socket.destroy()] has been called. *)
Theorem X3_socket_destroyed_when_settled service start tr r :
  sv_checkType service = Some "tcp" \/ sv_checkType service = Some "redis" ->
  p_resolved (probe service start tr) = Some r ->
  In ADestroy (p_actions (probe service start tr)).
Proof.
  intros Ht Hr.
  assert (Hh : checkService service = checkTcpService
               \/ checkService service = checkRedisService).
  { unfold checkService. destruct Ht as [-> | ->]; simpl; tauto. }
  assert (H : socketReleased (probe service start tr)).
  { unfold probe. apply run_invariant.
    - intros Hne. exfalso. apply Hne.
      apply start_pending, checkService_cases.
    - intros message Hne. exfalso. apply Hne.
      apply failed_unresolved, checkService_cases.
    - intros st ev. apply on_socketReleased, Hh. }
  apply H. congruence.
Qed.

Lemma X3_socket_destroyed_when_settled_witness :
  In ADestroy
    (p_actions (probe (exampleService "redis") 0
                  [EvConnect 3; EvData 9 "-ERR unknown"])).
Proof.
  apply (X3_socket_destroyed_when_settled (exampleService "redis") 0
           [EvConnect 3; EvData 9 "-ERR unknown"]
           (mkResult (exampleService "redis") Error (Some 9) None)).
  - right. reflexivity.
  - reflexivity.
Defined.

Lemma on_echoes h service start st ev :
  h = checkTcpService \/ h = checkRedisService \/ h = checkDnsService
  \/ h = checkInterfaceService \/ h = checkHttpService ->
  start <= evTime ev ->
  settledBy (echoes service) st ->
  settledBy (echoes service) (h_on h service start st ev).
Proof.
  intros Hh Hev Hst.
  assert (Hoff : echoes service (offlineResult service))
    by (split; [reflexivity | discriminate]).
  assert (Hlat : forall status code now,
            start <= now ->
            echoes service (mkResult service status (Some (now - start)) code)).
  { intros status code now Hnow. split; [reflexivity|].
    simpl. intros latency [= <-]. lia. }
  destruct Hh as [-> | [-> | [-> | [-> | ->]]]]; destruct ev; simpl in *;
    try exact Hst; case_ifs; try exact Hst;
    try (apply settledBy_resolve;
         [ first [ exact Hoff | apply Hlat; exact Hev ]
         | eapply settledBy_same; [| exact Hst]; reflexivity ]);
    try (eapply settledBy_same; [| exact Hst]; reflexivity).
Qed.

(** X4. The result of a probe carries the descriptor it was asked for,
    unchanged, and, when no callback reads the clock before the reading
    taken at dispatch, its latency is not negative. *)
Theorem X4_result_echoes_descriptor service start tr r :
  Forall (fun ev => start <= evTime ev) tr ->
  p_resolved (probe service start tr) = Some r ->
  hr_service r = service
  /\ forall latency, hr_latency r = Some latency -> 0 <= latency.
Proof.
  intros Htr Hr. unfold probe, run in Hr.
  pose proof (checkService_cases service) as Hh.
  assert (H0 : settledBy (echoes service)
                 (fst (boot (checkService service) service start tr))).
  { intros r' Hr'. exfalso. revert Hr'.
    destruct tr as [|[] tr]; simpl;
      rewrite ?(start_pending _ _ _ Hh), ?(failed_unresolved _ _ _ _ Hh);
      discriminate. }
  assert (Hrest : Forall (fun ev => start <= evTime ev)
                    (snd (boot (checkService service) service start tr))).
  { destruct tr as [|[] tr]; simpl; try exact Htr.
    inversion Htr; assumption. }
  revert H0 r Hr Hrest.
  generalize (fst (boot (checkService service) service start tr)).
  generalize (snd (boot (checkService service) service start tr)).
  induction l as [|ev l IH]; simpl; intros st Hst r Hr Hl.
  - apply (Hst r Hr).
  - inversion Hl as [|? ? Hev Hl']; subst.
    apply (IH _ (on_echoes _ service start st ev Hh Hev Hst) r Hr Hl').
Qed.

Lemma X4_result_echoes_descriptor_witness :
  let r := mkResult (exampleService "dns") Online (Some 17) None in
  hr_service r = exampleService "dns"
  /\ forall latency, hr_latency r = Some latency -> 0 <= latency.
Proof.
  apply (X4_result_echoes_descriptor (exampleService "dns") 100
           [EvDnsAnswer 117 false]).
  - repeat constructor. simpl. lia.
  - reflexivity.
Defined.

(** X20. A health check whose executor returns (the descriptor is not
    that of a DNS server given by name, for which [resolver.setServers]
    throws, and no other call into the Node library throws in it)
    never rejects its promise.  For every checkType but [interface] it
    has set a timer of 3000 ms, the timer is pending as long as the
    promise is unsettled, the promise is settled once the timer
    callback has run, and a promise that the timer callback finds
    unsettled is resolved to [offline].  An [interface] check sets no
    timer and is settled by the callback of [fs.access].  And as long
    as no connection is established and no answer arrives, the only
    result a check can give is [offline] with a null latency. *)
Theorem X20_probe_completes_by_timer service start tr :
  addressed service ->
  executorReturns tr ->
  unrejected (probe service start tr)
  /\ (sv_checkType service <> Some "interface" ->
      guarded (probe service start tr)
      /\ In (ASetTimeout 3000) (p_actions (probe service start tr))
      /\ forall now,
           (forall tr',
              settled (probe service start (tr ++ EvTimer now :: tr')))
           /\ (p_resolved (probe service start tr) = None ->
               p_resolved (probe service start (tr ++ [EvTimer now]))
               = Some (offlineResult service)))
  /\ (sv_checkType service = Some "interface" ->
      ~ In (ASetTimeout 3000) (p_actions (probe service start tr))
      /\ forall now err tr',
           settled (probe service start (tr ++ EvFsAccess now err :: tr')))
  /\ (forallb (fun ev => negb (isAnswer ev)) tr = true ->
      settledBy (fun r => r = offlineResult service)
        (probe service start tr)).
Proof.
  intros Ha Hret. split; [|split; [|split]].
  - destruct (checkType_interface_dec service) as [Hi | Hne].
    + unfold probe. rewrite (checkService_interface service Hi).
      apply interface_unrejected, Hret.
    + apply (probe_guarded service start tr Hne Ha Hret).
  - intros Hne.
    destruct (probe_guarded service start tr Hne Ha Hret) as [Hrej Hg].
    split; [exact Hg|]. split; [apply probe_timeout_3000; assumption|].
    intros now. split.
    + intros tr'. apply probe_settled_after_timer; assumption.
    + intros Hnone. pose proof (checkService_timed service Hne) as Hh.
      unfold probe in *.
      rewrite run_returns_snoc by (auto; reflexivity). simpl.
      apply on_timer_settles; assumption.
  - intros Hi. split.
    + unfold probe. rewrite (checkService_interface service Hi).
      apply interface_sets_no_timer.
    + intros now err tr'. apply probe_settled_after_access; assumption.
  - apply probe_offline_without_answer.
Qed.

Lemma X20_probe_completes_by_timer_witness :
  unrejected (probe (exampleService "dns") 0 [])
  /\ p_resolved (probe (exampleService "dns") 0 ([] ++ [EvTimer 3000]))
     = Some (offlineResult (exampleService "dns")).
Proof.
  destruct (X20_probe_completes_by_timer (exampleService "dns") 0 []
              ltac:(intros _; vm_compute; reflexivity) I)
    as (H1 & H2 & _).
  split; [exact H1|].
  destruct (H2 ltac:(discriminate)) as (_ & _ & H3).
  apply (H3 3000). reflexivity.
Defined.

(** A DNS server without a host is asked at 127.0.0.1, and so is
    [localhost]; both are addresses, a name is not. *)
Example named_server_examples :
  dnsServer (exampleService "dns") = "127.0.0.1:8080"
  /\ namedServer (exampleService "dns") = false
  /\ namedServer (mkService "r" (Some "localhost") 53 None (Some "dns")
                    None true) = false
  /\ namedServer (mkService "r" (Some "192.168.1.1") 53 None (Some "dns")
                    None true) = false
  /\ namedServer (mkService "r" (Some "192.168.1.256") 53 None (Some "dns")
                    None true) = true
  /\ namedServer (mkService "r" (Some "::1") 53 None (Some "dns")
                    None true) = false
  /\ namedServer exampleResolver = true.
Proof. vm_compute. repeat split; reflexivity. Qed.

End ProbeFinalisation.

(** ** The tables of known services *)

Section ServiceConfigFacts.

Import ServiceConfig.

Lemma known_services_valid port k :
  KNOWN_SERVICES !! port = Some k ->
  inList (kn_checkType k) VALID_CHECK_TYPES = true
  /\ kn_icon k <> "".
Proof.
  intros H. apply elem_of_list_to_map_2 in H.
  assert (F : forallb
                (fun pk : Z * Known =>
                   inList (kn_checkType (snd pk)) VALID_CHECK_TYPES
                   && negb (String.eqb (kn_icon (snd pk)) ""))
                KNOWN_SERVICES_list = true) by (vm_compute; reflexivity).
  rewrite forallb_forall in F. apply list_elem_of_In in H.
  specialize (F _ H). simpl in F. apply andb_prop in F.
  destruct F as [F1 F2]. split; [exact F1|].
  apply negb_true_iff, String.eqb_neq in F2. exact F2.
Qed.

Lemma inList_nonempty t : inList t VALID_CHECK_TYPES = true -> t <> "".
Proof. intros H ->. discriminate H. Qed.

(** X5. [inferCheckType] always answers with one of the five valid
    check types, whatever port and tag it is given; a valid explicit
    tag is kept as it is, before the table of known ports is looked at;
    and the function is idempotent. *)
Theorem X5_inferCheckType_is_valid port explicitCheckType :
  inList (inferCheckType port explicitCheckType) VALID_CHECK_TYPES = true
  /\ (forall t,
        explicitCheckType = Some t ->
        inList t VALID_CHECK_TYPES = true ->
        inferCheckType port explicitCheckType = t)
  /\ inferCheckType port (Some (inferCheckType port explicitCheckType))
     = inferCheckType port explicitCheckType.
Proof.
  assert (Hkeep : forall t,
            inList t VALID_CHECK_TYPES = true ->
            inferCheckType port (Some t) = t).
  { intros t Ht. unfold inferCheckType. rewrite Ht.
    destruct (String.eqb_spec t ""); [|reflexivity].
    exfalso. eapply inList_nonempty; eassumption. }
  assert (Hvalid : inList (inferCheckType port explicitCheckType)
                     VALID_CHECK_TYPES = true).
  { unfold inferCheckType.
    destruct explicitCheckType as [t|].
    - destruct (negb (String.eqb t "") && inList t VALID_CHECK_TYPES) eqn:E.
      + apply andb_prop in E. tauto.
      + destruct (KNOWN_SERVICES !! port) eqn:K; [|reflexivity].
        eapply known_services_valid; eassumption.
    - destruct (KNOWN_SERVICES !! port) eqn:K; [|reflexivity].
      eapply known_services_valid; eassumption. }
  split; [exact Hvalid|]. split.
  - intros t -> Ht. apply Hkeep, Ht.
  - apply Hkeep, Hvalid.
Qed.

Lemma X5_inferCheckType_is_valid_witness :
  inferCheckType 6379 (Some "http") = "http".
Proof.
  destruct (X5_inferCheckType_is_valid 6379 (Some "http")) as [_ [H _]].
  apply H; reflexivity.
Defined.

End ServiceConfigFacts.

(** ** CPU percentages *)

Section CpuPercentFacts.

Import CpuCache CpuPolls.

(** X6. On a machine with at least one core, the percentage that
    [calculateCpuPercent] reports is never negative, and it is at most
    100 whenever the usage gained since the previous sample does not
    exceed what all cores can deliver in the elapsed time. *)
Theorem X6_cpu_percent_bounds numCpus nowMs id usage
  (cache : gmap string Sample) :
  0 < numCpus ->
  let pct := fst (calculateCpuPercent numCpus nowMs id usage cache) in
  (0 <= pct)%Q
  /\ (forall u s,
        usage = Some u -> cache !! id = Some s ->
        u - usageUsec s <= (nowMs * 1000 - timeUsec s) * numCpus ->
        (pct <= 100)%Q).
Proof.
  intros Hn pct. subst pct.
  destruct usage as [u|]; [|split; [discriminate | discriminate]].
  rewrite calculateCpuPercent_value.
  destruct (cache !! id) as [s|] eqn:Es; [|split; discriminate].
  destruct ((nowMs * 1000 - timeUsec s <=? 0) || (u - usageUsec s <? 0))
    eqn:G; [split; discriminate|].
  apply orb_false_elim in G. destruct G as [G1 G2].
  apply Z.leb_gt in G1. apply Z.ltb_ge in G2.
  destruct (share_bounds numCpus _ _ Hn G1 G2) as (Hlo & Hhi & _).
  pose proof (jsRound_nonneg _ Hlo) as Hz.
  set (z := jsRound _) in *.
  split.
  - apply tenth_bounds, Hz.
  - intros u' s' [= <-] [= <-] Hcap.
    assert (Hz' : z <= 1000) by (apply jsRound_le_1000, Hhi, Hcap).
    apply tenth_bounds; assumption.
Qed.

Lemma X6_cpu_percent_bounds_witness :
  let pct :=
    fst (calculateCpuPercent 4 2000 "c1" (Some 2000000)
           {["c1" := mkSample 1000000 1000000]}) in
  (0 <= pct)%Q /\ (pct <= 100)%Q.
Proof.
  destruct (X6_cpu_percent_bounds 4 2000 "c1" (Some 2000000)
              {["c1" := mkSample 1000000 1000000]} ltac:(lia)) as [H0 H1].
  split; [exact H0|].
  apply (H1 2000000 (mkSample 1000000 1000000)); [reflexivity | reflexivity|].
  simpl. lia.
Defined.

End CpuPercentFacts.

Section CpuPollFacts.

Import CpuCache CpuPolls.

Lemma pollAll_spares numCpus id polls : forall cache : gmap string Sample,
  Forall (spares id) polls ->
  pollAll numCpus polls cache !! id = cache !! id.
Proof.
  unfold pollAll.
  induction polls as [|[[t i] usage] polls IH]; intros cache H;
    [reflexivity|].
  inversion H as [|? ? Hhd Htl]; subst. simpl.
  rewrite (IH _ Htl), calculateCpuPercent_cache.
  destruct usage as [u|]; [|reflexivity].
  destruct Hhd as [Hne | Hnone]; [|discriminate].
  simpl in Hne. rewrite lookup_insert_ne by exact Hne. reflexivity.
Qed.

(** X7. The percentage reported for a container depends only on its
    previous sample: whatever the cache held before that sample was
    taken, whatever that earlier call returned, and whatever was
    measured for other containers (or read as null for this one) in
    between, the next call reports 0 when the clock did not advance or
    the counter went backwards, and otherwise the share of all cores
    used between the two samples, in percent with one decimal, every
    step of the computation rounded to a double. *)
Theorem X7_rate_is_relative_to_previous_sample numCpus t id u others t' u'
  (cache : gmap string Sample) :
  Forall (spares id) others ->
  fst (calculateCpuPercent numCpus t' id (Some u')
         (pollAll numCpus others
            (snd (calculateCpuPercent numCpus t id (Some u) cache))))
  = if (t' * 1000 - t * 1000 <=? 0) || (u' - u <? 0) then 0%Q
    else
      double
        (inject_Z (jsRound (tenths numCpus (u' - u) (t' * 1000 - t * 1000)))
         / 10)%Q.
Proof.
  intros Ho. rewrite calculateCpuPercent_value.
  rewrite (pollAll_spares _ _ _ _ Ho).
  rewrite calculateCpuPercent_cache, lookup_insert_eq. reflexivity.
Qed.

Lemma X7_rate_is_relative_to_previous_sample_witness :
  fst (calculateCpuPercent 4 2000 "c1" (Some 1022000)
         (pollAll 4 [(1500, "c2", Some 7); (1600, "c1", None)]
            (snd (calculateCpuPercent 4 1000 "c1" (Some 1000000) ∅))))
  = double (inject_Z (jsRound (tenths 4 22000 1000000)) / 10)%Q.
Proof.
  apply (X7_rate_is_relative_to_previous_sample 4 1000 "c1" 1000000
           [(1500, "c2", Some 7); (1600, "c1", None)] 2000 1022000 ∅).
  constructor; [left; discriminate|].
  constructor; [right; reflexivity | constructor].
Defined.

(** 22 milliseconds of CPU time in one second on four cores: the
    doubles give 5.499999999999999 tenths, reported as 0.5 (the exact
    quotient, 5.5 tenths, would read 0.6). *)
Example cpu_percent_in_doubles :
  (double (inject_Z (jsRound (tenths 4 22000 1000000)) / 10) == 1 # 2)%Q
  /\ (tenths 4 22000 1000000 < 11 # 2)%Q
  /\ (inject_Z 22000 / inject_Z 1000000 * 100 / 4 * 10 == 11 # 2)%Q.
Proof. vm_compute. repeat split; reflexivity. Qed.

(** X8. A sweep followed by a measurement: a container whose cached
    sample is older than two minutes at the time of the sweep is
    measured as if for the first time (0 percent); one with a fresher
    sample is measured as if no sweep had run; and the sweep neither
    adds an entry nor alters one that it keeps. *)
Theorem X8_sweep_then_measure numCpus nowSweep nowMs id u
  (cache : gmap string Sample) :
  fst (calculateCpuPercent numCpus nowMs id (Some u) (sweep nowSweep cache))
  = match cache !! id with
    | Some s =>
        if staleThreshold <? nowSweep * 1000 - timeUsec s then 0%Q
        else fst (calculateCpuPercent numCpus nowMs id (Some u) cache)
    | None => 0%Q
    end
  /\ sweep nowSweep cache ⊆ cache.
Proof.
  split; [|apply map_filter_subseteq].
  destruct (sweep nowSweep cache !! id) as [s|] eqn:E.
  - pose proof E as E'. apply sweep_lookup in E'.
    destruct E' as [C Hfresh]. rewrite C.
    replace (staleThreshold <? nowSweep * 1000 - timeUsec s) with false
      by (symmetry; apply Z.ltb_ge; exact Hfresh).
    rewrite calculateCpuPercent_only, E.
    rewrite (calculateCpuPercent_only _ _ _ _ cache), C. reflexivity.
  - rewrite (calculateCpuPercent_first _ _ _ _ _ E).
    destruct (cache !! id) as [s|] eqn:C; [|reflexivity].
    destruct (staleThreshold <? nowSweep * 1000 - timeUsec s) eqn:S;
      [reflexivity|].
    apply Z.ltb_ge in S.
    assert (H : sweep nowSweep cache !! id = Some s)
      by (apply sweep_lookup; auto).
    congruence.
Qed.

End CpuPollFacts.

(** ** The matcher against the relation *)

Section RegexSoundness.

Import RegexSpec.

Lemma repeatGreedy_sound {A} r
  (IH : forall st (k : mstate -> option A) a,
          rmatch r st k = Some a ->
          exists st', Matches r st st' /\ k st' = Some a)
  (k : mstate -> option A) :
  forall fuel lo hi st a,
    repeatGreedy (rmatch r) k fuel lo hi st = Some a ->
    exists st', Matches (RRep lo hi r) st st' /\ k st' = Some a.
Proof.
  assert (Hstop : forall lo hi st a,
            (if (lo =? 0)%nat then k st else None) = Some a ->
            exists st', Matches (RRep lo hi r) st st' /\ k st' = Some a).
  { intros lo hi st a H. destruct (Nat.eqb_spec lo 0) as [->|]; [|discriminate].
    exists st. split; [constructor | exact H]. }
  induction fuel as [|fuel IHf]; intros lo hi st a H; cbn [repeatGreedy] in H.
  - apply Hstop, H.
  - destruct (hiDone hi) eqn:Hd; [apply Hstop, H|].
    match type of H with
    | match ?e with _ => _ end = _ => destruct e as [a'|] eqn:E
    end; [|apply Hstop, H].
    injection H as ->.
    apply IH in E. destruct E as (st1 & M1 & E1).
    destruct (m_pos st <? m_pos st1)%nat eqn:Hp; [|discriminate].
    apply Nat.ltb_lt in Hp. apply IHf in E1. destruct E1 as (st2 & M2 & E2).
    exists st2. split; [|exact E2].
    eapply MRepMore; eassumption.
Qed.

(** Whenever the matcher succeeds, it has handed to its continuation a
    state that the expression relates to the initial one. *)
Lemma rmatch_sound {A} r : forall st (k : mstate -> option A) a,
  rmatch r st k = Some a ->
  exists st', Matches r st st' /\ k st' = Some a.
Proof.
  induction r as [p | r1 IH1 r2 IH2 | r1 IH1 r2 IH2 | lo hi r IH | i r IH
                 | | | ]; intros st k a H; cbn [rmatch] in H.
  - destruct st as [pos [|c t] caps]; simpl in H; [discriminate|].
    destruct (p c) eqn:Hc; [|discriminate].
    eexists. split; [constructor; exact Hc | exact H].
  - apply IH1 in H. destruct H as (s1 & M1 & H).
    apply IH2 in H. destruct H as (s2 & M2 & H).
    exists s2. split; [econstructor; eassumption | exact H].
  - destruct (rmatch r1 st k) as [a'|] eqn:E.
    + injection H as ->. apply IH1 in E. destruct E as (s' & M & E').
      exists s'. split; [apply MAltL, M | exact E'].
    + apply IH2 in H. destruct H as (s' & M & E').
      exists s'. split; [apply MAltR, M | exact E'].
  - eapply repeatGreedy_sound; eassumption.
  - apply IH in H. destruct H as (s' & M & H).
    eexists. split; [apply MGroup, M | exact H].
  - exists st. split; [constructor | exact H].
  - destruct (Nat.eqb_spec (m_pos st) 0); [|discriminate].
    exists st. split; [constructor; assumption | exact H].
  - destruct (m_rest st) eqn:E; [|discriminate].
    exists st. split; [constructor; assumption | exact H].
Qed.

Lemma matchAt_sound r pos rest m :
  matchAt r pos rest = Some m ->
  exists st',
    Matches r (MState pos rest []) st'
    /\ m = RMatched pos (take (m_pos st' - pos) rest) (m_caps st').
Proof.
  unfold matchAt. intros H. apply rmatch_sound in H.
  destruct H as (st' & M & [= <-]). eauto.
Qed.

Lemma searchFrom_sound r : forall rest pos m,
  searchFrom r pos rest = Some m ->
  exists i,
    (i <= length rest)%nat
    /\ matchAt r (pos + i) (drop i rest) = Some m.
Proof.
  induction rest as [|c rest IH]; intros pos m H;
    rewrite searchFrom_unfold in H;
    destruct (matchAt r pos _) as [m'|] eqn:E.
  - injection H as ->. exists 0%nat. rewrite Nat.add_0_r. auto.
  - discriminate.
  - injection H as ->. exists 0%nat. rewrite Nat.add_0_r. simpl. split; [lia | exact E].
  - apply IH in H. destruct H as (i & Hi & H).
    exists (S i). simpl. split; [lia|].
    replace (pos + S i)%nat with (S pos + i)%nat by lia. exact H.
Qed.

(** A match consumes a piece of the text, and the position advances by
    its length. *)
Lemma Matches_consumed r s s' :
  Matches r s s' -> exists w, consumed s s' w.
Proof.
  unfold consumed.
  induction 1 as [p c t pos caps Hc
                 | r1 r2 s s1 s2 _ [w1 [E1 P1]] _ [w2 [E2 P2]]
                 | r1 r2 s s' _ IH | r1 r2 s s' _ IH
                 | hi r s
                 | lo hi r s s1 s2 _ _ [w1 [E1 P1]] _ _ [w2 [E2 P2]]
                 | i r s s' _ [w [E P]]
                 | s | s _ | s _ ]; simpl.
  - exists [c]. simpl. split; [reflexivity | lia].
  - exists (w1 ++ w2)%list. rewrite E1, E2, <- app_assoc, length_app.
    split; [reflexivity | lia].
  - exact IH.
  - exact IH.
  - exists []. simpl. split; [reflexivity | lia].
  - exists (w1 ++ w2)%list. rewrite E1, E2, <- app_assoc, length_app.
    split; [reflexivity | lia].
  - exists w. auto.
  - exists []. simpl. split; [reflexivity | lia].
  - exists []. simpl. split; [reflexivity | lia].
  - exists []. simpl. split; [reflexivity | lia].
Qed.

(** A repeated class consumes characters of the class only, within the
    bounds, and leaves the captures alone. *)
Lemma Matches_class p : forall lo hi s s',
  Matches (RRep lo hi (RChar p)) s s' ->
  exists w,
    consumed s s' w /\ forallb p w = true
    /\ (lo <= length w)%nat /\ within hi (length w)
    /\ m_caps s' = m_caps s.
Proof.
  intros lo hi s s' H.
  remember (RRep lo hi (RChar p)) as r eqn:Er.
  revert lo hi Er.
  induction H as [| | | | hi' r' s
                 | lo' hi' r' s s1 s2 Hd M1 _ Hp M2 IH2 | | | | ];
    intros lo hi Er; try discriminate; injection Er as E1 E2 E3; subst.
  - exists []. unfold consumed. simpl. repeat split; try lia.
    destruct hi; simpl; lia.
  - destruct (IH2 _ _ eq_refl) as (w & [E P] & Hw & Hlo & Hhi & Hc).
    inversion M1 as [p' c t pos caps Hpc | | | | | | | | | ]; subst.
    simpl in *. exists (c :: w). unfold consumed. simpl.
    rewrite E, Hpc, Hw, Hc. repeat split; try lia.
    destruct hi as [[|h]|]; simpl in *; try discriminate; lia.
Qed.

Lemma take_app_exact {A} (w rest : list A) n :
  n = length w -> take n (w ++ rest) = w.
Proof. intros ->. apply take_app_length. Qed.

End RegexSoundness.

Section RegexCaptures.

Import RegexSpec RegexShape.

Ltac invert H := inversion H; subst; clear H.

Lemma Matches_groupless r s s' :
  Matches r s s' -> groupless r = true -> m_caps s' = m_caps s.
Proof.
  induction 1 as [ | r1 r2 s s1 s2 _ IH1 _ IH2 | r1 r2 s s' _ IH
                 | r1 r2 s s' _ IH | | lo hi r s s1 s2 _ _ IH1 _ _ IH2
                 | | | | ]; simpl; intros G;
    try reflexivity; try discriminate.
  - apply andb_true_iff in G. destruct G as [G1 G2].
    rewrite IH2, IH1; auto.
  - apply andb_true_iff in G. destruct G as [G1 G2]. auto.
  - apply andb_true_iff in G. destruct G as [G1 G2]. auto.
  - simpl in IH2. rewrite IH2, IH1; auto.
Qed.

(** A captured class: the capture is the text consumed. *)
Lemma Matches_group_class i p lo hi s s' :
  Matches (RGroup i (RRep lo hi (RChar p))) s s' ->
  exists w,
    consumed s s' w /\ forallb p w = true
    /\ (lo <= length w)%nat /\ within hi (length w)
    /\ m_caps s' = (i, w) :: m_caps s.
Proof.
  intros H. invert H.
  match goal with M : Matches _ _ _ |- _ => apply Matches_class in M;
    destruct M as (w & [E Hp] & Hw & Hlo & Hhi & Hc) end.
  exists w. unfold consumed. simpl. rewrite E, Hc.
  repeat split; auto.
  f_equal. f_equal. apply take_app_exact. lia.
Qed.

(** A captured expression without inner groups. *)
Lemma Matches_group_plain i r s s' :
  Matches (RGroup i r) s s' -> groupless r = true ->
  exists w, consumed s s' w /\ m_caps s' = (i, w) :: m_caps s.
Proof.
  intros H G. invert H.
  match goal with M : Matches _ _ _ |- _ =>
    pose proof (Matches_groupless _ _ _ M G) as Hc;
    apply Matches_consumed in M; destruct M as (w & E & Hp) end.
  exists w. unfold consumed. simpl. rewrite E, Hc.
  repeat split; auto.
  f_equal. f_equal. apply take_app_exact. lia.
Qed.

Lemma exec_sound r s m :
  exec r s = Some m ->
  exists pos st',
    Matches r (MState pos (drop pos (chars s)) []) st'
    /\ mt_caps m = m_caps st'.
Proof.
  unfold exec. intros H. apply searchFrom_sound in H.
  destruct H as (i & _ & H). apply matchAt_sound in H.
  destruct H as (st' & M & ->). exists i, st'. auto.
Qed.

Lemma chars_str l : chars (str l) = l.
Proof. apply list_ascii_of_string_of_list_ascii. Qed.

Lemma str_chars s : str (chars s) = s.
Proof. apply string_of_list_ascii_of_string. Qed.

Lemma digitVal_range c : isDigit c = true -> 0 <= digitVal c <= 9.
Proof.
  unfold isDigit, digitVal. cbv zeta. intros H.
  apply andb_true_iff in H. destruct H as [H1 H2].
  apply Nat.leb_le in H1, H2. lia.
Qed.

Lemma digitsVal_nonneg l : forallb isDigit l = true -> 0 <= digitsVal l.
Proof.
  unfold digitsVal. intros H.
  assert (G : forall acc, 0 <= acc ->
            0 <= fold_left (fun acc c => 10 * acc + digitVal c) l acc).
  { induction l as [|c l IH]; intros acc Hacc; simpl in *; [lia|].
    apply andb_true_iff in H. destruct H as [Hc Hl].
    apply digitVal_range in Hc. apply IH; [exact Hl | lia]. }
  apply G. lia.
Qed.

End RegexCaptures.

(** ** Handshakes and the interface key of a status text *)

Section HandshakeFacts.

Import RegexSpec RegexShape WireGuard WireGuardHead.

Ltac invert H := inversion H; subst; clear H.

Lemma handshake_part_digits part m :
  exec HANDSHAKE_PART part = Some m ->
  forallb isDigit (group m 1) = true.
Proof.
  intros H. apply exec_sound in H. destruct H as (pos & st' & M & Hc).
  unfold HANDSHAKE_PART in M. cbn [seqs] in M.
  invert M.
  match goal with M : Matches (RGroup 1 _) _ _ |- _ =>
    apply Matches_group_class in M;
    destruct M as (d & _ & Hd & _ & _ & C1) end.
  match goal with M : Matches (RSeq _ _) _ _ |- _ => invert M end.
  match goal with M : Matches (star space) _ _ |- _ =>
    apply Matches_class in M;
    destruct M as (w & _ & _ & _ & _ & C2) end.
  match goal with M : Matches (RGroup 2 _) _ _ |- _ =>
    apply Matches_group_plain in M; [|reflexivity];
    destruct M as (u & _ & C3) end.
  unfold group. rewrite Hc, C3, C2, C1. simpl. exact Hd.
Qed.

Lemma addPart_grows totalSeconds part :
  totalSeconds <= addPart totalSeconds part.
Proof.
  unfold addPart. destruct (exec HANDSHAKE_PART (str part)) as [m|] eqn:E;
    [|lia].
  apply handshake_part_digits, digitsVal_nonneg in E.
  repeat match goal with
         | |- context [if ?b then _ else _] => destruct b
         end; lia.
Qed.

Lemma parseHandshakeTime_nonneg s n :
  parseHandshakeTime s = Some n -> 0 <= n.
Proof.
  unfold parseHandshakeTime. destruct (String.eqb s ""); [discriminate|].
  destruct (matchAll HANDSHAKE_PARTS s) as [|p parts]; [discriminate|].
  intros [= <-]. change (0 <= fold_left addPart (p :: parts) 0).
  generalize (p :: parts). intros l.
  assert (G : forall acc, acc <= fold_left addPart l acc).
  { induction l as [|x l IH]; intros acc; simpl; [lia|].
    etransitivity; [apply (addPart_grows acc x) | apply IH]. }
  apply G.
Qed.

Lemma peerDetail_coherent nowMs p trimmed :
  handshakeCoherent nowMs p ->
  handshakeCoherent nowMs (peerDetail nowMs p trimmed).
Proof.
  unfold peerDetail, handshakeCoherent. intros Hp.
  destruct (startsWith trimmed "endpoint:"); [exact Hp|].
  destruct (startsWith trimmed "latest handshake:").
  - simpl. intros s Hs. rewrite Hs. split; [|reflexivity].
    eapply parseHandshakeTime_nonneg, Hs.
  - destruct (startsWith trimmed "transfer:"); exact Hp.
Qed.

Lemma blockPeer_coherent nowMs b :
  handshakeCoherent nowMs (blockPeer nowMs b).
Proof.
  unfold blockPeer.
  generalize (filter (fun l => isDetail l = true) (snd b)). intros ls.
  assert (G : forall p, handshakeCoherent nowMs p ->
            handshakeCoherent nowMs
              (fold_left (fun p l => peerDetail nowMs p (trim l)) ls p)).
  { induction ls as [|l ls IH]; intros p Hp; simpl; [exact Hp|].
    apply IH, peerDetail_coherent, Hp. }
  apply G. intros s Hs. discriminate.
Qed.

Lemma peers_parseWgShow nowMs output interfaceName :
  peers (parseWgShow nowMs output interfaceName)
  = map (blockPeer nowMs) (peerBlocks (splitLines output)).
Proof.
  unfold parseWgShow. simpl.
  match goal with
  | |- context [fold_left ?f ?l ?s] =>
      pose proof (fold_step_flush nowMs l s) as H
  end.
  unfold flush in H at 1. simpl in H.
  match goal with
  | |- ?lhs = _ =>
      match type of H with
      | ?lhs' = _ => replace lhs with lhs'; [exact H|]
      end
  end.
  destruct (currentPeer _); simpl; rewrite ?app_nil_r; reflexivity.
Qed.

(** X9. Every peer record that [parseWgShow] returns is coherent: when
    it carries a handshake age, the age is not negative and the
    handshake timestamp is the current time in seconds minus that age. *)
Theorem X9_handshake_age_and_timestamp_agree nowMs output interfaceName :
  Forall (handshakeCoherent nowMs)
    (peers (parseWgShow nowMs output interfaceName)).
Proof.
  rewrite peers_parseWgShow. apply Forall_fmap, Forall_forall.
  intros b _. apply blockPeer_coherent.
Qed.

Lemma step_in_block nowMs lines : forall st,
  currentPeer st <> None ->
  if_publicKey (interface (result (fold_left (step nowMs) lines st)))
  = if_publicKey (interface (result st))
  /\ if_name (interface (result (fold_left (step nowMs) lines st)))
     = if_name (interface (result st)).
Proof.
  induction lines as [|l lines IH]; intros st Hst; [split; reflexivity|].
  simpl fold_left.
  assert (S : currentPeer (step nowMs st l) <> None
              /\ if_publicKey (interface (result (step nowMs st l)))
                 = if_publicKey (interface (result st))
              /\ if_name (interface (result (step nowMs st l)))
                 = if_name (interface (result st))).
  { unfold step. destruct (currentPeer st) as [p|] eqn:E; [|congruence].
    repeat match goal with
           | |- context [if ?b then _ else _] => destruct b
           end; simpl; rewrite ?E; repeat split; congruence. }
  destruct S as (S1 & S2 & S3).
  destruct (IH _ S1) as [I1 I2]. split; congruence.
Qed.

Lemma headKeys_cons l lines :
  headKeys (l :: lines)
  = if isMarker l then []
    else if startsWith (trim l) "public key:"
         then field (trim l) "public key:" :: headKeys lines
         else headKeys lines.
Proof.
  unfold headKeys. simpl untilMarker. destruct (isMarker l); [reflexivity|].
  simpl. destruct (startsWith (trim l) "public key:"); reflexivity.
Qed.

Lemma step_in_head nowMs lines : forall st,
  currentPeer st = None ->
  if_publicKey (interface (result (fold_left (step nowMs) lines st)))
  = match last (headKeys lines) with
    | Some k => Some k
    | None => if_publicKey (interface (result st))
    end
  /\ if_name (interface (result (fold_left (step nowMs) lines st)))
     = if_name (interface (result st)).
Proof.
  induction lines as [|l lines IH]; intros st Hst; [split; reflexivity|].
  simpl fold_left. rewrite headKeys_cons.
  destruct (isMarker l) eqn:Hm.
  - rewrite step_marker by exact Hm. simpl.
    match goal with
    | |- context [fold_left ?f lines ?s] =>
        destruct (step_in_block nowMs lines s) as [I1 I2]; [discriminate|]
    end.
    simpl in I1, I2. auto.
  - unfold isMarker in Hm.
    destruct (startsWith (trim l) "public key:") eqn:Hk.
    + assert (S : step nowMs st l
                  = mkParser
                      (mkWgShow
                         (mkInterface (if_name (interface (result st)))
                            (Some (field (trim l) "public key:"))
                            (if_listenPort (interface (result st))))
                         (peers (result st))) None).
      { unfold step. rewrite Hk, Hst. reflexivity. }
      rewrite S.
      match goal with
      | |- context [fold_left ?f lines ?s] =>
          destruct (IH s eq_refl) as [I1 I2]
      end.
      rewrite last_cons. simpl in I1, I2. rewrite I1, I2.
      destruct (last (headKeys lines)); auto.
    + assert (S : currentPeer (step nowMs st l) = None
                  /\ if_publicKey (interface (result (step nowMs st l)))
                     = if_publicKey (interface (result st))
                  /\ if_name (interface (result (step nowMs st l)))
                     = if_name (interface (result st))).
      { unfold step. rewrite Hk, Hm, Hst.
        destruct (startsWith (trim l) "listening port:"); simpl; auto. }
      destruct S as (S1 & S2 & S3).
      destruct (IH _ S1) as [I1 I2].
      rewrite I1, I2, S2, S3. auto.
Qed.

(** X10. The interface of the result keeps the name it was asked for,
    and its public key is the value of the last [public key:] line
    before the first peer marker ([null] without such a line): no line
    of a peer block changes the interface's key. *)
Theorem X10_interface_key_comes_from_head nowMs output interfaceName :
  if_name (interface (parseWgShow nowMs output interfaceName)) = interfaceName
  /\ if_publicKey (interface (parseWgShow nowMs output interfaceName))
     = last (headKeys (splitLines output)).
Proof.
  unfold parseWgShow. simpl.
  match goal with
  | |- context [fold_left ?f ?l ?s] =>
      destruct (step_in_head nowMs l s eq_refl) as [I1 I2]
  end.
  simpl in I1, I2. rewrite I1, I2.
  destruct (last _); auto.
Qed.

End HandshakeFacts.

(** ** The client-name table *)

Section PivpnFacts.

Import RegexSpec RegexShape WireGuardData PivpnTable.

Ltac invert H := inversion H; subst; clear H.

Lemma pivpn_line_captures line m :
  exec PIVPN_LINE line = Some m ->
  isKey (str (group m 2)) /\ isName (str (group m 1)).
Proof.
  intros H. apply exec_sound in H. destruct H as (pos & st' & M & Hc).
  unfold PIVPN_LINE in M. cbn [seqs] in M.
  invert M.
  match goal with M : Matches RBol _ _ |- _ => invert M end.
  match goal with M : Matches (RSeq _ _) _ _ |- _ => invert M end.
  match goal with M : Matches (RGroup 1 _) _ _ |- _ =>
    apply Matches_group_class in M;
    destruct M as (n & _ & Hn & Ln & _ & C1) end.
  match goal with M : Matches (RSeq _ _) _ _ |- _ => invert M end.
  match goal with M : Matches (plus space) _ _ |- _ =>
    apply Matches_class in M;
    destruct M as (w & _ & _ & _ & _ & C2) end.
  match goal with M : Matches (RGroup 2 _) _ _ |- _ =>
    apply Matches_group_class in M;
    destruct M as (k & _ & Hk & Lk & Uk & C3) end.
  simpl in Uk.
  unfold group. rewrite Hc, C3, C2, C1. simpl.
  unfold isKey, isName. rewrite <- length_chars, !chars_str.
  repeat split; try assumption; try lia.
  destruct n; [simpl in Ln; lia | discriminate].
Qed.

Lemma pivpnLine_entries clients line :
  map_Forall (fun key name => isKey key /\ isName name) clients ->
  map_Forall (fun key name => isKey key /\ isName name)
    (pivpnLine clients line).
Proof.
  intros H. unfold pivpnLine.
  destruct (includes line "Client" && includes line "Public key");
    [exact H|].
  destruct (includes line ":::"); [exact H|].
  destruct (String.eqb (trim line) ""); [exact H|].
  destruct (exec PIVPN_LINE line) as [m|] eqn:E; [|exact H].
  apply map_Forall_insert_2; [|exact H].
  eapply pivpn_line_captures, E.
Qed.

(** X11. Every entry of the table that [parsePivpnList] builds maps a
    44-character base64 key to a non-empty name without white space,
    whatever text it is given. *)
Theorem X11_pivpn_table_entries output :
  map_Forall (fun key name => isKey key /\ isName name)
    (parsePivpnList output).
Proof.
  unfold parsePivpnList. generalize (splitLines output). intros lines.
  assert (G : forall clients,
            map_Forall (fun key name => isKey key /\ isName name) clients ->
            map_Forall (fun key name => isKey key /\ isName name)
              (fold_left pivpnLine lines clients)).
  { induction lines as [|l lines IH]; intros clients H; simpl; [exact H|].
    apply IH, pivpnLine_entries, H. }
  apply G, map_Forall_empty.
Qed.

End PivpnFacts.

(** ** The commands of [getWireGuardData] *)

Section WireGuardEffectFacts.

Import WireGuardData WireGuardEffects.

Context {P : Type}.
Variable os : Os.
Variable nowMs : Z.

(** X12. Whatever the settings and whatever the operating system
    answers, [getWireGuardData] is fulfilled (it neither rejects nor
    stays pending), and everything it asks of the operating system is
    [wg show <name>], [sudo wg show <name>], [pivpn -l] or a read of
    [clients.txt], where <name> is one to fifteen letters, digits,
    underscores or hyphens. *)
Theorem X12_wireguard_runs_only_vetted_commands
  (wireguard : option WgConfig) (store : Store P) :
  exists data trace,
    fst (getWireGuardData os nowMs wireguard store) = Ok data
    /\ effects (snd (getWireGuardData os nowMs wireguard store))
       = (effects store ++ trace)%list
    /\ Forall wgEffect trace.
Proof.
  unfold getWireGuardData. cbv zeta.
  set (wgConfig := match wireguard with
                   | Some c => c
                   | None => mkWgConfig false (Some "wg0")
                   end).
  destruct (wg_enabled wgConfig); simpl;
    [|exists WgDisabled, []; rewrite app_nil_r; auto].
  destruct (test VALID_IFACE_REGEX (interfaceName wgConfig)) eqn:T; simpl;
    [|eexists _, []; rewrite app_nil_r; auto].
  apply valid_iface_test in T.
  unfold execAsync, readFile, tryCatch, bind, settle, perform, ret, throw.
  simpl.
  destruct (os_exec os ("wg show " ++ interfaceName wgConfig)); simpl;
    [|destruct (os_exec os ("sudo wg show " ++ interfaceName wgConfig));
      simpl];
    try (destruct (os_exec os "pivpn -l"); simpl;
         [|destruct (os_readFile os "/etc/wireguard/configs/clients.txt");
           simpl]);
    eexists _, _; (split; [reflexivity|]);
    (split; [rewrite <- ?app_assoc; reflexivity|]);
    simpl;
    repeat first [ apply Forall_nil_2
                 | apply Forall_cons_2
                 | apply WgShowEffect, T
                 | apply SudoWgShowEffect, T
                 | apply PivpnEffect
                 | apply ClientsTxtEffect ].
Qed.

End WireGuardEffectFacts.

(** ** The client list *)

Section ClientListFacts.

Import WireGuard WireGuardHead WireGuardData ClientOrder.

Lemma insertBy_Forall {A} (cmp : A -> A -> Z) (Q : A -> Prop) x l :
  Q x -> Forall Q l -> Forall Q (insertBy cmp x l).
Proof.
  intros Hx Hl. apply Forall_forall. intros y Hy.
  apply list_elem_of_In, insertBy_In in Hy. destruct Hy as [->|Hy]; [exact Hx|].
  rewrite Forall_forall in Hl. apply Hl, list_elem_of_In, Hy.
Qed.

Lemma sortBy_Forall {A} (cmp : A -> A -> Z) (Q : A -> Prop) l :
  Forall Q l -> Forall Q (sortBy cmp l).
Proof.
  intros Hl. apply Forall_forall. intros y Hy.
  apply list_elem_of_In, sortBy_In in Hy.
  rewrite Forall_forall in Hl. apply Hl, list_elem_of_In, Hy.
Qed.

Lemma insertBy_Permutation {A} (cmp : A -> A -> Z) x l :
  insertBy cmp x l ≡ₚ x :: l.
Proof.
  induction l as [|y l IH]; simpl; [reflexivity|].
  destruct (cmp x y <=? 0); [reflexivity|].
  rewrite IH. apply Permutation_swap.
Qed.

Lemma sortBy_Permutation {A} (cmp : A -> A -> Z) l : sortBy cmp l ≡ₚ l.
Proof.
  induction l as [|x l IH]; simpl; [reflexivity|].
  rewrite insertBy_Permutation, IH. reflexivity.
Qed.

Lemma insertBy_onlineFirst localeCompare x l :
  onlineFirst l ->
  onlineFirst (insertBy (compareClients localeCompare) x l).
Proof.
  intros (on & off & -> & Hon & Hoff).
  destruct (cl_online x) eqn:Hx.
  - induction Hon as [|y on Hy Hon IH].
    + exists [x], off. simpl. split; [|split; [repeat constructor; exact Hx
                                              | exact Hoff]].
      destruct Hoff as [|y off Hy Hoff]; [reflexivity|]. simpl.
      unfold compareClients. rewrite Hx, Hy. reflexivity.
    + destruct IH as (on' & off' & E & Hon' & Hoff'). simpl.
      destruct (compareClients localeCompare x y <=? 0).
      * exists (x :: y :: on), off. split; [reflexivity|].
        split; [|exact Hoff]. repeat constructor; assumption.
      * exists (y :: on'), off'. simpl. rewrite E.
        split; [reflexivity|]. split; [|exact Hoff'].
        constructor; assumption.
  - induction Hon as [|y on Hy Hon IH].
    + exists [], (insertBy (compareClients localeCompare) x off).
      split; [reflexivity|]. split; [constructor|].
      apply insertBy_Forall; assumption.
    + destruct IH as (on' & off' & E & Hon' & Hoff'). simpl.
      unfold compareClients at 1. rewrite Hx, Hy. simpl.
      exists (y :: on'), off'. rewrite E.
      split; [reflexivity|]. split; [|exact Hoff'].
      constructor; assumption.
Qed.

Lemma sortBy_onlineFirst localeCompare l :
  onlineFirst (sortBy (compareClients localeCompare) l).
Proof.
  induction l as [|x l IH]; simpl.
  - exists [], []. repeat split; constructor.
  - apply insertBy_onlineFirst, IH.
Qed.

Lemma toClient_recent nowMs clientNames peer :
  handshakeCoherent nowMs peer ->
  recentWhenOnline nowMs (toClient clientNames peer).
Proof.
  unfold recentWhenOnline, toClient. simpl. intros Hp Hon.
  destruct (lastHandshakeSeconds peer) as [s|] eqn:Hs; [|discriminate].
  destruct (Hp s Hs) as [H0 Ht]. apply Z.ltb_lt in Hon.
  exists s. repeat split; auto; lia.
Qed.

(** What a status answer of [getWireGuardData] is made of. *)
Lemma getWireGuardData_status {P} (os : Os) nowMs wireguard
  (store : Store P) iface clients :
  fst (getWireGuardData os nowMs wireguard store)
  = Ok (WgStatus iface clients) ->
  exists wgConfig wgOutput pivpnOutput,
    let wgData := parseWgShow nowMs wgOutput (interfaceName wgConfig) in
    wireguard = Some wgConfig
    /\ statusAnswer os (interfaceName wgConfig) wgOutput
    /\ namesAnswer os pivpnOutput
    /\ iface = interface wgData
    /\ clients
       = sortBy (compareClients (os_localeCompare os))
           (map (toClient (parsePivpnList pivpnOutput)) (peers wgData)).
Proof.
  unfold getWireGuardData, statusAnswer, namesAnswer. cbv zeta.
  destruct wireguard as [wgConfig|]; [|discriminate].
  destruct (wg_enabled wgConfig); simpl; [|discriminate].
  destruct (test VALID_IFACE_REGEX (interfaceName wgConfig)); simpl;
    [|discriminate].
  unfold execAsync, readFile, tryCatch, bind, settle, perform, ret, throw.
  simpl.
  destruct (os_exec os ("wg show " ++ interfaceName wgConfig)) eqn:W; simpl;
    [|destruct (os_exec os ("sudo wg show " ++ interfaceName wgConfig))
        eqn:S; simpl];
    try (destruct (os_exec os "pivpn -l") eqn:V; simpl;
         [|destruct (os_readFile os "/etc/wireguard/configs/clients.txt")
             eqn:F; simpl]);
    intros [= <- <-] || discriminate;
    eexists _, _, _; (split; [reflexivity|]);
    (split; [eauto|]); (split; [eauto 8|]); split; reflexivity.
Qed.

(** The interface name of a parsed status text is the name given. *)
Lemma parseWgShow_name nowMs wgOutput name :
  if_name (interface (parseWgShow nowMs wgOutput name)) = name.
Proof.
  unfold parseWgShow. simpl.
  match goal with
  | |- context [fold_left ?f ?l ?s] =>
      destruct (step_in_head nowMs l s eq_refl) as [_ I]
  end.
  rewrite I. reflexivity.
Qed.

(** X13. When [getWireGuardData] answers with a status, its client
    list is made from what the operating system answered: the status
    text is the output of [wg show] for the interface (of [sudo wg
    show] when the first failed), the names come from the output of
    [pivpn -l] (from [clients.txt] when that failed, from nothing when
    both did), and the list holds one client per peer of that status
    text, each built by [toClient] (it is a rearrangement of the peers'
    clients).  Every online client comes before every other one,
    whatever [localeCompare] says about the names; and a client shown
    online carries a handshake timestamp from the last 180 seconds,
    with its age rendered by [formatTimeAgo]. *)
Theorem X13_client_list_online_first {P} (os : Os) nowMs wireguard
  (store : Store P) iface clients :
  fst (getWireGuardData os nowMs wireguard store)
  = Ok (WgStatus iface clients) ->
  (exists wgOutput pivpnOutput,
     statusAnswer os (if_name iface) wgOutput
     /\ namesAnswer os pivpnOutput
     /\ iface = interface (parseWgShow nowMs wgOutput (if_name iface))
     /\ clients ≡ₚ map (toClient (parsePivpnList pivpnOutput))
                     (peers (parseWgShow nowMs wgOutput (if_name iface))))
  /\ onlineFirst clients
  /\ Forall (recentWhenOnline nowMs) clients.
Proof.
  intros H. apply getWireGuardData_status in H.
  destruct H as (wgConfig & wgOutput & pivpnOutput & _ & Hw & Hn & -> & ->).
  split; [|split].
  - exists wgOutput, pivpnOutput. rewrite parseWgShow_name.
    repeat split; [exact Hw | exact Hn |]. apply sortBy_Permutation.
  - apply sortBy_onlineFirst.
  - apply sortBy_Forall, Forall_fmap. rewrite peers_parseWgShow.
    apply Forall_fmap, Forall_forall. intros b _.
    apply toClient_recent, blockPeer_coherent.
Qed.

Lemma X13_client_list_online_first_witness :
  exists iface clients,
    fst (getWireGuardData Examples.wgOs 120000
           (Some (mkWgConfig true None)) Examples.emptyStore)
    = Ok (WgStatus iface clients)
    /\ (exists wgOutput pivpnOutput,
          statusAnswer Examples.wgOs (if_name iface) wgOutput
          /\ namesAnswer Examples.wgOs pivpnOutput
          /\ iface = interface (parseWgShow 120000 wgOutput (if_name iface))
          /\ clients ≡ₚ map (toClient (parsePivpnList pivpnOutput))
                          (peers (parseWgShow 120000 wgOutput
                                    (if_name iface))))
    /\ onlineFirst clients
    /\ Forall (recentWhenOnline 120000) clients.
Proof.
  eexists _, _. split; [vm_compute; reflexivity|].
  apply (X13_client_list_online_first Examples.wgOs 120000
           (Some (mkWgConfig true None)) Examples.emptyStore).
  vm_compute. reflexivity.
Defined.

(** On [wgOs] the list is the two clients of [twoPeers], unnamed: the
    status text is the one that [wg show wg0] printed. *)
Example wg_clients_example :
  Examples.wgOs.(os_exec) "wg show wg0" = Done Examples.twoPeers
  /\ exists iface c1 c2,
       fst (getWireGuardData Examples.wgOs 1700000000000
              (Some (mkWgConfig true None)) Examples.emptyStore)
       = Ok (WgStatus iface [c1; c2])
       /\ cl_publicKey c1 = "AAAA" /\ cl_online c1 = true
       /\ cl_publicKey c2 = "BBBB" /\ cl_online c2 = false.
Proof.
  split; [reflexivity|]. eexists _, _, _.
  split; [vm_compute; reflexivity|]. repeat split.
Qed.

End ClientListFacts.

(** ** The result of the discovery scan *)

Section DiscoveryResultFacts.

Import RegexSpec RegexShape Discovery DiscoveryOrigin.

Ltac invert H := inversion H; subst; clear H.

Lemma addr_port_digits hosts line m :
  groupless hosts = true ->
  exec (seqs [hosts; lit ":"; RGroup 1 (plus digit)]) line = Some m ->
  forallb isDigit (group m 1) = true.
Proof.
  intros G H. apply exec_sound in H. destruct H as (pos & st' & M & Hc).
  cbn [seqs] in M. invert M.
  match goal with M : Matches hosts _ _ |- _ =>
    apply Matches_groupless in M; [|exact G]; simpl in M end.
  match goal with M : Matches (RSeq _ _) _ _ |- _ => invert M end.
  match goal with M : Matches (lit ":") _ _ |- _ =>
    apply Matches_groupless in M; [|reflexivity] end.
  match goal with M : Matches (RGroup 1 _) _ _ |- _ =>
    apply Matches_group_class in M;
    destruct M as (d & _ & Hd & _ & _ & C1) end.
  unfold group. rewrite Hc, C1. simpl. exact Hd.
Qed.

Lemma linePort_tcp_nonneg line p : linePort TCP_ADDR line = Some p -> 0 <= p.
Proof.
  unfold linePort, TCP_ADDR.
  destruct (exec _ line) as [m|] eqn:E; [|discriminate].
  intros [= <-]. apply digitsVal_nonneg.
  eapply addr_port_digits; [|exact E]. reflexivity.
Qed.

Lemma linePort_udp_nonneg line p : linePort UDP_ADDR line = Some p -> 0 <= p.
Proof.
  unfold linePort, UDP_ADDR.
  destruct (exec _ line) as [m|] eqn:E; [|discriminate].
  intros [= <-]. apply digitsVal_nonneg.
  eapply addr_port_digits; [|exact E]. reflexivity.
Qed.

Lemma known_udp_ports p k :
  KNOWN_UDP_SERVICES !! p = Some k -> In p [500; 1194; 1723; 4500; 51820].
Proof.
  unfold KNOWN_UDP_SERVICES. intros H.
  apply elem_of_list_to_map_2, list_elem_of_In in H.
  unfold KNOWN_UDP_SERVICES_list in H. simpl in H.
  repeat (destruct H as [[= <- _] | H]; [simpl; tauto|]).
  destruct H.
Qed.

Lemma tcpLine_origin all st line (I : Discovered -> Prop) :
  (forall d, fromTcp all d /\ wellFormed d -> I d) ->
  In line (tcpLines all) ->
  Forall I (fst st) -> Forall I (fst (tcpLine st line)).
Proof.
  intros HI Hin Hst.
  destruct (tcpLine_cases st line)
    as [-> | (port & Hport & Hle & Hfresh & [[_ ->] | [Hlo (k & Hk & ->)]])];
    try exact Hst.
  simpl. apply Forall_app. split; [exact Hst|].
  apply Forall_cons_2; [|apply Forall_nil_2]. apply HI. split.
  - exists line, k. simpl. auto 10.
  - unfold wellFormed. simpl. repeat split.
    eapply linePort_tcp_nonneg, Hport.
Qed.

Lemma udpLine_origin all st line (I : Discovered -> Prop) :
  (forall d, fromUdp all d /\ wellFormed d -> I d) ->
  In line (udpLines all) ->
  Forall I (fst st) -> Forall I (fst (udpLine st line)).
Proof.
  intros HI Hin Hst.
  destruct (udpLine_cases st line)
    as [-> | (port & k & Hport & Hfresh & Hk & ->)]; [exact Hst|].
  simpl. apply Forall_app. split; [exact Hst|].
  apply Forall_cons_2; [|apply Forall_nil_2]. apply HI. split.
  - exists line, k. simpl. pose proof (known_udp_ports _ _ Hk). auto 10.
  - unfold wellFormed. simpl. repeat split.
    eapply linePort_udp_nonneg, Hport.
Qed.

Lemma fold_origin {L} (f : Scan -> L -> Scan) (member : L -> Prop)
  (I : Discovered -> Prop) :
  (forall st line, member line -> Forall I (fst st) ->
                   Forall I (fst (f st line))) ->
  forall lines st,
    (forall line, In line lines -> member line) ->
    Forall I (fst st) -> Forall I (fst (fold_left f lines st)).
Proof.
  intros Hf. induction lines as [|l lines IH]; intros st Hm Hst; simpl;
    [exact Hst|].
  apply IH; [intros; apply Hm; right; assumption|].
  apply Hf; [apply Hm; left; reflexivity | exact Hst].
Qed.

(** X14. Every service that the scan returns was made from a line of
    one of the two listings: either from a LISTEN line of the TCP
    listing whose port is at most 32767 and that does not mention
    127.0.0.1, identified by [identify]; or from a line of the UDP
    listing whose port is one of the five known UDP ports.  Its port is
    not negative, its host is localhost and it is enabled and marked as
    discovered. *)
Theorem X14_discovered_service_origin tcpOutput udpOutput :
  Forall (fun d =>
            (fromTcp tcpOutput d \/ fromUdp udpOutput d) /\ wellFormed d)
    (discover tcpOutput udpOutput).
Proof.
  unfold discover. apply sortBy_Forall.
  apply (fold_origin udpLine (fun l => In l (udpLines udpOutput))).
  - intros st line Hin Hst.
    apply (udpLine_origin udpOutput); [tauto | exact Hin | exact Hst].
  - auto.
  - apply (fold_origin tcpLine (fun l => In l (tcpLines tcpOutput))).
    + intros st line Hin Hst.
      apply (tcpLine_origin tcpOutput); [tauto | exact Hin | exact Hst].
    + auto.
    + apply Forall_nil_2.
Qed.

Lemma tcpLine_invariant st line :
  scanInvariant st -> scanInvariant (tcpLine st line).
Proof.
  intros [Hnd Hseen].
  destruct (tcpLine_cases st line)
    as [-> | (port & Hport & Hle & Hfresh & [[_ ->] | [Hlo (k & Hk & ->)]])].
  - split; assumption.
  - split; [exact Hnd|]. unfold ports. simpl. intros p Hp.
    apply elem_of_union_r, Hseen, Hp.
  - split.
    + rewrite ports_snoc. apply NoDup_app. split; [exact Hnd|].
      split; [|apply NoDup_singleton].
      intros p Hp Hp'. apply list_elem_of_In in Hp.
      apply list_elem_of_singleton in Hp'. simpl in Hp'. subst p.
      apply Hfresh, Hseen, Hp.
    + rewrite ports_snoc. simpl. intros p Hp. apply in_app_or in Hp.
      destruct Hp as [Hp | [<- | []]].
      * apply elem_of_union_r, Hseen, Hp.
      * apply elem_of_union_l, elem_of_singleton. reflexivity.
Qed.

Lemma udpLine_invariant st line :
  scanInvariant st -> scanInvariant (udpLine st line).
Proof.
  intros [Hnd Hseen].
  destruct (udpLine_cases st line)
    as [-> | (port & k & Hport & Hfresh & Hk & ->)]; [split; assumption|].
  split.
  - rewrite ports_snoc. apply NoDup_app. split; [exact Hnd|].
    split; [|apply NoDup_singleton].
    intros p Hp Hp'. apply list_elem_of_In in Hp.
    apply list_elem_of_singleton in Hp'. simpl in Hp'. subst p.
    apply Hfresh, Hseen, Hp.
  - rewrite ports_snoc. simpl. intros p Hp. apply in_app_or in Hp.
    destruct Hp as [Hp | [<- | []]].
    + apply elem_of_union_r, Hseen, Hp.
    + apply elem_of_union_l, elem_of_singleton. reflexivity.
Qed.

Lemma fold_invariant (f : Scan -> string -> Scan) :
  (forall st line, scanInvariant st -> scanInvariant (f st line)) ->
  forall lines st, scanInvariant st -> scanInvariant (fold_left f lines st).
Proof.
  intros Hf. induction lines as [|l lines IH]; intros st Hst; simpl;
    [exact Hst|].
  apply IH, Hf, Hst.
Qed.

Lemma insertBy_ascending x l :
  ~ In (d_port x) (map d_port l) ->
  StronglySorted Z.lt (map d_port l) ->
  StronglySorted Z.lt (map d_port (insertBy comparePorts x l)).
Proof.
  induction l as [|y l IH]; intros Hx Hl; simpl.
  - repeat constructor.
  - simpl in Hx, Hl. apply StronglySorted_inv in Hl. destruct Hl as [Hl Hy].
    unfold comparePorts at 1.
    destruct (d_port x - d_port y <=? 0) eqn:Hc.
    + apply Z.leb_le in Hc. simpl.
      assert (Hlt : d_port x < d_port y) by lia.
      constructor; [constructor; assumption|].
      constructor; [exact Hlt|].
      eapply List.Forall_impl; [|exact Hy]. simpl. intros; lia.
    + apply Z.leb_gt in Hc. simpl. constructor; [apply IH; tauto|].
      apply List.Forall_forall. intros p Hp. apply in_map_iff in Hp.
      destruct Hp as (d & <- & Hd). apply insertBy_In in Hd.
      destruct Hd as [-> | Hd]; [lia|].
      rewrite List.Forall_forall in Hy. apply Hy, in_map, Hd.
Qed.

Lemma sortBy_ascending l :
  NoDup (map d_port l) ->
  StronglySorted Z.lt (map d_port (sortBy comparePorts l)).
Proof.
  induction l as [|x l IH]; intros Hnd; simpl; [constructor|].
  simpl in Hnd. apply NoDup_cons in Hnd. destruct Hnd as [Hx Hnd].
  apply insertBy_ascending; [|apply IH, Hnd].
  intros Hin. apply Hx, list_elem_of_In. apply in_map_iff in Hin.
  destruct Hin as (d & E & Hd). apply sortBy_In in Hd.
  rewrite <- E. apply in_map, Hd.
Qed.

(** X15. The services that the scan returns are in strictly ascending
    order of port: sorted, and no port is listed twice, whatever lines
    the two listings hold. *)
Theorem X15_discovered_ports_strictly_ascending tcpOutput udpOutput :
  StronglySorted Z.lt (map d_port (discover tcpOutput udpOutput)).
Proof.
  unfold discover. apply sortBy_ascending.
  apply (fold_invariant udpLine udpLine_invariant).
  apply (fold_invariant tcpLine tcpLine_invariant).
  split; [apply NoDup_nil_2 | intros p []].
Qed.

(** X16. [discoverServices] is always fulfilled and runs at most the
    two listing commands, in that order.  When the TCP listing fails
    the result is empty and the UDP listing is not asked for; when only
    the UDP listing fails, the result is that of the TCP listing
    alone. *)
Theorem X16_discovery_tolerates_failed_listings {P} (os : Os)
  (store : Store P) :
  exists found trace,
    discoverServices os store
    = (Ok found,
       mkStore (cpuCache store) (staticCache store)
         (effects store ++ trace)%list)
    /\ match os_exec os TCP_COMMAND with
       | Failed _ => found = [] /\ trace = [Exec TCP_COMMAND]
       | Done tcpOutput =>
           trace = [Exec TCP_COMMAND; Exec UDP_COMMAND]
           /\ found
              = discover tcpOutput
                  (match os_exec os UDP_COMMAND with
                   | Done udpOutput => udpOutput
                   | Failed _ => ""
                   end)
       end.
Proof.
  unfold discoverServices, tryCatch, bind, settle, perform, ret, throw.
  simpl.
  destruct (os_exec os TCP_COMMAND) as [tcpOutput|e]; simpl.
  - destruct (os_exec os UDP_COMMAND) as [udpOutput|e]; simpl;
      eexists _, _; (split; [rewrite <- app_assoc; reflexivity|]);
      split; reflexivity.
  - eexists _, _. split; [reflexivity|]. split; reflexivity.
Qed.

(** X19. A TCP line that the scanner processes (its address gives a
    port not above 32767 that has not been seen and the line is not
    bound to loopback) is identified in this order: by what the lookup
    of its process name in [KNOWN_PROCESSES] finds; else by the table
    of known ports; else, for a port below 10000, as a generic entry
    named after the process or [Port <n>], of checkType [tcp]; and a
    port from 10000 on for which both lookups find nothing yields no
    entry.  The lookup of a process name finds the entry of the table
    under that name, and otherwise the member that [Object.prototype]
    has under that name, which gives an entry without a name.  The line
    of the specification for Jellyfin yields one service on port 8096
    named Jellyfin, of checkType [http], found through the process
    table. *)
Theorem X19_identification_order discovered (seen : gset Z) line port :
  linePort TCP_ADDR line = Some port ->
  port <= 32767 ->
  port ∉ seen ->
  includes line "127.0.0.1" = false ->
  let processName := lineProcess line in
  let next := {[port]} ∪ seen in
  (forall e,
     knownProcess processName = Some e ->
     tcpLine (discovered, seen) line
     = ((discovered ++ [tcpEntry e port processName])%list, next))
  /\ (forall k,
        knownProcess processName = None ->
        KNOWN_SERVICES !! port = Some k ->
        tcpLine (discovered, seen) line
        = ((discovered ++ [tcpEntry (ofKnown k) port processName])%list,
           next))
  /\ (knownProcess processName = None ->
      KNOWN_SERVICES !! port = None ->
      port < 10000 ->
      tcpLine (discovered, seen) line
      = ((discovered
          ++ [mkDiscovered (Some (orElse processName ("Port " ++ showZ port)))
                port "/" "localhost" "server" "tcp" true true
                (if truthy processName then processName else None) None])%list,
         next))
  /\ (knownProcess processName = None ->
      KNOWN_SERVICES !! port = None ->
      10000 <= port ->
      tcpLine (discovered, seen) line = (discovered, next))
  /\ (forall name,
        name <> "" ->
        knownProcess (Some name)
        = match KNOWN_PROCESSES !! name with
          | Some k => Some (ofKnown k)
          | None =>
              if inList name OBJECT_PROTOTYPE_KEYS then Some inherited
              else None
          end)
  /\ discover Examples.jellyfinLine ""
     = [mkDiscovered (Some "Jellyfin") 8096 "/" "localhost" "film" "http"
          true true (Some "jellyfin") None].
Proof.
  intros Hport Hle Hfresh Hlo processName next.
  assert (E : tcpLine (discovered, seen) line
              = match identify processName port with
                | Some service =>
                    ((discovered ++ [tcpEntry service port processName])%list,
                     next)
                | None => (discovered, next)
                end).
  { unfold tcpLine. rewrite Hport.
    replace (32767 <? port) with false by (symmetry; apply Z.ltb_ge; lia).
    rewrite bool_decide_eq_false_2 by exact Hfresh. simpl. rewrite Hlo.
    reflexivity. }
  rewrite E. unfold identify.
  split; [|split; [|split; [|split; [|split]]]].
  - intros e ->. reflexivity.
  - intros k -> ->. reflexivity.
  - intros -> -> Hlt.
    replace (port <? 10000) with true by (symmetry; apply Z.ltb_lt; lia).
    reflexivity.
  - intros -> -> Hge.
    replace (port <? 10000) with false by (symmetry; apply Z.ltb_ge; lia).
    reflexivity.
  - intros name Hne. unfold knownProcess.
    destruct (String.eqb_spec name ""); [contradiction | reflexivity].
  - vm_compute. reflexivity.
Qed.

Lemma X19_identification_order_witness :
  tcpLine ([], ∅) Examples.jellyfinLine
  = ([tcpEntry (ofKnown (knp "Jellyfin" "film" "http" "/")) 8096
        (Some "jellyfin")],
     {[8096]} ∪ ∅).
Proof.
  assert (Hport : linePort TCP_ADDR Examples.jellyfinLine = Some 8096)
    by (vm_compute; reflexivity).
  assert (Hlo : includes Examples.jellyfinLine "127.0.0.1" = false)
    by (vm_compute; reflexivity).
  destruct (X19_identification_order [] ∅ Examples.jellyfinLine 8096 Hport
              ltac:(lia) (not_elem_of_empty 8096) Hlo) as [H _].
  apply (H (ofKnown (knp "Jellyfin" "film" "http" "/"))).
  vm_compute. reflexivity.
Defined.

End DiscoveryResultFacts.

(** ** Polls that are served from the static cache *)

Section CacheUseFacts.

Import WireGuardData Aggregator CacheUse.

Context {P : Type}.
Variable os : Os.
Variable host : Host P.
Variable numCpus : Z.
Variable nowMs : Z.
Variable sc : StaticCache P.

Lemma keeps_ret {A} (Post : A -> Prop) a : Post a -> keeps sc Post (ret a).
Proof.
  intros Ha s Hs. simpl. split; [exact Hs|]. split.
  - exists []. rewrite app_nil_r. split; [reflexivity | constructor].
  - intros a' [= <-]. exact Ha.
Qed.

Lemma keeps_throw {A} (Post : A -> Prop) e : keeps sc Post (throw e).
Proof.
  intros s Hs. simpl. split; [exact Hs|]. split.
  - exists []. rewrite app_nil_r. split; [reflexivity | constructor].
  - intros a' [=].
Qed.

Lemma keeps_weaken {A} (Post Post' : A -> Prop) m :
  keeps sc Post m -> (forall a, Post a -> Post' a) -> keeps sc Post' m.
Proof.
  intros Hm Hi s Hs. destruct (Hm s Hs) as (H1 & H2 & H3).
  split; [exact H1|]. split; [exact H2|]. intros a Ha. apply Hi, H3, Ha.
Qed.

Lemma keeps_bind {A B} (Mid : A -> Prop) (Post : B -> Prop)
  (m : Async P A) (f : A -> Async P B) :
  keeps sc Mid m -> (forall a, Mid a -> keeps sc Post (f a)) ->
  keeps sc Post (bind m f).
Proof.
  intros Hm Hf s Hs. destruct (Hm s Hs) as (H1 & (tr1 & E1 & F1) & H3).
  unfold bind. destruct (m s) as [[a|e|] s1] eqn:E; simpl in *.
  - destruct (Hf a (H3 a eq_refl) s1 H1) as (G1 & (tr2 & E2 & F2) & G3).
    split; [exact G1|]. split; [|exact G3].
    exists (tr1 ++ tr2)%list. rewrite E2, E1, app_assoc.
    split; [reflexivity | apply Forall_app; auto].
  - split; [exact H1|]. split; [eauto | intros a [=]].
  - split; [exact H1|]. split; [eauto | intros a [=]].
Qed.

Lemma keeps_tryCatch {A} (Post : A -> Prop) (m : Async P A) h :
  keeps sc Post m -> (forall e, keeps sc Post (h e)) ->
  keeps sc Post (tryCatch m h).
Proof.
  intros Hm Hh s Hs. destruct (Hm s Hs) as (H1 & (tr1 & E1 & F1) & H3).
  unfold tryCatch. destruct (m s) as [[a|e|] s1] eqn:E; simpl in *.
  - split; [exact H1|]. split; [eauto | exact H3].
  - destruct (Hh e s1 H1) as (G1 & (tr2 & E2 & F2) & G3).
    split; [exact G1|]. split; [|exact G3].
    exists (tr1 ++ tr2)%list. rewrite E2, E1, app_assoc.
    split; [reflexivity | apply Forall_app; auto].
  - split; [exact H1|]. split; [eauto | intros a [=]].
Qed.

Lemma keeps_both {A B} (PostA : A -> Prop) (PostB : B -> Prop)
  (a : Async P A) (b : Async P B) :
  keeps sc PostA a -> keeps sc PostB b ->
  keeps sc (fun _ => True) (both a b).
Proof.
  intros Ha Hb s Hs. destruct (Ha s Hs) as (H1 & (tr1 & E1 & F1) & _).
  unfold both. destruct (a s) as [ra s1] eqn:Ea. simpl in *.
  destruct (Hb s1 H1) as (G1 & (tr2 & E2 & F2) & _).
  destruct (b s1) as [rb s2] eqn:Eb. simpl in *.
  split; [exact G1|]. split; [|auto].
  exists (tr1 ++ tr2)%list. rewrite E2, E1, app_assoc.
  split; [reflexivity | apply Forall_app; auto].
Qed.

Lemma keeps_settle {A} e (o : Outcome A) :
  ~ staticCall e -> keeps sc (fun _ => True) (settle e o).
Proof.
  intros He s Hs. unfold settle, bind, perform, ret, throw.
  destruct o; simpl; (split; [exact Hs|]);
    (split; [exists [e]; split; [reflexivity | repeat constructor; exact He]
            | auto]).
Qed.

Lemma keeps_getStore :
  keeps sc (fun s0 : Store P => staticCache s0 = sc) getStore.
Proof.
  intros s Hs. simpl. split; [exact Hs|]. split.
  - exists []. rewrite app_nil_r. split; [reflexivity | constructor].
  - intros a [= <-]. exact Hs.
Qed.

Lemma keeps_putCpuCache c : keeps sc (fun _ => True) (putCpuCache c).
Proof.
  intros s Hs. simpl. split; [exact Hs|]. split; [|auto].
  exists []. rewrite app_nil_r. split; [reflexivity | constructor].
Qed.

Lemma keeps_putStaticCache : keeps sc (fun _ => True) (putStaticCache sc).
Proof.
  intros s Hs. simpl. split; [reflexivity|]. split; [|auto].
  exists []. rewrite app_nil_r. split; [reflexivity | constructor].
Qed.

Lemma keeps_forEach {A S} (f : S -> A -> Async P S) l :
  (forall s x, keeps sc (fun _ => True) (f s x)) ->
  forall s, keeps sc (fun _ => True) (forEach f l s).
Proof.
  intros Hf. induction l as [|x l IH]; intros s; simpl.
  - apply keeps_ret. exact I.
  - eapply keeps_bind; [apply Hf | intros s' _; apply IH].
Qed.

Ltac plain_effect :=
  unfold staticCall; intros [?|?]; discriminate.

Ltac keeps_step :=
  match goal with
  | |- keeps _ _ (bind _ _) =>
      eapply keeps_bind with (Mid := fun _ => True); [|intros ? _]
  | |- keeps _ _ (tryCatch _ _) => apply keeps_tryCatch; [|intros ?]
  | |- keeps _ _ (both _ _) =>
      eapply keeps_both with (PostA := fun _ => True) (PostB := fun _ => True)
  | |- keeps _ _ (settle _ _) => apply keeps_settle; plain_effect
  | |- keeps _ _ (ret _) => apply keeps_ret; exact I
  | |- keeps _ _ getStore =>
      eapply keeps_weaken; [apply keeps_getStore | auto]
  | |- keeps _ _ (putCpuCache _) => apply keeps_putCpuCache
  | |- keeps _ _ (match ?x with _ => _ end) => destruct x
  end.

Lemma keeps_getContainers :
  keeps sc (fun _ => True) (getContainers os host numCpus nowMs).
Proof.
  unfold getContainers, lib. repeat keeps_step.
  unfold getDockerContainerStats, dockerApiGet, readFileSync.
  repeat keeps_step.
  apply keeps_forEach. intros statsMap fullId.
  unfold containerStats, dockerApiGet, readFileSync, readCgroupCpuUsage,
    cpuPercentOf, readFileSync.
  repeat keeps_step.
Qed.

(** X17. A poll that finds the static cache fresh (the OS information
    is there and not older than 60 s, the disks not older than 30 s)
    is served from it: [getSystemStats] calls neither [si.osInfo] nor
    [si.networkInterfaces], leaves the cache as it is, and the OS and
    disk parts of a result are the cached ones. *)
Theorem X17_fresh_cache_is_not_refreshed (store : Store P) :
  staticCache store = sc ->
  fresh nowMs sc ->
  staticCache (snd (getSystemStats os host numCpus nowMs store)) = sc
  /\ (exists trace,
        effects (snd (getSystemStats os host numCpus nowMs store))
        = (effects store ++ trace)%list
        /\ Forall (fun e => ~ staticCall e) trace)
  /\ forall stats,
       fst (getSystemStats os host numCpus nowMs store) = Ok stats ->
       st_os P stats = (sc_osInfo sc, sc_hostOsInfo sc)
       /\ st_disks P stats = sc_disks sc.
Proof.
  intros Hs (Hos & Hstatic & Hdisk). revert store Hs.
  change (keeps sc
            (fun stats => st_os P stats = (sc_osInfo sc, sc_hostOsInfo sc)
                          /\ st_disks P stats = sc_disks sc)
            (getSystemStats os host numCpus nowMs)).
  unfold getSystemStats.
  eapply keeps_bind; [apply keeps_getStore|]. intros s0 Hs0.
  cbv beta zeta. rewrite !Hs0.
  assert (C1 : isNone (sc_osInfo sc)
               || (STATIC_CACHE_TTL <? nowMs - sc_lastStaticRefresh sc)
               = false).
  { apply orb_false_iff. split.
    - destruct (sc_osInfo sc); [reflexivity | congruence].
    - apply Z.ltb_ge. exact Hstatic. }
  rewrite C1.
  eapply keeps_bind with (Mid := fun c => c = sc);
    [apply keeps_ret; reflexivity|].
  intros c ->.
  eapply keeps_bind with (Mid := fun _ => True);
    [apply keeps_putStaticCache|]. intros _ _.
  assert (C2 : (DISK_CACHE_TTL <? nowMs - sc_lastDiskCheck sc) = false)
    by (apply Z.ltb_ge; exact Hdisk).
  rewrite C2.
  eapply keeps_bind with (Mid := fun c => c = sc);
    [apply keeps_ret; reflexivity|].
  intros c ->.
  eapply keeps_bind with (Mid := fun _ => True);
    [apply keeps_putStaticCache|]. intros _ _.
  eapply keeps_bind with (Mid := fun _ => True).
  { unfold lib. repeat keeps_step. }
  intros (cpu & mem & temp & time & networkStats & cpuSpeed) _.
  eapply keeps_bind; [apply keeps_getContainers|]. intros containers _.
  apply keeps_ret. split; reflexivity.
Qed.

End CacheUseFacts.

Lemma X17_fresh_cache_is_not_refreshed_witness :
  staticCache
    (snd (Aggregator.getSystemStats Examples.quietOs Examples.plainHost 4
            1000 Examples.warmStore))
  = Examples.warmCache
  /\ (exists trace,
        effects
          (snd (Aggregator.getSystemStats Examples.quietOs Examples.plainHost
                  4 1000 Examples.warmStore))
        = (effects Examples.warmStore ++ trace)%list
        /\ Forall (fun e => ~ CacheUse.staticCall e) trace)
  /\ forall stats,
       fst (Aggregator.getSystemStats Examples.quietOs Examples.plainHost 4
              1000 Examples.warmStore)
       = Ok stats ->
       Aggregator.st_os unit stats
       = (sc_osInfo Examples.warmCache, sc_hostOsInfo Examples.warmCache)
       /\ Aggregator.st_disks unit stats = sc_disks Examples.warmCache.
Proof.
  apply (X17_fresh_cache_is_not_refreshed Examples.quietOs Examples.plainHost
           4 1000 Examples.warmCache Examples.warmStore).
  - reflexivity.
  - unfold CacheUse.fresh, Aggregator.STATIC_CACHE_TTL,
      Aggregator.DISK_CACHE_TTL.
    simpl. repeat split; [discriminate | lia | lia].
Defined.

(** The effects of the poll of the example. *)
Example warm_poll_effects :
  effects
    (snd (Aggregator.getSystemStats Examples.quietOs Examples.plainHost 4
            1000 Examples.warmStore))
  = [LibCall "currentLoad"; LibCall "mem"; LibCall "cpuTemperature";
     LibCall "time"; LibCall "networkStats"; LibCall "cpuCurrentSpeed";
     LibCall "dockerContainers"].
Proof. vm_compute. reflexivity. Qed.

(** ** Icons *)

Section IconFacts.

Import ServiceConfig.

(** X18. [inferIcon] never answers with an empty icon name: an explicit
    icon other than the empty one and [server] is kept as it is, and
    otherwise the answer is the icon of the known port or [server]; an
    explicit [server] is treated like no icon at all. *)
Theorem X18_inferIcon_never_empty port explicitIcon :
  inferIcon port explicitIcon <> ""
  /\ (forall icon,
        explicitIcon = Some icon -> icon <> "" -> icon <> "server" ->
        inferIcon port explicitIcon = icon)
  /\ inferIcon port (Some "server") = inferIcon port None.
Proof.
  assert (Hknown : match KNOWN_SERVICES !! port with
                   | Some k => kn_icon k
                   | None => "server"
                   end <> "").
  { destruct (KNOWN_SERVICES !! port) as [k|] eqn:E; [|discriminate].
    eapply known_services_valid, E. }
  unfold inferIcon.
  set (known := match KNOWN_SERVICES !! port with
                | Some k => kn_icon k
                | None => "server"
                end) in *.
  split; [|split].
  - destruct explicitIcon as [icon|]; cbn [truthy orElse];
      [|exact Hknown].
    destruct (String.eqb_spec icon ""); cbn [negb andb]; [exact Hknown|].
    destruct (String.eqb_spec icon "server"); cbn [negb]; [exact Hknown|].
    assumption.
  - intros icon -> H1 H2. cbn [truthy orElse].
    destruct (String.eqb_spec icon ""); [contradiction|]. cbn [negb andb].
    destruct (String.eqb_spec icon "server"); [contradiction|]. reflexivity.
  - reflexivity.
Qed.

End IconFacts.
